(** * Missing-tag audit: a shallow embedding of the scanner and the analysis

    The development follows the three scripts of the repository:

    - [specific_tags_are_not_set_aws_resources_per_region_excel.py]
      (module [Excel]): the scan that writes the CSV dataset;
    - [specific_tags_are_not_set_aws_resources_per_region.py]
      (module [Console]): the scan that prints its findings;
    - [specific_tags_are_not_set_aws_resources_advanced_analysis.py]
      (module [Analysis]): the report over the CSV dataset.

    [load_required_tags] and [check_missing_tags] are textually the same in
    both scanners and are embedded once.  The export of the dataset is in
    module [Dataset].  What the scripts use of Python's library is in the
    modules [PyStr] (string methods), [TextFile] (text-mode reading) and
    [Csv] (the [csv] module).

    Python values are modelled as follows.  A [str] is a [string]; its
    characters are read as code points 0..255.  A [dict] with string keys is
    a [gmap string _]; a [set] of strings is a [gset string].  A call to the
    cloud provider either raises or returns ([outcome]); the provider is a
    snapshot ([Provider]): the same call gives the same answer during one
    scan.  The body of a [try] is a computation over the list it appends to,
    and the list keeps what was appended before an exception ([Scan]). *)

From Stdlib Require Import String Ascii List Arith Lia Sorting.Sorted Sorting.Permutation.
From stdpp Require Import base option list sets gmap strings.

Local Open Scope string_scope.
Local Open Scope list_scope.

(** ** Outcomes *)

(** A call (to the provider, to the file system) raises or returns. *)
Inductive outcome (A : Type) : Type :=
  | Raised : outcome A
  | Returned : A → outcome A.
Arguments Raised {A}.
Arguments Returned {A} _.

(** ** Python strings *)

Module PyStr.

(** [sep.join(l)] *)
Definition join (sep : string) (l : list string) : string := String.concat sep l.

(** [str.isspace] on one character, for the code points 0..255:
    TAB, LF, VT, FF, CR, FS, GS, RS, US, SPACE, NEL and NBSP. *)
Definition isspace (c : ascii) : bool :=
  let n := nat_of_ascii c in
  (Nat.leb 9 n && Nat.leb n 13) || (Nat.leb 28 n && Nat.leb n 32)
  || Nat.eqb n 133 || Nat.eqb n 160.

(** [s.lstrip()] *)
Fixpoint lstrip (s : string) : string :=
  match s with
  | EmptyString => EmptyString
  | String c s' => if isspace c then lstrip s' else s
  end.

(** [s.rstrip()]: a trailing character goes when it is a space and
    everything after it has gone. *)
Fixpoint rstrip (s : string) : string :=
  match s with
  | EmptyString => EmptyString
  | String c s' =>
      match rstrip s' with
      | EmptyString => if isspace c then EmptyString else String c EmptyString
      | r => String c r
      end
  end.

(** [s.strip()] *)
Definition strip (s : string) : string := rstrip (lstrip s).

(** Truth value of a string: [if s] holds for the non-empty ones. *)
Definition truthy (s : string) : bool :=
  match s with EmptyString => false | _ => true end.

(** Put a character in front of the first piece of a split. *)
Definition push (c : ascii) (pieces : list string) : list string :=
  match pieces with
  | [] => [String c EmptyString]
  | piece :: rest => String c piece :: rest
  end.

(** [s.split(sep)] for a non-empty separator: the pieces between the
    occurrences of [sep], found from the left without overlap.  [skip]
    counts the characters of an occurrence still to be passed over. *)
Fixpoint split_from (sep : string) (skip : nat) (s : string) : list string :=
  match s with
  | EmptyString => [EmptyString]
  | String c s' =>
      match skip with
      | S k => split_from sep k s'
      | O =>
          if String.prefix sep s
          then EmptyString :: split_from sep (Nat.pred (String.length sep)) s'
          else push c (split_from sep 0 s')
      end
  end.

Definition split (sep s : string) : list string := split_from sep 0 s.

End PyStr.

(** ** Text files *)

Module TextFile.

Definition LF : ascii := "010"%char.
Definition CR : ascii := "013"%char.

(** Reading in text mode with the default [newline=None]: the line ends
    CR LF and CR are given as LF. *)
Fixpoint universal_newlines (s : string) : string :=
  match s with
  | EmptyString => EmptyString
  | String c s' =>
      if Ascii.eqb c CR then
        match s' with
        | String c' s'' =>
            if Ascii.eqb c' LF then String LF (universal_newlines s'')
            else String LF (universal_newlines s')
        | EmptyString => String LF EmptyString
        end
      else String c (universal_newlines s')
  end.

(** The lines of a text, each with its LF when it has one. *)
Fixpoint lines (s : string) : list string :=
  match s with
  | EmptyString => []
  | String c s' =>
      if Ascii.eqb c LF then String c EmptyString :: lines s'
      else
        match lines s' with
        | [] => [String c EmptyString]
        | l :: ls => String c l :: ls
        end
  end.

(** [for line in f] over a file opened with [open(name, 'r')]. *)
Definition iter (content : string) : list string :=
  lines (universal_newlines content).

(** [open(name, 'r')]: the file is not there, cannot be opened for
    another reason, or is opened on its content. *)
Inductive opened :=
  | FileNotFound
  | OSError
  | Opened (content : string).


End TextFile.

(** ** [load_required_tags] (both scanners) *)

Definition default_tags : list string := ["Environment"; "Owner"; "Project"].

(** [load_required_tags()], on what [open('required_tags.txt', 'r')] gives.
    Only [FileNotFoundError] is caught. *)
Definition load_required_tags (f : TextFile.opened) : outcome (list string) :=
  match f with
  | TextFile.Opened content =>
      Returned (map PyStr.strip
                  (filter (λ line, PyStr.truthy (PyStr.strip line) = true)
                     (TextFile.iter content)))
  | TextFile.FileNotFound => Returned default_tags
  | TextFile.OSError => Raised
  end.

(** ** Tag records and [check_missing_tags] *)

(** A tag record is a [dict]; the provider's records have the fields
    ['Key'] and ['Value']. *)
Abbreviation Tag := (gmap string string).

(** [{'Key': k, 'Value': v}] *)
Definition mk_tag (k v : string) : Tag := <["Key" := k]> (<["Value" := v]> ∅).

(** [tag.get('Key', '')] *)
Definition tag_key (tag : Tag) : string := default "" (tag !! "Key").

(** The first argument of [check_missing_tags] is [None] or a list of tag
    records. *)
Definition py_tags := option (list Tag).

(** [not resource_tags]: true for [None] and for the empty list. *)
Definition not_tags (resource_tags : py_tags) : bool :=
  match resource_tags with
  | None => true
  | Some [] => true
  | Some (_ :: _) => false
  end.

(** [{tag.get('Key', '') for tag in resource_tags}] *)
Definition existing_tags (tags : list Tag) : gset string :=
  list_to_set (map tag_key tags).

(** [check_missing_tags(resource_tags, required_tags)] (both scanners). *)
Definition check_missing_tags (resource_tags : py_tags) (required_tags : list string)
  : list string :=
  if not_tags resource_tags then required_tags
  else
    let existing := existing_tags (default [] resource_tags) in
    filter (λ tag, tag ∉ existing) required_tags.

(** The keys of the records of a tag argument, as the function reads them. *)
Definition keys_of (resource_tags : py_tags) : gset string :=
  existing_tags (default [] resource_tags).

(** The ['Key'] values of the records of a tag argument: the values the
    records hold under ['Key'], read off the records themselves. *)
Definition key_values (resource_tags : py_tags) : gset string :=
  list_to_set (omap (λ tag : Tag, tag !! "Key") (default [] resource_tags)).


(** ** Provider calls and the accumulator of a scan *)


(** A block of statements that appends to one list (the [resources] of a
    scan).  It runs from the list as it stands and ends by raising or by
    returning, in both cases with the list as it stands then: what was
    appended before an exception stays appended. *)
Definition Scan (F A : Type) : Type := list F → outcome A * list F.

Module Scan.
Section Ops.
Context {F : Type}.

Definition ret {A} (a : A) : Scan F A := λ acc, (Returned a, acc).

Definition bind {A B} (m : Scan F A) (k : A → Scan F B) : Scan F B :=
  λ acc,
    match m acc with
    | (Returned a, acc') => k a acc'
    | (Raised, acc') => (Raised, acc')
    end.

(** A provider call: it does not touch the list. *)
Definition call {A} (o : outcome A) : Scan F A := λ acc, (o, acc).

(** [resources.append(f)] *)
Definition append (f : F) : Scan F unit := λ acc, (Returned tt, acc ++ [f]).

(** [for x in xs: body] *)
Fixpoint for_each {A} (xs : list A) (body : A → Scan F unit) : Scan F unit :=
  match xs with
  | [] => ret tt
  | x :: xs' => bind (body x) (λ _, for_each xs' body)
  end.

(** [try: body  except: handler] with a bare [except]. *)
Definition try_except {A} (body handler : Scan F A) : Scan F A :=
  λ acc,
    match body acc with
    | (Returned a, acc') => (Returned a, acc')
    | (Raised, acc') => handler acc'
    end.

(** [pass] *)
Definition pass : Scan F unit := ret tt.
End Ops.
End Scan.

#[global] Instance Scan_ret {F} : MRet (Scan F) := λ A a, Scan.ret a.
#[global] Instance Scan_bind {F} : MBind (Scan F) := λ A B k m, Scan.bind m k.

(** ** The provider *)

(** The records of the listing calls, with the fields the scanners read.
    [None] for a [Tags] field is a record without that key. *)
Record Instance := { InstanceId : string; instance_Tags : option (list Tag) }.
Record Reservation := { Instances : list Instance }.
Record Volume := { VolumeId : string; volume_Tags : option (list Tag) }.
Record Vpc := { VpcId : string; vpc_Tags : option (list Tag) }.
Record SecurityGroup := { GroupId : string; sg_Tags : option (list Tag) }.
Record Subnet := { SubnetId : string; subnet_Tags : option (list Tag) }.
Record Function := { FunctionArn : string; FunctionName : string }.
Record DBInstance := { DBInstanceArn : string; DBInstanceIdentifier : string }.
Record Bucket := { Name : string }.

(** The provider as one scan sees it.  Region-scoped calls take the region
    of the client they are made on.  The tag look-ups return the response's
    ['Tags'] dict, ['TagList'] or ['TagSet'] list, [None] when the response
    has no such key. *)
Record Provider := {
  Session : outcome unit;
  client : string → option string → outcome unit;
  describe_instances : string → outcome (list Reservation);
  describe_volumes : string → outcome (list Volume);
  describe_vpcs : string → outcome (list Vpc);
  describe_security_groups : string → outcome (list SecurityGroup);
  describe_subnets : string → outcome (list Subnet);
  list_functions : string → outcome (list Function);
  list_tags : string → string → outcome (option (gmap string string));
  describe_db_instances : string → outcome (list DBInstance);
  list_tags_for_resource : string → string → outcome (option (list Tag));
  list_buckets : outcome (list Bucket);
  get_bucket_tagging : string → outcome (option (list Tag))
}.

(** The resource kinds, and the text of each in a finding. *)
Inductive Kind :=
  | EC2Instance | EBSVolume | VPC | SecurityGroupKind | SubnetKind
  | LambdaFunction | RDSInstance | S3Bucket.

#[global] Instance Kind_eq_dec : EqDecision Kind.
Proof. solve_decision. Defined.

Definition kind_name (k : Kind) : string :=
  match k with
  | EC2Instance => "EC2 Instance"
  | EBSVolume => "EBS Volume"
  | VPC => "VPC"
  | SecurityGroupKind => "Security Group"
  | SubnetKind => "Subnet"
  | LambdaFunction => "Lambda Function"
  | RDSInstance => "RDS Instance"
  | S3Bucket => "S3 Bucket"
  end.

(** [[{'Key': k, 'Value': v} for k, v in d.items()]] *)
Definition tags_of_items (d : gmap string string) : list Tag :=
  map (λ kv, mk_tag kv.1 kv.2) (map_to_list d).

(** [[{'Key': tag['Key'], 'Value': tag['Value']} for tag in tag_set]]:
    raises [KeyError] at a record without one of the two fields. *)
Fixpoint copy_tag_set (tag_set : list Tag) : outcome (list Tag) :=
  match tag_set with
  | [] => Returned []
  | tag :: rest =>
      match tag !! "Key", tag !! "Value" with
      | Some k, Some v =>
          match copy_tag_set rest with
          | Returned tags => Returned (mk_tag k v :: tags)
          | Raised => Raised
          end
      | _, _ => Raised
      end
  end.

(** Truth value of a list: [if missing] holds for the non-empty ones. *)
Definition nonempty {A} (l : list A) : bool :=
  match l with [] => false | _ => true end.

(** ** The scan that writes the dataset
    ([specific_tags_are_not_set_aws_resources_per_region_excel.py]) *)

Module Excel.

(** A finding: the [dict] with the five columns of the dataset. *)
Record Finding := {
  Account : string;
  Region : string;
  Resource : string;
  ARN : string;
  Missing_Tags : string
}.

(** The dict literal of every [append]; [missing] is the list that is
    joined into the ['Missing_Tags'] cell. *)
Definition finding (account_id region resource arn : string) (missing : list string)
  : Finding :=
  {| Account := account_id; Region := region; Resource := resource; ARN := arn;
     Missing_Tags := PyStr.join ", " missing |}.

Section Region.
Variables (p : Provider) (region account_id : string) (required_tags : list string).

(** [missing = check_missing_tags(tags, required_tags)] followed by
    [if missing: resources.append({...})]. *)
Definition flag (resource arn : string) (tags : list Tag) : Scan Finding unit :=
  let missing := check_missing_tags (Some tags) required_tags in
  if nonempty missing
  then Scan.append (finding account_id region resource arn missing)
  else mret tt.

(** The [except] branch of a tag look-up. *)
Definition flag_all (resource arn : string) : Scan Finding unit :=
  Scan.append (finding account_id region resource arn required_tags).

(** [# EC2 Instances] (lines 29-42) *)
Definition ec2_instances : Scan Finding unit :=
  Scan.call (client p "ec2" (Some region));;
  instances ← Scan.call (describe_instances p region);
  Scan.for_each instances (λ reservation,
    Scan.for_each (Instances reservation) (λ instance,
      flag "EC2 Instance"
        ("arn:aws:ec2:" ++ region ++ ":" ++ account_id ++ ":instance/"
           ++ InstanceId instance)
        (default [] (instance_Tags instance)))).

(** [# EBS Volumes] (lines 44-55) *)
Definition ebs_volumes : Scan Finding unit :=
  volumes ← Scan.call (describe_volumes p region);
  Scan.for_each volumes (λ volume,
    flag "EBS Volume"
      ("arn:aws:ec2:" ++ region ++ ":" ++ account_id ++ ":volume/" ++ VolumeId volume)
      (default [] (volume_Tags volume))).

(** [# VPCs] (lines 57-68) *)
Definition vpcs : Scan Finding unit :=
  vpcs ← Scan.call (describe_vpcs p region);
  Scan.for_each vpcs (λ vpc,
    flag "VPC"
      ("arn:aws:ec2:" ++ region ++ ":" ++ account_id ++ ":vpc/" ++ VpcId vpc)
      (default [] (vpc_Tags vpc))).

(** [# Security Groups] (lines 70-81) *)
Definition security_groups : Scan Finding unit :=
  security_groups ← Scan.call (describe_security_groups p region);
  Scan.for_each security_groups (λ sg,
    flag "Security Group"
      ("arn:aws:ec2:" ++ region ++ ":" ++ account_id ++ ":security-group/"
         ++ GroupId sg)
      (default [] (sg_Tags sg))).

(** [# Subnets] (lines 83-94) *)
Definition subnets : Scan Finding unit :=
  subnets ← Scan.call (describe_subnets p region);
  Scan.for_each subnets (λ subnet,
    flag "Subnet"
      ("arn:aws:ec2:" ++ region ++ ":" ++ account_id ++ ":subnet/" ++ SubnetId subnet)
      (default [] (subnet_Tags subnet))).

(** The body of the loop over the functions (lines 100-119). *)
Definition lambda_function (function : Function) : Scan Finding unit :=
  Scan.try_except
    (tags_response ← Scan.call (list_tags p region (FunctionArn function));
     flag "Lambda Function" (FunctionArn function)
       (tags_of_items (default ∅ tags_response)))
    (flag_all "Lambda Function" (FunctionArn function)).

(** [# Lambda Functions] (lines 96-119) *)
Definition lambda_functions : Scan Finding unit :=
  Scan.call (client p "lambda" (Some region));;
  functions ← Scan.call (list_functions p region);
  Scan.for_each functions lambda_function.

(** The body of the loop over the database instances (lines 125-143). *)
Definition rds_instance (instance : DBInstance) : Scan Finding unit :=
  Scan.try_except
    (tags_response ← Scan.call (list_tags_for_resource p region (DBInstanceArn instance));
     flag "RDS Instance" (DBInstanceArn instance) (default [] tags_response))
    (flag_all "RDS Instance" (DBInstanceArn instance)).

(** [# RDS Instances] (lines 121-143) *)
Definition rds_instances : Scan Finding unit :=
  Scan.call (client p "rds" (Some region));;
  instances ← Scan.call (describe_db_instances p region);
  Scan.for_each instances rds_instance.

(** The body of the outer [try] (lines 27-143). *)
Definition scan_body : Scan Finding unit :=
  Scan.call (Session p);;
  ec2_instances;;
  ebs_volumes;;
  vpcs;;
  security_groups;;
  subnets;;
  lambda_functions;;
  rds_instances.

(** [get_resources_missing_tags_in_region(region, account_id, required_tags)]:
    [resources = []], the [try] with [except: pass], [return resources]. *)
Definition get_resources_missing_tags_in_region : list Finding :=
  (Scan.try_except scan_body Scan.pass []).2.

(** The block of a region-scoped kind, and the order of the blocks. *)
Definition block (k : Kind) : Scan Finding unit :=
  match k with
  | EC2Instance => ec2_instances
  | EBSVolume => ebs_volumes
  | VPC => vpcs
  | SecurityGroupKind => security_groups
  | SubnetKind => subnets
  | LambdaFunction => lambda_functions
  | RDSInstance => rds_instances
  | S3Bucket => Scan.pass
  end.

End Region.

Definition scan_order : list Kind :=
  [EC2Instance; EBSVolume; VPC; SecurityGroupKind; SubnetKind; LambdaFunction; RDSInstance].

Section Main.
Variables (p : Provider) (account_id : string) (required_tags : list string).

(** The body of the loop over the buckets (lines 177-196). *)
Definition s3_bucket (bucket : Bucket) : Scan Finding unit :=
  Scan.try_except
    (tags_response ← Scan.call (get_bucket_tagging p (Name bucket));
     tags ← Scan.call (copy_tag_set (default [] tags_response));
     flag "Global" account_id required_tags "S3 Bucket"
       ("arn:aws:s3:::" ++ Name bucket) tags)
    (flag_all "Global" account_id required_tags "S3 Bucket"
       ("arn:aws:s3:::" ++ Name bucket)).

(** [# S3 Buckets (global)] (lines 172-198), on [all_resources]. *)
Definition s3_buckets : Scan Finding unit :=
  Scan.try_except
    (Scan.call (client p "s3" None);;
     buckets ← Scan.call (list_buckets p);
     Scan.for_each buckets s3_bucket)
    Scan.pass.

(** [all_resources] of [main] before the export (lines 163-198): the
    results of the region futures are appended in the order
    [completed] in which they complete, then the bucket pass runs. *)
Definition all_resources (completed : list string) : list Finding :=
  (s3_buckets
     (flat_map (λ region,
        get_resources_missing_tags_in_region p region account_id required_tags)
        completed)).2.
End Main.

End Excel.


(** ** The scan that prints its findings
    ([specific_tags_are_not_set_aws_resources_per_region.py]) *)

Module Console.

(** The line of a finding:
    [f"{kind}: {name} (missing: {', '.join(missing)})"]. *)
Definition finding (kind name : string) (missing : list string) : string :=
  kind ++ ": " ++ name ++ " (missing: " ++ PyStr.join ", " missing ++ ")".

Section Region.
Variables (p : Provider) (region : string) (required_tags : list string).

(** [missing = check_missing_tags(tags, required_tags)] followed by
    [if missing: missing_tags_resources.append(f"...")]. *)
Definition flag (kind name : string) (tags : list Tag) : Scan string unit :=
  let missing := check_missing_tags (Some tags) required_tags in
  if nonempty missing
  then Scan.append (finding kind name missing)
  else mret tt.

(** The [except] branch of a tag look-up. *)
Definition flag_all (kind name : string) : Scan string unit :=
  Scan.append (finding kind name required_tags).

(** [# EC2 Instances] (lines 26-33) *)
Definition ec2_instances : Scan string unit :=
  Scan.call (client p "ec2" (Some region));;
  instances ← Scan.call (describe_instances p region);
  Scan.for_each instances (λ reservation,
    Scan.for_each (Instances reservation) (λ instance,
      flag "EC2 Instance" (InstanceId instance)
        (default [] (instance_Tags instance)))).

(** [# EBS Volumes] (lines 35-40) *)
Definition ebs_volumes : Scan string unit :=
  volumes ← Scan.call (describe_volumes p region);
  Scan.for_each volumes (λ volume,
    flag "EBS Volume" (VolumeId volume) (default [] (volume_Tags volume))).

(** The body of the loop over the functions (lines 46-53). *)
Definition lambda_function (function : Function) : Scan string unit :=
  Scan.try_except
    (tags_response ← Scan.call (list_tags p region (FunctionArn function));
     flag "Lambda Function" (FunctionName function)
       (tags_of_items (default ∅ tags_response)))
    (flag_all "Lambda Function" (FunctionName function)).

(** [# Lambda Functions] (lines 42-53) *)
Definition lambda_functions : Scan string unit :=
  Scan.call (client p "lambda" (Some region));;
  functions ← Scan.call (list_functions p region);
  Scan.for_each functions lambda_function.

(** The body of the loop over the database instances (lines 59-65). *)
Definition rds_instance (instance : DBInstance) : Scan string unit :=
  Scan.try_except
    (tags_response ← Scan.call (list_tags_for_resource p region (DBInstanceArn instance));
     flag "RDS Instance" (DBInstanceIdentifier instance) (default [] tags_response))
    (flag_all "RDS Instance" (DBInstanceIdentifier instance)).

(** [# RDS Instances] (lines 55-65) *)
Definition rds_instances : Scan string unit :=
  Scan.call (client p "rds" (Some region));;
  instances ← Scan.call (describe_db_instances p region);
  Scan.for_each instances rds_instance.

(** [# VPCs] (lines 67-72) *)
Definition vpcs : Scan string unit :=
  vpcs ← Scan.call (describe_vpcs p region);
  Scan.for_each vpcs (λ vpc,
    flag "VPC" (VpcId vpc) (default [] (vpc_Tags vpc))).

(** [# Security Groups] (lines 74-79) *)
Definition security_groups : Scan string unit :=
  security_groups ← Scan.call (describe_security_groups p region);
  Scan.for_each security_groups (λ sg,
    flag "Security Group" (GroupId sg) (default [] (sg_Tags sg))).

(** [# Subnets] (lines 81-86) *)
Definition subnets : Scan string unit :=
  subnets ← Scan.call (describe_subnets p region);
  Scan.for_each subnets (λ subnet,
    flag "Subnet" (SubnetId subnet) (default [] (subnet_Tags subnet))).

(** The body of the [try] (lines 24-86). *)
Definition scan_body : Scan string unit :=
  Scan.call (Session p);;
  ec2_instances;;
  ebs_volumes;;
  lambda_functions;;
  rds_instances;;
  vpcs;;
  security_groups;;
  subnets.

(** [get_resources_missing_tags_in_region(region, required_tags)]:
    returns the pair [region, missing_tags_resources]. *)
Definition get_resources_missing_tags_in_region : string * list string :=
  (region, (Scan.try_except scan_body Scan.pass []).2).

(** The block of a region-scoped kind. *)
Definition block (k : Kind) : Scan string unit :=
  match k with
  | EC2Instance => ec2_instances
  | EBSVolume => ebs_volumes
  | VPC => vpcs
  | SecurityGroupKind => security_groups
  | SubnetKind => subnets
  | LambdaFunction => lambda_functions
  | RDSInstance => rds_instances
  | S3Bucket => Scan.pass
  end.

End Region.

Definition scan_order : list Kind :=
  [EC2Instance; EBSVolume; LambdaFunction; RDSInstance; VPC; SecurityGroupKind; SubnetKind].

End Console.

(** ** Python's [csv] module, 'excel' dialect

    The writer and the reader with the default dialect: delimiter [,],
    the double quote as quote character, [doublequote], line terminator CR LF, minimal
    quoting, no escape character, not strict.  The reader is the state
    machine of the module (CPython 3.11 and later: every character other
    than the delimiter, the quote character, CR and LF is ordinary), with
    its limit on the size of a field. *)

Module Csv.

Definition DELIMITER : ascii := ","%char.
Definition QUOTECHAR : ascii := "034"%char.
Definition LINETERMINATOR : string :=
  String TextFile.CR (String TextFile.LF EmptyString).

(** *** The writer *)

(** A character that makes the writer quote the field. *)
Definition special (c : ascii) : bool :=
  Ascii.eqb c DELIMITER || Ascii.eqb c QUOTECHAR
  || Ascii.eqb c TextFile.CR || Ascii.eqb c TextFile.LF.

Fixpoint needs_quotes (field : string) : bool :=
  match field with
  | EmptyString => false
  | String c field' => special c || needs_quotes field'
  end.

(** The field with every quote character doubled. *)
Fixpoint doubled (field : string) : string :=
  match field with
  | EmptyString => EmptyString
  | String c field' =>
      if Ascii.eqb c QUOTECHAR
      then String QUOTECHAR (String QUOTECHAR (doubled field'))
      else String c (doubled field')
  end.

Definition write_field (field : string) : string :=
  if needs_quotes field
  then String QUOTECHAR (doubled field ++ String QUOTECHAR EmptyString)
  else field.

(** [writer.writerow(row)]: the text appended to the file.  A row of one
    empty field is written as two quote characters. *)
Definition writerow (row : list string) : string :=
  match row with
  | [EmptyString] => String QUOTECHAR (String QUOTECHAR LINETERMINATOR)
  | _ => PyStr.join (String DELIMITER EmptyString) (map write_field row)
         ++ LINETERMINATOR
  end.

(** [writer.writerows(rows)] *)
Definition writerows (rows : list (list string)) : string :=
  String.concat EmptyString (map writerow rows).

(** *** The reader *)

Inductive state :=
  | START_RECORD | START_FIELD | IN_FIELD | IN_QUOTED_FIELD
  | QUOTE_IN_QUOTED_FIELD | EAT_CRNL.

#[global] Instance state_eq_dec : EqDecision state.
Proof. solve_decision. Defined.

(** The parser: its state, the field being read and the fields of the
    record read so far. *)
Record parser := { st : state; field : string; fields : list string }.

(** [parse_reset] *)
Definition reset : parser := {| st := START_RECORD; field := ""; fields := [] |}.

(** [csv.field_size_limit()], the default of the module: the greatest
    number of characters of a field. *)
Definition field_size_limit : N := 131072.

(** [parse_add_char]: it raises ([_csv.Error], field larger than field
    limit) when the field has reached the limit. *)
Definition add_char (p : parser) (c : ascii) (s : state) : outcome parser :=
  if (field_size_limit <=? N.of_nat (String.length (field p)))%N then Raised
  else Returned {| st := s; field := field p ++ String c EmptyString;
                   fields := fields p |}.

(** [parse_save_field] *)
Definition save_field (p : parser) (s : state) : parser :=
  {| st := s; field := ""; fields := fields p ++ [field p] |}.

Definition goto (p : parser) (s : state) : parser :=
  {| st := s; field := field p; fields := fields p |}.

Definition is_newline (c : ascii) : bool :=
  Ascii.eqb c TextFile.LF || Ascii.eqb c TextFile.CR.

(** [parse_process_char] in the states [START_FIELD] and, after the
    fall-through, [START_RECORD]; [None] is the end-of-line mark. *)
Definition start_field (p : parser) (c : option ascii) : outcome parser :=
  match c with
  | None => Returned (save_field p START_RECORD)
  | Some c =>
      if is_newline c then Returned (save_field p EAT_CRNL)
      else if Ascii.eqb c QUOTECHAR then Returned (goto p IN_QUOTED_FIELD)
      else if Ascii.eqb c DELIMITER then Returned (save_field p START_FIELD)
      else add_char p c IN_FIELD
  end.

(** [parse_process_char]; it raises when a character is added to a field
    that has reached the limit, and on a character other than a line end
    after the line end of an unquoted field. *)
Definition process_char (p : parser) (c : option ascii) : outcome parser :=
  match st p with
  | START_RECORD =>
      match c with
      | None => Returned p
      | Some c' =>
          if is_newline c' then Returned (goto p EAT_CRNL)
          else start_field p c
      end
  | START_FIELD => start_field p c
  | IN_FIELD =>
      match c with
      | None => Returned (save_field p START_RECORD)
      | Some c =>
          if is_newline c then Returned (save_field p EAT_CRNL)
          else if Ascii.eqb c DELIMITER then Returned (save_field p START_FIELD)
          else add_char p c IN_FIELD
      end
  | IN_QUOTED_FIELD =>
      match c with
      | None => Returned p
      | Some c =>
          if Ascii.eqb c QUOTECHAR then Returned (goto p QUOTE_IN_QUOTED_FIELD)
          else add_char p c IN_QUOTED_FIELD
      end
  | QUOTE_IN_QUOTED_FIELD =>
      match c with
      | None => Returned (save_field p START_RECORD)
      | Some c =>
          if Ascii.eqb c QUOTECHAR then add_char p c IN_QUOTED_FIELD
          else if Ascii.eqb c DELIMITER then Returned (save_field p START_FIELD)
          else if is_newline c then Returned (save_field p EAT_CRNL)
          else add_char p c IN_FIELD
      end
  | EAT_CRNL =>
      match c with
      | None => Returned (goto p START_RECORD)
      | Some c => if is_newline c then Returned p else Raised
      end
  end.

(** The characters of one line, then the end-of-line mark. *)
Fixpoint process_line (p : parser) (line : string) : outcome parser :=
  match line with
  | EmptyString => process_char p None
  | String c line' =>
      match process_char p (Some c) with
      | Returned p' => process_line p' line'
      | Raised => Raised
      end
  end.

(** The rows the reader yields over the lines of its input.  A row is
    complete when a line ends in [START_RECORD]; at the end of the input a
    pending field closes the last row. *)
Fixpoint reader_from (p : parser) (lines : list string) : outcome (list (list string)) :=
  match lines with
  | [] =>
      if PyStr.truthy (field p) || bool_decide (st p = IN_QUOTED_FIELD)
      then Returned [fields p ++ [field p]]
      else Returned []
  | line :: lines' =>
      match process_line p line with
      | Raised => Raised
      | Returned p' =>
          if decide (st p' = START_RECORD) then
            match reader_from reset lines' with
            | Returned rows => Returned (fields p' :: rows)
            | Raised => Raised
            end
          else reader_from p' lines'
      end
  end.

(** [list(csv.reader(lines))] *)
Definition reader (lines : list string) : outcome (list (list string)) :=
  reader_from reset lines.

(** *** [DictWriter] and [DictReader] *)

(** A row of [DictReader]: [dict(zip(fieldnames, row))], with the field
    names left without a cell (they are given [None]) or the cells left
    without a name (they are put under the key [None]). *)
Inductive dict_row :=
  | Exact (cells : list (string * string))
  | Short (cells : list (string * string)) (unset : list string)
  | Long (cells : list (string * string)) (rest : list string).

Definition to_dict (fieldnames row : list string) : dict_row :=
  let cells := zip fieldnames row in
  if decide (length fieldnames < length row)
  then Long cells (drop (length fieldnames) row)
  else if decide (length row < length fieldnames)
  then Short cells (drop (length row) fieldnames)
  else Exact cells.

(** [list(csv.DictReader(lines))]: the first row gives the field names,
    empty rows are skipped. *)
Definition DictReader (lines : list string) : outcome (list dict_row) :=
  match reader lines with
  | Raised => Raised
  | Returned [] => Returned []
  | Returned (fieldnames :: rows) =>
      Returned (map (to_dict fieldnames) (filter (λ row, row ≠ []) rows))
  end.

End Csv.

(** ** The export of [main] (lines 205-214) *)
Module Dataset.

Definition fieldnames : list string :=
  ["Account"; "Region"; "Resource"; "ARN"; "Missing_Tags"].

(** [rowdict.get(key)] for the keys of [fieldnames], in their order. *)
Definition cells (f : Excel.Finding) : list string :=
  [Excel.Account f; Excel.Region f; Excel.Resource f; Excel.ARN f;
   Excel.Missing_Tags f].

(** The text of the file written by [main], [None] when no file is
    written: [if all_resources:] the header, then one row per finding. *)
Definition export (all_resources : list Excel.Finding) : option string :=
  if nonempty all_resources
  then Some (Csv.writerow fieldnames ++ Csv.writerows (map cells all_resources))%string
  else None.

End Dataset.

(** ** The report over the dataset
    ([specific_tags_are_not_set_aws_resources_advanced_analysis.py]) *)

Module Analysis.

(** A row of the dataset as [csv.DictReader] gives it for the header
    [Account,Region,Resource,ARN,Missing_Tags]: the five cells. *)
Abbreviation Row := Excel.Finding.

(** A [Counter]: a [dict] from keys to counts; its items are kept in the
    order in which the keys were first inserted. *)
Abbreviation counter := (list (string * nat)).

(** [resources = list(csv.DictReader(csvfile))] on a file opened with
    [open(filename, 'r')] (lines 10-12). *)
Definition read (content : string) : outcome (list Csv.dict_row) :=
  Csv.DictReader (TextFile.iter content).

(** [c[k] += 1] *)
Fixpoint incr (k : string) (c : counter) : counter :=
  match c with
  | [] => [(k, 1)]
  | (k', n) :: c' =>
      if decide (k = k') then (k', S n) :: c' else (k', n) :: incr k c'
  end.

(** [Counter(xs)] *)
Definition Counter (xs : list string) : counter :=
  fold_left (λ c k, incr k c) xs [].

(** Insertion of an item in front of the first item whose count is not
    greater. *)
Fixpoint insert_desc (x : string * nat) (l : counter) : counter :=
  match l with
  | [] => [x]
  | y :: l' => if Nat.leb y.2 x.2 then x :: y :: l' else y :: insert_desc x l'
  end.

(** [c.most_common()], which is
    [sorted(c.items(), key=itemgetter(1), reverse=True)]: a stable sort,
    greatest count first, items of equal count left in their order. *)
Definition most_common (c : counter) : counter := foldr insert_desc [] c.

(** The table printed under "Resources by type" (lines 23-27). *)
Definition resources_by_type (resources : list Row) : counter :=
  most_common (Counter (map Excel.Resource resources)).

(** The table printed under "Resources by region" (lines 29-33). *)
Definition resources_by_region (resources : list Row) : counter :=
  most_common (Counter (map Excel.Region resources)).

(** [[tag.strip() for tag in row['Missing_Tags'].split(',')]] (line 39) *)
Definition missing_tags_of (row : Row) : list string :=
  map PyStr.strip (PyStr.split "," (Excel.Missing_Tags row)).

(** The table printed under "Most commonly missing tags" (lines 36-45). *)
Definition missing_tag_counts (resources : list Row) : counter :=
  most_common (Counter (flat_map missing_tags_of resources)).

End Analysis.

(** The distinct elements of a list in the order of their first
    occurrence. *)
Fixpoint first_seen (xs : list string) : list string :=
  match xs with
  | [] => []
  | x :: xs' => x :: filter (λ y, y ≠ x) (first_seen xs')
  end.

(** The number of occurrences of [k] in [xs]. *)
Definition occurrences (k : string) (xs : list string) : nat :=
  length (filter (λ x, x = k) xs).

(** Greatest count first. *)
Definition count_desc (a b : string * nat) : Prop := (b.2 ≤ a.2)%nat.

(** [k1] occurs in [xs], and neither [k1] nor [k2] occurs before the first
    occurrence of [k1]. *)
Definition first_seen_before (k1 k2 : string) (xs : list string) : Prop :=
  ∃ pre post, xs = app pre (k1 :: post) ∧ (k1 ∉ pre) ∧ (k2 ∉ pre).

Module AnalysisExamples.
Definition row (region kind arn : string) : Analysis.Row :=
  Excel.finding "123" region kind arn ["Owner"].

(** Two VPCs and three instances, a VPC first. *)
Definition dataset : list Analysis.Row :=
  [ row "us-east-1" "VPC" "arn:aws:ec2:us-east-1:123:vpc/vpc-1";
    row "us-east-1" "EC2 Instance" "arn:aws:ec2:us-east-1:123:instance/i-1";
    row "us-east-1" "EC2 Instance" "arn:aws:ec2:us-east-1:123:instance/i-2";
    row "eu-west-1" "VPC" "arn:aws:ec2:eu-west-1:123:vpc/vpc-2";
    row "eu-west-1" "EC2 Instance" "arn:aws:ec2:eu-west-1:123:instance/i-3" ].
End AnalysisExamples.

(** ** Descriptions used by the statements *)

(** What a block does when it runs on its own, from the empty list. *)
Definition returns {F} (b : Scan F unit) : Prop := (b []).1 = Returned tt.
Definition raises {F} (b : Scan F unit) : Prop := (b []).1 = Raised.
Definition findings_of {F} (b : Scan F unit) : list F := (b []).2.

(** A block only appends: from any list it ends as it does from the empty
    one, with its findings after the ones already there. *)
Definition appends_only {F A} (b : Scan F A) : Prop :=
  ∀ acc, b acc = ((b []).1, acc ++ (b []).2).

(** Per-kind isolation within one region, as a property of a scan with the
    blocks [block] run in the order [order] and the result [result]: when
    the block of one kind raises, every finding of every other kind whose
    own block returns is in the result. *)
Definition kinds_isolated {F} (block : Kind → Scan F unit) (order : list Kind)
    (result : list F) : Prop :=
  ∀ k k', k ∈ order → k' ∈ order → k' ≠ k →
    raises (block k) → returns (block k') →
    ∀ f, f ∈ findings_of (block k') → f ∈ result.

(** The findings on the list when the blocks [bs] have run one after the
    other from the empty list, up to and including the first that raises. *)
Fixpoint accumulated {F} (bs : list (Scan F unit)) : list F :=
  match bs with
  | [] => []
  | b :: bs' =>
      match (b []).1 with
      | Returned _ => findings_of b ++ accumulated bs'
      | Raised => findings_of b
      end
  end.

(** A scan stops at the first kind whose block raises: with the order split
    as [pre ++ k :: post], the blocks of [pre] returning and the block of
    [k] raising, the result is the findings of [pre], in order. *)
Definition stops_at_first_failure {F} (block : Kind → Scan F unit) (order : list Kind)
    (result : list F) : Prop :=
  ∀ pre k post, order = pre ++ k :: post →
    (∀ k', k' ∈ pre → returns (block k')) → raises (block k) →
    result = flat_map (λ k', findings_of (block k')) pre.

(** The calls the block of a kind makes before its loop: the making of its
    client, for the kinds with a client of their own, and its listing
    call.  They return: *)
Definition calls_return (p : Provider) (region : string) (k : Kind) : Prop :=
  match k with
  | EC2Instance =>
      client p "ec2" (Some region) = Returned tt
      ∧ ∃ reservations, describe_instances p region = Returned reservations
  | EBSVolume => ∃ volumes, describe_volumes p region = Returned volumes
  | VPC => ∃ vpcs, describe_vpcs p region = Returned vpcs
  | SecurityGroupKind => ∃ sgs, describe_security_groups p region = Returned sgs
  | SubnetKind => ∃ subnets, describe_subnets p region = Returned subnets
  | LambdaFunction =>
      client p "lambda" (Some region) = Returned tt
      ∧ ∃ functions, list_functions p region = Returned functions
  | RDSInstance =>
      client p "rds" (Some region) = Returned tt
      ∧ ∃ instances, describe_db_instances p region = Returned instances
  | S3Bucket => True
  end.

(** One of them raises. *)
Definition call_fails (p : Provider) (region : string) (k : Kind) : Prop :=
  match k with
  | EC2Instance =>
      client p "ec2" (Some region) = Raised ∨ describe_instances p region = Raised
  | EBSVolume => describe_volumes p region = Raised
  | VPC => describe_vpcs p region = Raised
  | SecurityGroupKind => describe_security_groups p region = Raised
  | SubnetKind => describe_subnets p region = Raised
  | LambdaFunction =>
      client p "lambda" (Some region) = Raised ∨ list_functions p region = Raised
  | RDSInstance =>
      client p "rds" (Some region) = Raised ∨ describe_db_instances p region = Raised
  | S3Bucket => False
  end.

(** The resources whose tags come from a look-up of their own. *)
Inductive Lookup :=
  | LambdaTags (function : Function)
  | RDSTags (instance : DBInstance)
  | BucketTags (bucket : Bucket).

Section Lookups.
Variables (p : Provider) (region account_id : string) (required_tags : list string).

(** The look-up call of the resource raises. *)
Definition lookup_raises (l : Lookup) : Prop :=
  match l with
  | LambdaTags function => list_tags p region (FunctionArn function) = Raised
  | RDSTags instance => list_tags_for_resource p region (DBInstanceArn instance) = Raised
  | BucketTags bucket => get_bucket_tagging p (Name bucket) = Raised
  end.

(** The loop body that handles the resource. *)
Definition lookup_body (l : Lookup) : Scan Excel.Finding unit :=
  match l with
  | LambdaTags function => Excel.lambda_function p region account_id required_tags function
  | RDSTags instance => Excel.rds_instance p region account_id required_tags instance
  | BucketTags bucket => Excel.s3_bucket p account_id required_tags bucket
  end.

(** The finding of the resource with the whole required list. *)
Definition worst_case (l : Lookup) : Excel.Finding :=
  match l with
  | LambdaTags function =>
      Excel.finding account_id region "Lambda Function" (FunctionArn function)
        required_tags
  | RDSTags instance =>
      Excel.finding account_id region "RDS Instance" (DBInstanceArn instance)
        required_tags
  | BucketTags bucket =>
      Excel.finding account_id "Global" "S3 Bucket" ("arn:aws:s3:::" ++ Name bucket)
        required_tags
  end.

(** The scan reaches the loop over the resource's listing and the
    resource is in that listing. *)
Definition listed (l : Lookup) : Prop :=
  match l with
  | LambdaTags function =>
      Session p = Returned tt
      ∧ (∀ k, k ∈ [EC2Instance; EBSVolume; VPC; SecurityGroupKind; SubnetKind] →
           returns (Excel.block p region account_id required_tags k))
      ∧ client p "lambda" (Some region) = Returned tt
      ∧ ∃ functions, list_functions p region = Returned functions ∧ function ∈ functions
  | RDSTags instance =>
      Session p = Returned tt
      ∧ (∀ k, k ∈ [EC2Instance; EBSVolume; VPC; SecurityGroupKind; SubnetKind;
                    LambdaFunction] →
           returns (Excel.block p region account_id required_tags k))
      ∧ client p "rds" (Some region) = Returned tt
      ∧ ∃ instances, describe_db_instances p region = Returned instances
                     ∧ instance ∈ instances
  | BucketTags bucket =>
      client p "s3" None = Returned tt
      ∧ ∃ buckets, list_buckets p = Returned buckets ∧ bucket ∈ buckets
  end.

(** The region of the resource is one of the scanned ones (a bucket has
    no region). *)
Definition in_scope (completed : list string) (l : Lookup) : Prop :=
  match l with
  | BucketTags _ => True
  | _ => region ∈ completed
  end.
End Lookups.

(** A finding whose ['Missing_Tags'] cell is the join of a non-empty
    sequence of required names, in the order of the required list. *)
Definition has_missing_tags (required_tags : list string) (f : Excel.Finding) : Prop :=
  ∃ missing, missing ≠ [] ∧ sublist missing required_tags
             ∧ Excel.Missing_Tags f = PyStr.join ", " missing.

(** ** The dataset round trip *)

(** A finding with its sequence of missing tag names, before it is put in
    a row. *)
Record Report := {
  account_id : string;
  region : string;
  resource_kind : string;
  resource_reference : string;
  missing_tags : list string
}.

(** The row [main] appends for it. *)
Definition row_of (r : Report) : Excel.Finding :=
  Excel.finding (account_id r) (region r) (resource_kind r) (resource_reference r)
    (missing_tags r).

(** The row as [DictReader] gives it back when nothing is lost. *)
Definition dict_of (f : Excel.Finding) : Csv.dict_row :=
  Csv.Exact (zip Dataset.fieldnames (Dataset.cells f)).

(** Writing the findings and reading the file back gives the same rows,
    and splitting each ['Missing_Tags'] cell on [", "] gives back the
    sequence of tag names of its finding.  For the empty collection no file
    is written. *)
Definition round_trip (reports : list Report) : Prop :=
  match Dataset.export (map row_of reports) with
  | Some content => Analysis.read content = Returned (map dict_of (map row_of reports))
  | None => reports = []
  end
  ∧ Forall (λ r, PyStr.split ", " (Excel.Missing_Tags (row_of r)) = missing_tags r)
      reports.

(** No carriage return in the string. *)
Fixpoint no_cr (s : string) : bool :=
  match s with
  | EmptyString => true
  | String c s' => negb (Ascii.eqb c TextFile.CR) && no_cr s'
  end.

(** A comma followed by a space occurs in the string. *)
Fixpoint has_comma_space (s : string) : bool :=
  match s with
  | EmptyString => false
  | String c s' =>
      (Ascii.eqb c "," && match s' with String " " _ => true | _ => false end)
      || has_comma_space s'
  end.

(** The cell has no more characters than the reader accepts in a field. *)
Definition within_limit (cell : string) : bool :=
  (N.of_nat (String.length cell) <=? Csv.field_size_limit)%N.

(** The cells that are read back as they were written: without a carriage
    return, and within the limit of the reader. *)
Definition storable (cell : string) : bool := no_cr cell && within_limit cell.

(** The sequences of missing tags that the split gives back: not empty,
    and no tag name has a comma followed by a space in it. *)
Definition separable (missing : list string) : bool :=
  nonempty missing && forallb (λ tag, negb (has_comma_space tag)) missing.

(** The findings for which the round trip holds: every cell of the row is
    read back as written, and the split gives back the missing tags. *)
Definition portable (r : Report) : bool :=
  forallb storable (Dataset.cells (row_of r)) && separable (missing_tags r).

(** The cells of a row of [DictReader]. *)
Definition dict_cells (d : Csv.dict_row) : list string :=
  match d with
  | Csv.Exact cells => cells.*2
  | Csv.Short cells _ => cells.*2
  | Csv.Long cells rest => cells.*2 ++ rest
  end.

(** The field being read and the fields read are within the limit. *)
Definition bounded (p : Csv.parser) : Prop :=
  within_limit (Csv.field p) = true
  ∧ Forall (λ cell, within_limit cell = true) (Csv.fields p).

(** The reader over a text taken character by character: a line ends, and
    the end-of-line mark is processed, after each LF. *)
Fixpoint run (p : Csv.parser) (s : string) : outcome (list (list string)) :=
  match s with
  | EmptyString => Csv.reader_from p []
  | String c s' =>
      match Csv.process_char p (Some c) with
      | Raised => Raised
      | Returned p1 =>
          if Ascii.eqb c TextFile.LF then
            match Csv.process_char p1 None with
            | Raised => Raised
            | Returned p2 =>
                if decide (Csv.st p2 = Csv.START_RECORD) then
                  match run Csv.reset s' with
                  | Returned rows => Returned (Csv.fields p2 :: rows)
                  | Raised => Raised
                  end
                else run p2 s'
            end
          else run p1 s'
      end
  end.

(** The text is empty or ends with LF. *)
Fixpoint ends_lf (s : string) : bool :=
  match s with
  | EmptyString => true
  | String c EmptyString => Ascii.eqb c TextFile.LF
  | String _ s' => ends_lf s'
  end.

(** The line of a row as the writer makes it, without its terminator. *)
Definition line_of (row : list string) : string :=
  match row with
  | [EmptyString] => String Csv.QUOTECHAR (String Csv.QUOTECHAR EmptyString)
  | _ => PyStr.join (String Csv.DELIMITER EmptyString) (map Csv.write_field row)
  end.

(** The state of the reader after the text of a field read from the state
    [s0]. *)
Definition after (f : string) (s0 : Csv.state) : Csv.state :=
  if Csv.needs_quotes f then Csv.QUOTE_IN_QUOTED_FIELD
  else match f with EmptyString => s0 | _ => Csv.IN_FIELD end.

(** The states in which a delimiter or a line end closes a field. *)
Definition closes (s : Csv.state) : Prop :=
  s = Csv.START_FIELD ∨ s = Csv.IN_FIELD ∨ s = Csv.QUOTE_IN_QUOTED_FIELD.

Module DatasetExamples.
(** A required tag name with a comma and a space in it. *)
Definition comma_in_name : Report :=
  {| account_id := "123"; region := "us-east-1"; resource_kind := "VPC";
     resource_reference := "arn:aws:ec2:us-east-1:123:vpc/vpc-1";
     missing_tags := ["Owner, Team"] |}.

(** A finding of a tag look-up that raised in a run with no required
    tag. *)
Definition nothing_required : Report :=
  {| account_id := "123"; region := "Global"; resource_kind := "S3 Bucket";
     resource_reference := "arn:aws:s3:::b";
     missing_tags := [] |}.

(** A cell with a carriage return. *)
Definition carriage_return : Report :=
  {| account_id := "123"; region := "Global"; resource_kind := "S3 Bucket";
     resource_reference := "arn:aws:s3:::b";
     missing_tags := [String "a" (String TextFile.CR "b")] |}.

Definition two_tags : Report :=
  {| account_id := "123"; region := "us-east-1"; resource_kind := "EC2 Instance";
     resource_reference := "arn:aws:ec2:us-east-1:123:instance/i-1";
     missing_tags := ["Environment"; "Owner"] |}.

(** A tag name of [n] characters. *)
Fixpoint name_of_length (n : nat) : string :=
  match n with
  | O => EmptyString
  | S n' => String "a" (name_of_length n')
  end.

(** A finding whose missing tag has one character more than the reader
    accepts in a field. *)
Definition long_name : string := name_of_length (N.to_nat (Csv.field_size_limit + 1)).
Definition over_limit : Report :=
  {| account_id := "123"; region := "us-east-1"; resource_kind := "VPC";
     resource_reference := "arn:aws:ec2:us-east-1:123:vpc/vpc-1";
     missing_tags := [long_name] |}.
End DatasetExamples.

(** ** Providers used as examples *)

Module Examples.

Definition owned_instance : Instance :=
  {| InstanceId := "i-1"; instance_Tags := Some [mk_tag "Owner" "a"] |}.
Definition untagged_vpc : Vpc := {| VpcId := "vpc-1"; vpc_Tags := None |}.
Definition a_function : Function :=
  {| FunctionArn := "arn:aws:lambda:us-east-1:123:function:f"; FunctionName := "f" |}.
Definition a_database : DBInstance :=
  {| DBInstanceArn := "arn:aws:rds:us-east-1:123:db:d"; DBInstanceIdentifier := "d" |}.
Definition a_bucket : Bucket := {| Name := "b" |}.

(** One instance tagged [Owner], one untagged VPC; the volume listing
    raises. *)
Definition volumes_down : Provider := {|
  Session := Returned tt;
  client := λ _ _, Returned tt;
  describe_instances := λ _, Returned [ {| Instances := [owned_instance] |} ];
  describe_volumes := λ _, Raised;
  describe_vpcs := λ _, Returned [untagged_vpc];
  describe_security_groups := λ _, Returned [];
  describe_subnets := λ _, Returned [];
  list_functions := λ _, Returned [];
  list_tags := λ _ _, Returned None;
  describe_db_instances := λ _, Returned [];
  list_tags_for_resource := λ _ _, Returned None;
  list_buckets := Returned [];
  get_bucket_tagging := λ _, Returned None
|}.

(** The first call on the region's client raises. *)
Definition region_down : Provider := {|
  Session := Returned tt;
  client := λ _ _, Returned tt;
  describe_instances := λ _, Raised;
  describe_volumes := λ _, Raised;
  describe_vpcs := λ _, Raised;
  describe_security_groups := λ _, Raised;
  describe_subnets := λ _, Raised;
  list_functions := λ _, Raised;
  list_tags := λ _ _, Raised;
  describe_db_instances := λ _, Raised;
  list_tags_for_resource := λ _ _, Raised;
  list_buckets := Returned [];
  get_bucket_tagging := λ _, Raised
|}.

(** One function, one database and one bucket; every tag look-up raises. *)
Definition lookups_down : Provider := {|
  Session := Returned tt;
  client := λ _ _, Returned tt;
  describe_instances := λ _, Returned [];
  describe_volumes := λ _, Returned [];
  describe_vpcs := λ _, Returned [];
  describe_security_groups := λ _, Returned [];
  describe_subnets := λ _, Returned [];
  list_functions := λ _, Returned [a_function];
  list_tags := λ _ _, Raised;
  describe_db_instances := λ _, Returned [a_database];
  list_tags_for_resource := λ _ _, Raised;
  list_buckets := Returned [a_bucket];
  get_bucket_tagging := λ _, Raised
|}.

End Examples.

(** A block keeps a property of the findings on the list. *)
Definition preserves {F A} (P : F → Prop) (b : Scan F A) : Prop :=
  ∀ acc, Forall P acc → Forall P (b acc).2.

(** ** Descriptions used by the further properties *)

(** No line feed in the string. *)
Fixpoint no_lf (s : string) : bool :=
  match s with
  | EmptyString => true
  | String c s' => negb (Ascii.eqb c TextFile.LF) && no_lf s'
  end.

(** A line feed occurs in the string at its last place only. *)
Fixpoint lf_only_last (s : string) : bool :=
  match s with
  | EmptyString => true
  | String c EmptyString => true
  | String c s' => negb (Ascii.eqb c TextFile.LF) && lf_only_last s'
  end.

(** A tag name as a line of the configuration file holds it: not empty,
    without white space at its ends, without a line break. *)
Definition clean_name (name : string) : bool :=
  PyStr.truthy name && String.eqb (PyStr.strip name) name
  && no_cr name && no_lf name.

(** The configuration file with one name per line, each line ended by
    [eol]. *)
Definition config_text (eol : string) (names : list string) : string :=
  String.concat "" (map (λ name, name ++ eol)%string names).

Module ConfigExamples.
Definition names : list string := ["Environment"; "Cost Center"; "Owner"].

(** A file with white space around the names, a CR LF and a blank line. *)
Definition untidy : string :=
  (" Owner" ++ Csv.LINETERMINATOR ++ String TextFile.LF " Cost Center  ")%string.
End ConfigExamples.

(** A call returned. *)
Definition returned {A} (o : outcome A) : bool :=
  match o with Returned _ => true | Raised => false end.

(** Every call of a region scan returns, the tag look-ups apart. *)
Definition healthy (p : Provider) (region : string) : bool :=
  returned (Session p)
  && returned (client p "ec2" (Some region))
  && returned (describe_instances p region)
  && returned (describe_volumes p region)
  && returned (describe_vpcs p region)
  && returned (describe_security_groups p region)
  && returned (describe_subnets p region)
  && returned (client p "lambda" (Some region))
  && returned (list_functions p region)
  && returned (client p "rds" (Some region))
  && returned (describe_db_instances p region).

(** What the scan reports of each resource, as lists: no finding or one. *)
Module Reported.
Section Region.
Variables (p : Provider) (region account_id : string) (required_tags : list string).

(** The finding of a resource with these tags, if a required tag is
    missing. *)
Definition flagged (resource arn : string) (tags : list Tag) : list Excel.Finding :=
  let missing := check_missing_tags (Some tags) required_tags in
  if nonempty missing
  then [Excel.finding account_id region resource arn missing]
  else [].

Definition ec2_arn (path id : string) : string :=
  "arn:aws:ec2:" ++ region ++ ":" ++ account_id ++ path ++ id.

Definition of_instance (instance : Instance) : list Excel.Finding :=
  flagged "EC2 Instance" (ec2_arn ":instance/" (InstanceId instance))
    (default [] (instance_Tags instance)).

Definition of_volume (volume : Volume) : list Excel.Finding :=
  flagged "EBS Volume" (ec2_arn ":volume/" (VolumeId volume))
    (default [] (volume_Tags volume)).

Definition of_vpc (vpc : Vpc) : list Excel.Finding :=
  flagged "VPC" (ec2_arn ":vpc/" (VpcId vpc)) (default [] (vpc_Tags vpc)).

Definition of_security_group (sg : SecurityGroup) : list Excel.Finding :=
  flagged "Security Group" (ec2_arn ":security-group/" (GroupId sg))
    (default [] (sg_Tags sg)).

Definition of_subnet (subnet : Subnet) : list Excel.Finding :=
  flagged "Subnet" (ec2_arn ":subnet/" (SubnetId subnet))
    (default [] (subnet_Tags subnet)).

Definition of_function (function : Function) : list Excel.Finding :=
  match list_tags p region (FunctionArn function) with
  | Returned tags_response =>
      flagged "Lambda Function" (FunctionArn function)
        (tags_of_items (default ∅ tags_response))
  | Raised =>
      [worst_case region account_id required_tags (LambdaTags function)]
  end.

Definition of_database (instance : DBInstance) : list Excel.Finding :=
  match list_tags_for_resource p region (DBInstanceArn instance) with
  | Returned tags_response =>
      flagged "RDS Instance" (DBInstanceArn instance) (default [] tags_response)
  | Raised =>
      [worst_case region account_id required_tags (RDSTags instance)]
  end.

(** The findings of a listing, none when the listing raised. *)
Definition of_listing {A} (listing : outcome (list A)) (report : A → list Excel.Finding)
  : list Excel.Finding :=
  match listing with
  | Returned resources => flat_map report resources
  | Raised => []
  end.

(** The findings of a listing made on a client of its own. *)
Definition of_client {A} (service : string) (listing : outcome (list A))
    (report : A → list Excel.Finding) : list Excel.Finding :=
  match client p service (Some region) with
  | Returned _ => of_listing listing report
  | Raised => []
  end.

(** What a region-scoped kind reports when the scan gets to it. *)
Definition of_kind (k : Kind) : list Excel.Finding :=
  match k with
  | EC2Instance =>
      of_client "ec2" (describe_instances p region)
        (λ reservation, flat_map of_instance (Instances reservation))
  | EBSVolume => of_listing (describe_volumes p region) of_volume
  | VPC => of_listing (describe_vpcs p region) of_vpc
  | SecurityGroupKind => of_listing (describe_security_groups p region) of_security_group
  | SubnetKind => of_listing (describe_subnets p region) of_subnet
  | LambdaFunction => of_client "lambda" (list_functions p region) of_function
  | RDSInstance => of_client "rds" (describe_db_instances p region) of_database
  | S3Bucket => []
  end.

(** The identifiers of the listed resources of a kind. *)
Definition ids (k : Kind) : list string :=
  match k with
  | EC2Instance =>
      match describe_instances p region with
      | Returned reservations => map InstanceId (flat_map Instances reservations)
      | Raised => []
      end
  | EBSVolume =>
      match describe_volumes p region with
      | Returned volumes => map VolumeId volumes
      | Raised => []
      end
  | VPC =>
      match describe_vpcs p region with
      | Returned vpcs => map VpcId vpcs
      | Raised => []
      end
  | SecurityGroupKind =>
      match describe_security_groups p region with
      | Returned sgs => map GroupId sgs
      | Raised => []
      end
  | SubnetKind =>
      match describe_subnets p region with
      | Returned subnets => map SubnetId subnets
      | Raised => []
      end
  | LambdaFunction =>
      match list_functions p region with
      | Returned functions => map FunctionArn functions
      | Raised => []
      end
  | RDSInstance =>
      match describe_db_instances p region with
      | Returned instances => map DBInstanceArn instances
      | Raised => []
      end
  | S3Bucket => []
  end.
End Region.

Section Global.
Variables (p : Provider) (account_id : string) (required_tags : list string).

Definition of_bucket (bucket : Bucket) : list Excel.Finding :=
  match get_bucket_tagging p (Name bucket) with
  | Returned tags_response =>
      match copy_tag_set (default [] tags_response) with
      | Returned tags =>
          flagged "Global" account_id required_tags "S3 Bucket"
            ("arn:aws:s3:::" ++ Name bucket) tags
      | Raised => [worst_case "Global" account_id required_tags (BucketTags bucket)]
      end
  | Raised => [worst_case "Global" account_id required_tags (BucketTags bucket)]
  end.

(** What the bucket pass reports, nothing when the client or the listing
    raised. *)
Definition of_buckets : list Excel.Finding :=
  match client p "s3" None, list_buckets p with
  | Returned _, Returned buckets => flat_map of_bucket buckets
  | _, _ => []
  end.

Definition bucket_names : list string :=
  match list_buckets p with
  | Returned buckets => map Name buckets
  | Raised => []
  end.

(** The output of a run in which every call of every region returns. *)
Definition of_run (completed : list string) : list Excel.Finding :=
  flat_map (λ region,
    flat_map (of_kind p region account_id required_tags) Excel.scan_order) completed
  ++ of_buckets.
End Global.
End Reported.

(** The account, the region and the kind a finding of a run carries. *)
Definition well_labelled (account_id : string) (completed : list string)
    (f : Excel.Finding) : Prop :=
  Excel.Account f = account_id
  ∧ ((Excel.Region f ∈ completed
      ∧ Excel.Resource f ∈ map kind_name Excel.scan_order)
     ∨ (Excel.Region f = "Global" ∧ Excel.Resource f = "S3 Bucket")).

(** A tag record of a bucket without one of its two fields. *)
Definition malformed (tag : Tag) : Prop :=
  tag !! "Key" = None ∨ tag !! "Value" = None.

(** The region, the kind and the reference of a finding. *)
Definition triple (f : Excel.Finding) : string * string * string :=
  (Excel.Region f, Excel.Resource f, Excel.ARN f).

(** Two blocks agree: from lists of one length they end in the same way
    with lists of one length. *)
Definition agree {F G A} (b1 : Scan F A) (b2 : Scan G A) : Prop :=
  ∀ acc1 acc2, length acc1 = length acc2 →
    (b1 acc1).1 = (b2 acc2).1 ∧ length (b1 acc1).2 = length (b2 acc2).2.

Module RunExamples.
Definition tagged_function : Function :=
  {| FunctionArn := "arn:aws:lambda:us-east-1:123:function:g"; FunctionName := "g" |}.
Definition a_volume : Volume := {| VolumeId := "vol-1"; volume_Tags := Some [] |}.
Definition logs_bucket : Bucket := {| Name := "logs" |}.

(** Every listing returns; one tag look-up raises, one bucket has a tag
    record without ['Value']. *)
Definition fleet : Provider := {|
  Session := Returned tt;
  client := λ _ _, Returned tt;
  describe_instances := λ _, Returned [ {| Instances := [Examples.owned_instance] |} ];
  describe_volumes := λ _, Returned [a_volume];
  describe_vpcs := λ _, Returned [Examples.untagged_vpc];
  describe_security_groups := λ _, Returned [];
  describe_subnets := λ _, Returned [];
  list_functions := λ _, Returned [Examples.a_function; tagged_function];
  list_tags := λ _ arn,
    if String.eqb arn (FunctionArn tagged_function)
    then Returned (Some {[ "Owner" := "a" ]})
    else Raised;
  describe_db_instances := λ _, Returned [Examples.a_database];
  list_tags_for_resource := λ _ _, Returned (Some [mk_tag "Owner" "a"; mk_tag "Environment" "e"]);
  list_buckets := Returned [Examples.a_bucket; logs_bucket];
  get_bucket_tagging := λ name,
    if String.eqb name "logs"
    then Returned (Some [mk_tag "Owner" "ops"])
    else Returned (Some [ {[ "Key" := "Owner" ]} ])
|}.

(** The bucket listing raises. *)
Definition no_buckets : Provider := {|
  Session := Returned tt;
  client := λ _ _, Returned tt;
  describe_instances := λ _, Returned [ {| Instances := [Examples.owned_instance] |} ];
  describe_volumes := λ _, Returned [];
  describe_vpcs := λ _, Returned [];
  describe_security_groups := λ _, Returned [];
  describe_subnets := λ _, Returned [];
  list_functions := λ _, Returned [];
  list_tags := λ _ _, Raised;
  describe_db_instances := λ _, Returned [];
  list_tags_for_resource := λ _ _, Raised;
  list_buckets := Raised;
  get_bucket_tagging := λ _, Raised
|}.
End RunExamples.

(** The sum of the counts of a table. *)
Definition total (table : list (string * nat)) : nat :=
  foldr (λ item sum, item.2 + sum)%nat 0%nat table.

(** A frequency table of the items [xs]: every distinct item once with
    the number of its occurrences, greatest count first, items of equal
    count in the order in which they are first seen; the counts add up to
    the number of items. *)
Definition frequency_table (xs : list string) (table : list (string * nat)) : Prop :=
  NoDup table.*1
  ∧ (∀ k n, (k, n) ∈ table ↔ k ∈ xs ∧ n = occurrences k xs)
  ∧ StronglySorted count_desc table
  ∧ (∀ k1 k2 n, [(k1, n); (k2, n)] `sublist_of` table → first_seen_before k1 k2 xs)
  ∧ total table = length xs.

(** A comma occurs in the string. *)
Fixpoint has_comma (s : string) : bool :=
  match s with
  | EmptyString => false
  | String c s' => Ascii.eqb c "," || has_comma s'
  end.

(** The findings whose ['Missing_Tags'] cell the report reads back as it
    was: the sequence is not empty, no name has a comma in it or white
    space at its ends. *)
Definition readable (r : Report) : bool :=
  nonempty (missing_tags r)
  && forallb (λ tag, negb (has_comma tag) && String.eqb (PyStr.strip tag) tag)
       (missing_tags r).

(** The sample of the report (lines 47-55): the rows of kind
    [EC2 Instance], the first five of them that are printed, and the number
    printed after them as "... and N more", if any. *)
Module Sample.
Definition ec2_instances (resources : list Analysis.Row) : list Analysis.Row :=
  filter (λ row, Excel.Resource row = "EC2 Instance") resources.

Definition shown (resources : list Analysis.Row) : list Analysis.Row :=
  take 5 (ec2_instances resources).

Definition more (resources : list Analysis.Row) : option nat :=
  if decide (5 < length (ec2_instances resources))%nat
  then Some (length (ec2_instances resources) - 5)%nat
  else None.
End Sample.

Module ReportExamples.
Definition instance_row (n : string) : Analysis.Row :=
  Excel.finding "123" "us-east-1" "EC2 Instance" n ["Owner"].
Definition seven : list Analysis.Row :=
  [instance_row "1"; instance_row "2"; AnalysisExamples.row "us-east-1" "VPC" "v";
   instance_row "3"; instance_row "4"; instance_row "5"; instance_row "6";
   instance_row "7"].
End ReportExamples.

(** ** The resources a run meets *)

(** The tags of a function, of a database instance and of a bucket as the
    scanner has them when it judges the resource; [None] when they could
    not be read: the look-up raised or, for a bucket, the copy of its tag
    set raised. *)
Definition function_tags (p : Provider) (region : string) (function : Function)
  : option (list Tag) :=
  match list_tags p region (FunctionArn function) with
  | Returned tags_response => Some (tags_of_items (default ∅ tags_response))
  | Raised => None
  end.

Definition database_tags (p : Provider) (region : string) (instance : DBInstance)
  : option (list Tag) :=
  match list_tags_for_resource p region (DBInstanceArn instance) with
  | Returned tags_response => Some (default [] tags_response)
  | Raised => None
  end.

Definition bucket_tags (p : Provider) (bucket : Bucket) : option (list Tag) :=
  match get_bucket_tagging p (Name bucket) with
  | Returned tags_response =>
      match copy_tag_set (default [] tags_response) with
      | Returned tags => Some tags
      | Raised => None
      end
  | Raised => None
  end.

(** The resources the listings of the provider return, each with the
    region and the kind under which the scanner reports it, its reference
    and its tags.  The buckets are listed through the [s3] client. *)
Inductive inventory (p : Provider) (account_id : string)
  : string → Kind → string → option (list Tag) → Prop :=
  | inventory_instance region reservations reservation instance :
      describe_instances p region = Returned reservations →
      reservation ∈ reservations → instance ∈ Instances reservation →
      inventory p account_id region EC2Instance
        ("arn:aws:ec2:" ++ region ++ ":" ++ account_id ++ ":instance/"
           ++ InstanceId instance)
        (Some (default [] (instance_Tags instance)))
  | inventory_volume region volumes volume :
      describe_volumes p region = Returned volumes → volume ∈ volumes →
      inventory p account_id region EBSVolume
        ("arn:aws:ec2:" ++ region ++ ":" ++ account_id ++ ":volume/" ++ VolumeId volume)
        (Some (default [] (volume_Tags volume)))
  | inventory_vpc region vpcs vpc :
      describe_vpcs p region = Returned vpcs → vpc ∈ vpcs →
      inventory p account_id region VPC
        ("arn:aws:ec2:" ++ region ++ ":" ++ account_id ++ ":vpc/" ++ VpcId vpc)
        (Some (default [] (vpc_Tags vpc)))
  | inventory_security_group region sgs sg :
      describe_security_groups p region = Returned sgs → sg ∈ sgs →
      inventory p account_id region SecurityGroupKind
        ("arn:aws:ec2:" ++ region ++ ":" ++ account_id ++ ":security-group/"
           ++ GroupId sg)
        (Some (default [] (sg_Tags sg)))
  | inventory_subnet region subnets subnet :
      describe_subnets p region = Returned subnets → subnet ∈ subnets →
      inventory p account_id region SubnetKind
        ("arn:aws:ec2:" ++ region ++ ":" ++ account_id ++ ":subnet/" ++ SubnetId subnet)
        (Some (default [] (subnet_Tags subnet)))
  | inventory_function region functions function :
      list_functions p region = Returned functions → function ∈ functions →
      inventory p account_id region LambdaFunction (FunctionArn function)
        (function_tags p region function)
  | inventory_database region instances instance :
      describe_db_instances p region = Returned instances → instance ∈ instances →
      inventory p account_id region RDSInstance (DBInstanceArn instance)
        (database_tags p region instance)
  | inventory_bucket buckets bucket :
      client p "s3" None = Returned tt →
      list_buckets p = Returned buckets → bucket ∈ buckets →
      inventory p account_id "Global" S3Bucket ("arn:aws:s3:::" ++ Name bucket)
        (bucket_tags p bucket).

(** What the scanner makes of the tags of a resource: no finding when they
    were read and [check_missing_tags] finds no required name missing, else
    the names of the finding, every required name when the tags could not
    be read. *)
Definition verdict (required_tags : list string) (tags : option (list Tag))
  : option (list string) :=
  match tags with
  | Some tags =>
      match check_missing_tags (Some tags) required_tags with
      | [] => None
      | missing => Some missing
      end
  | None => Some required_tags
  end.

(** The finding made of a resource: the finding with its labels and, as
    missing tags, the names of the verdict on its tags. *)
Definition reported (account_id : string) (required_tags : list string)
    (region : string) (k : Kind) (arn : string) (tags : option (list Tag))
    (f : Excel.Finding) : Prop :=
  ∃ missing, verdict required_tags tags = Some missing
             ∧ f = Excel.finding account_id region (kind_name k) arn missing.

Section Unreadable.
Variables (p : Provider) (region : string).

(** The resource is in the listing of its kind. *)
Definition in_listing (l : Lookup) : Prop :=
  match l with
  | LambdaTags function =>
      ∃ functions, list_functions p region = Returned functions ∧ function ∈ functions
  | RDSTags instance =>
      ∃ instances, describe_db_instances p region = Returned instances
                   ∧ instance ∈ instances
  | BucketTags bucket =>
      ∃ buckets, list_buckets p = Returned buckets ∧ bucket ∈ buckets
  end.

(** The tags of the resource could not be read: its look-up raised or,
    for a bucket, a record of the tag set returned has no ['Key'] or no
    ['Value']. *)
Definition unreadable (l : Lookup) : Prop :=
  lookup_raises p region l
  ∨ match l with
    | BucketTags bucket =>
        ∃ tags_response, get_bucket_tagging p (Name bucket) = Returned tags_response
                         ∧ Exists malformed (default [] tags_response)
    | _ => False
    end.
End Unreadable.

(** * Properties *)

Section CheckMissingTags.

Implicit Types (resource_tags : py_tags) (required : list string).

Lemma check_missing_tags_filter resource_tags required :
  check_missing_tags resource_tags required
  = filter (λ tag, tag ∉ keys_of resource_tags) required.
Proof.
  unfold check_missing_tags, keys_of.
  destruct resource_tags as [[|t ts]|]; simpl; try reflexivity.
  - induction required as [|r rs IH]; [reflexivity|].
    rewrite filter_cons_True by set_solver. by rewrite <- IH.
  - induction required as [|r rs IH]; [reflexivity|].
    rewrite filter_cons_True by set_solver. by rewrite <- IH.
Qed.

Lemma check_missing_tags_sublist resource_tags required :
  sublist (check_missing_tags resource_tags required) required.
Proof. rewrite check_missing_tags_filter. apply sublist_filter. Qed.

Lemma elem_of_check_missing_tags resource_tags required tag :
  tag ∈ check_missing_tags resource_tags required
  ↔ tag ∈ required ∧ tag ∉ keys_of resource_tags.
Proof.
  rewrite check_missing_tags_filter, list_elem_of_filter. tauto.
Qed.

(** When every record carries a ['Key'], the keys read by the function are
    exactly the ['Key'] values of the records. *)
Lemma keys_of_well_formed (tags : list Tag) (k : string) :
  Forall (λ t, is_Some (t !! "Key")) tags →
  k ∈ keys_of (Some tags) ↔ ∃ t, t ∈ tags ∧ t !! "Key" = Some k.
Proof.
  intros Hwf. unfold keys_of, existing_tags. simpl.
  rewrite elem_of_list_to_set, list_elem_of_In, in_map_iff.
  split.
  - intros (t & Hk & Hin). apply list_elem_of_In in Hin.
    exists t. split; [done|].
    rewrite Forall_forall in Hwf. destruct (Hwf t Hin) as [v Hv].
    unfold tag_key in Hk. rewrite Hv in Hk. simpl in Hk. by subst.
  - intros (t & Hin & Hk). exists t. split.
    + unfold tag_key. by rewrite Hk.
    + by apply list_elem_of_In.
Qed.

(** A name is among the keys the function reads exactly when a record
    holds it under ['Key'], a record without ['Key'] counting for the empty
    name. *)
Lemma elem_of_keys_of resource_tags (name : string) :
  name ∈ keys_of resource_tags
  ↔ ∃ tag : Tag, tag ∈ default [] resource_tags
        ∧ (tag !! "Key" = Some name ∨ (tag !! "Key" = None ∧ name = "")).
Proof.
  unfold keys_of, existing_tags.
  rewrite elem_of_list_to_set, list_elem_of_In, in_map_iff.
  split; intros (tag & H1 & H2); exists tag.
  - split; [by apply list_elem_of_In|].
    unfold tag_key in H1. destruct (tag !! "Key") as [k|]; simpl in H1; subst; auto.
  - split; [|by apply list_elem_of_In]. unfold tag_key.
    destruct H2 as [->|[-> ->]]; reflexivity.
Qed.

Lemma elem_of_key_values resource_tags (name : string) :
  name ∈ key_values resource_tags
  ↔ ∃ tag : Tag, tag ∈ default [] resource_tags ∧ tag !! "Key" = Some name.
Proof.
  unfold key_values. rewrite elem_of_list_to_set, list_elem_of_omap. reflexivity.
Qed.

Lemma mk_tag_Key (k v : string) : mk_tag k v !! "Key" = Some k.
Proof. unfold mk_tag. by rewrite lookup_insert_eq. Qed.

End CheckMissingTags.

(** C2. For every sequence of required tag names and every argument of
    existing tag records, [check_missing_tags] returns a subsequence of the
    required names in their order.  A required name is returned exactly
    when no record holds it under ['Key'] (and, for the empty name, when in
    addition every record has a ['Key']: the function reads a record
    without one as having the empty key).  So, for records that all have a
    ['Key'], the set of the names returned is the set of the required names
    minus the set of the ['Key'] values of the records. *)
Theorem check_missing_tags_spec (resource_tags : py_tags) (required : list string) :
  sublist (check_missing_tags resource_tags required) required
  ∧ (∀ name, name ∈ check_missing_tags resource_tags required
       ↔ name ∈ required
         ∧ ∀ tag : Tag, tag ∈ default [] resource_tags →
             tag !! "Key" ≠ Some name ∧ (tag !! "Key" = None → name ≠ ""))
  ∧ (Forall (λ tag : Tag, is_Some (tag !! "Key")) (default [] resource_tags) →
     (list_to_set (check_missing_tags resource_tags required) : gset string)
     = list_to_set required ∖ key_values resource_tags).
Proof.
  split; [apply check_missing_tags_sublist|]. split.
  - intros name. rewrite elem_of_check_missing_tags, elem_of_keys_of.
    split; intros [Hreq Hout]; (split; [done|]).
    + intros tag Hin. split.
      * intros Hk. apply Hout. exists tag. auto.
      * intros Hk Hname. apply Hout. exists tag. auto.
    + intros (tag & Hin & [Hk|[Hk Hname]]); destruct (Hout tag Hin) as [H1 H2];
        [by apply H1|by apply H2].
  - intros Hwf. apply set_eq. intros name.
    rewrite elem_of_difference, !elem_of_list_to_set.
    rewrite elem_of_check_missing_tags, elem_of_keys_of, elem_of_key_values.
    rewrite Forall_forall in Hwf.
    split; intros [Hreq Hout]; (split; [done|]); intros (tag & Hin & Hk); apply Hout;
      exists tag; (split; [done|]).
    + by left.
    + destruct Hk as [Hk|[Hk _]]; [done|].
      destruct (Hwf tag Hin) as [k Hsome]. congruence.
Qed.

Lemma check_missing_tags_spec_witness :
  (list_to_set (check_missing_tags (Some [mk_tag "Owner" "a"]) ["Environment"; "Owner"])
     : gset string)
  = list_to_set ["Environment"; "Owner"] ∖ key_values (Some [mk_tag "Owner" "a"]).
Proof.
  apply (check_missing_tags_spec (Some [mk_tag "Owner" "a"]) ["Environment"; "Owner"]).
  constructor; [|constructor]. rewrite mk_tag_Key. by eexists.
Defined.

(** C6. With an empty or an absent tag argument, [check_missing_tags]
    returns the required sequence itself. *)
Theorem check_missing_tags_empty (required : list string) :
  check_missing_tags (Some []) required = required
  ∧ check_missing_tags None required = required.
Proof. split; reflexivity. Qed.

(** ** Blocks only append *)

Section ScanFacts.
Context {F : Type}.
Implicit Types (acc : list F).

Lemma appends_only_ret {A} (a : A) : appends_only (F:=F) (mret a).
Proof. intros acc. cbn. by rewrite app_nil_r. Qed.

Lemma appends_only_pass : appends_only (F:=F) Scan.pass.
Proof. intros acc. cbn. by rewrite app_nil_r. Qed.

Lemma appends_only_call {A} (o : outcome A) : appends_only (F:=F) (Scan.call o).
Proof. intros acc. cbn. by rewrite app_nil_r. Qed.

Lemma appends_only_append (f : F) : appends_only (Scan.append f).
Proof. intros acc. reflexivity. Qed.

Lemma appends_only_bind {A B} (m : Scan F A) (k : A → Scan F B) :
  appends_only m → (∀ a, appends_only (k a)) → appends_only (m ≫= k).
Proof.
  intros Hm Hk acc. unfold mbind, Scan_bind, Scan.bind.
  rewrite (Hm acc). destruct (m []) as [[|a] l]; simpl; [done|].
  rewrite (Hk a (acc ++ l)), (Hk a l). simpl. by rewrite app_assoc.
Qed.

Lemma appends_only_try_except {A} (body handler : Scan F A) :
  appends_only body → appends_only handler →
  appends_only (Scan.try_except body handler).
Proof.
  intros Hb Hh acc. unfold Scan.try_except.
  rewrite (Hb acc). destruct (body []) as [[|a] l]; simpl; [|done].
  rewrite (Hh (acc ++ l)), (Hh l). simpl. by rewrite app_assoc.
Qed.

Lemma appends_only_for_each {A} (xs : list A) (body : A → Scan F unit) :
  (∀ x, appends_only (body x)) → appends_only (Scan.for_each xs body).
Proof.
  intros Hbody. induction xs as [|x xs IH]; simpl.
  - apply appends_only_pass.
  - apply (appends_only_bind (body x) (λ _, Scan.for_each xs body)); auto.
Qed.

(** A loop whose body never raises returns. *)
Lemma for_each_returns {A} (xs : list A) (body : A → Scan F unit) acc :
  (∀ x acc', (body x acc').1 = Returned tt) →
  (Scan.for_each xs body acc).1 = Returned tt.
Proof.
  intros Hbody. revert acc. induction xs as [|x xs IH]; intros acc; simpl; [done|].
  unfold Scan.bind. specialize (Hbody x acc).
  destruct (body x acc) as [[|[]] acc']; simpl in *; [done|]. apply IH.
Qed.

(** The list after a loop holds what each round leaves on it. *)
Lemma for_each_keeps {A} (xs : list A) (body : A → Scan F unit) x f acc :
  (∀ y acc', (body y acc').1 = Returned tt) →
  (∀ y, appends_only (body y)) →
  x ∈ xs → f ∈ findings_of (body x) →
  f ∈ (Scan.for_each xs body acc).2.
Proof.
  intros Hret Happ Hx Hf. revert acc.
  induction xs as [|y ys IH]; intros acc; [by apply elem_of_nil in Hx|].
  simpl. unfold Scan.bind.
  pose proof (Hret y acc) as Hy. pose proof (Happ y acc) as Hacc.
  destruct (body y acc) as [[|[]] acc'] eqn:E; simpl in *; [done|].
  apply elem_of_cons in Hx as [->|Hx].
  - pose proof (appends_only_for_each ys body Happ acc') as H'.
    rewrite H'. simpl. apply elem_of_app. left.
    injection Hacc as _ ->. apply elem_of_app. by right.
  - by apply IH.
Qed.

(** Two blocks in sequence, from the empty list. *)
Lemma seq_findings (b rest : Scan F unit) :
  appends_only rest →
  ((b ;; rest) []).2
  = match (b []).1 with
    | Returned _ => findings_of b ++ (rest []).2
    | Raised => findings_of b
    end.
Proof.
  intros Hrest. unfold mbind, Scan_bind, Scan.bind, findings_of.
  destruct (b []) as [[|[]] l]; simpl; [done|]. by rewrite (Hrest l).
Qed.

Lemma seq_outcome (b rest : Scan F unit) :
  appends_only rest →
  ((b ;; rest) []).1
  = match (b []).1 with
    | Returned _ => (rest []).1
    | Raised => Raised
    end.
Proof.
  intros Hrest. unfold mbind, Scan_bind, Scan.bind.
  destruct (b []) as [[|[]] l]; simpl; [done|]. by rewrite (Hrest l).
Qed.

(** [except: pass] keeps the list of the body. *)
Lemma try_pass_findings (body : Scan F unit) acc :
  (Scan.try_except body Scan.pass acc).2 = (body acc).2.
Proof. unfold Scan.try_except. by destruct (body acc) as [[|[]] l]. Qed.

Lemma try_pass_returns (body : Scan F unit) acc :
  (Scan.try_except body Scan.pass acc).1 = Returned tt.
Proof. unfold Scan.try_except. by destruct (body acc) as [[|[]] l]. Qed.

(** The blocks before the first that raises have their findings on the
    list, the ones after it have none. *)
Lemma accumulated_split (pre post : list (Scan F unit)) (b : Scan F unit) :
  Forall returns pre → raises b →
  accumulated (pre ++ b :: post) = flat_map findings_of pre ++ findings_of b.
Proof.
  intros Hpre Hb. induction Hpre as [|b' pre Hb' _ IH]; simpl.
  - unfold raises in Hb. by rewrite Hb.
  - unfold returns in Hb'. rewrite Hb', IH. by rewrite app_assoc.
Qed.

Lemma accumulated_all (bs : list (Scan F unit)) :
  Forall returns bs → accumulated bs = flat_map findings_of bs.
Proof.
  intros Hbs. induction Hbs as [|b bs Hb _ IH]; simpl; [done|].
  unfold returns in Hb. by rewrite Hb, IH.
Qed.

End ScanFacts.

(** ** Listing blocks *)

Section ListingBlocks.
Context {F A : Type}.
Variables (body : A → Scan F unit).
Hypothesis body_returns : ∀ x acc, (body x acc).1 = Returned tt.

(** A listing followed by a loop that cannot raise: the block raises
    exactly when the listing call does, with nothing appended. *)
Lemma listing_raises (o : outcome (list A)) :
  raises (xs ← Scan.call o; Scan.for_each xs body) → o = Raised.
Proof.
  unfold raises, mbind, Scan_bind, Scan.bind, Scan.call.
  destruct o as [|xs]; [done|]. by rewrite for_each_returns.
Qed.

Lemma listing_raises_nil (o : outcome (list A)) :
  raises (xs ← Scan.call o; Scan.for_each xs body) →
  findings_of (xs ← Scan.call o; Scan.for_each xs body) = [].
Proof. intros ->%listing_raises. reflexivity. Qed.

Lemma client_listing_raises_nil (c : outcome unit) (o : outcome (list A)) :
  raises (Scan.call c;; xs ← Scan.call o; Scan.for_each xs body) →
  findings_of (Scan.call c;; xs ← Scan.call o; Scan.for_each xs body) = [].
Proof.
  destruct c as [|[]]; [done|]. intros H.
  assert (o = Raised) as ->; [|done].
  apply listing_raises. exact H.
Qed.

Lemma try_except_returns (b h : Scan F unit) acc :
  (∀ acc', (h acc').1 = Returned tt) → (Scan.try_except b h acc).1 = Returned tt.
Proof.
  intros Hh. unfold Scan.try_except. destruct (b acc) as [[|[]] l]; [apply Hh|done].
Qed.
End ListingBlocks.

Ltac scan_appends :=
  repeat first
    [ apply appends_only_pass
    | apply appends_only_append
    | apply appends_only_call
    | apply appends_only_ret
    | apply appends_only_try_except
    | apply appends_only_for_each; intros ?
    | apply appends_only_bind; [|intros ?] ].

Ltac in_list :=
  repeat first [ apply list_elem_of_here | apply list_elem_of_further ].

Ltac seq_appends :=
  repeat first [ assumption | apply appends_only_bind; [|intros ?] ].

(** ** The blocks of the dataset scan *)

Section ExcelBlocks.
Variables (p : Provider) (region account_id : string) (required_tags : list string).

Lemma excel_flag_appends resource arn tags :
  appends_only (Excel.flag region account_id required_tags resource arn tags).
Proof. unfold Excel.flag. case (nonempty _); scan_appends. Qed.

Lemma excel_flag_returns resource arn tags acc :
  (Excel.flag region account_id required_tags resource arn tags acc).1 = Returned tt.
Proof. unfold Excel.flag. by case (nonempty _). Qed.

Lemma excel_lambda_function_returns function acc :
  (Excel.lambda_function p region account_id required_tags function acc).1 = Returned tt.
Proof. apply try_except_returns. done. Qed.

Lemma excel_rds_instance_returns instance acc :
  (Excel.rds_instance p region account_id required_tags instance acc).1 = Returned tt.
Proof. apply try_except_returns. done. Qed.

Lemma excel_s3_bucket_returns bucket acc :
  (Excel.s3_bucket p account_id required_tags bucket acc).1 = Returned tt.
Proof. apply try_except_returns. done. Qed.

Lemma excel_lambda_function_appends function :
  appends_only (Excel.lambda_function p region account_id required_tags function).
Proof.
  unfold Excel.lambda_function, Excel.flag_all. scan_appends. apply excel_flag_appends.
Qed.

Lemma excel_rds_instance_appends instance :
  appends_only (Excel.rds_instance p region account_id required_tags instance).
Proof.
  unfold Excel.rds_instance, Excel.flag_all. scan_appends. apply excel_flag_appends.
Qed.

Lemma excel_block_appends k :
  appends_only (Excel.block p region account_id required_tags k).
Proof.
  destruct k; simpl;
    unfold Excel.ec2_instances, Excel.ebs_volumes, Excel.vpcs, Excel.security_groups,
      Excel.subnets, Excel.lambda_functions, Excel.rds_instances;
    scan_appends;
    auto using excel_flag_appends, excel_lambda_function_appends,
      excel_rds_instance_appends.
Qed.

(** A block that raises has appended nothing: only its listing (or the
    client before it) can raise. *)
Lemma excel_block_raises_nil k :
  raises (Excel.block p region account_id required_tags k) →
  findings_of (Excel.block p region account_id required_tags k) = [].
Proof.
  destruct k; simpl.
  - apply client_listing_raises_nil. intros r acc.
    apply for_each_returns. intros i acc'. apply excel_flag_returns.
  - apply listing_raises_nil. intros x acc. apply excel_flag_returns.
  - apply listing_raises_nil. intros x acc. apply excel_flag_returns.
  - apply listing_raises_nil. intros x acc. apply excel_flag_returns.
  - apply listing_raises_nil. intros x acc. apply excel_flag_returns.
  - apply client_listing_raises_nil. apply excel_lambda_function_returns.
  - apply client_listing_raises_nil. apply excel_rds_instance_returns.
  - done.
Qed.

(** The result of a region scan: nothing when the session cannot be
    made, otherwise what the blocks accumulate in scan order. *)
Lemma excel_region_scan :
  Excel.get_resources_missing_tags_in_region p region account_id required_tags
  = match Session p with
    | Raised => []
    | Returned _ =>
        accumulated (map (Excel.block p region account_id required_tags)
                       Excel.scan_order)
    end.
Proof.
  unfold Excel.get_resources_missing_tags_in_region.
  rewrite try_pass_findings. unfold Excel.scan_body.
  pose proof excel_block_appends as Happ.
  pose proof (Happ EC2Instance) as H1. pose proof (Happ EBSVolume) as H2.
  pose proof (Happ VPC) as H3. pose proof (Happ SecurityGroupKind) as H4.
  pose proof (Happ SubnetKind) as H5. pose proof (Happ LambdaFunction) as H6.
  pose proof (Happ RDSInstance) as H7. simpl in H1, H2, H3, H4, H5, H6, H7.
  rewrite seq_findings by seq_appends.
  destruct (Session p) as [|[]]; simpl; [done|].
  repeat (rewrite seq_findings by seq_appends).
  unfold findings_of.
  repeat match goal with
         | |- context [ (?b []).1 ] => destruct (b []).1 as [|[]]
         end; simpl; rewrite ?app_nil_r; reflexivity.
Qed.

End ExcelBlocks.

(** ** The blocks of the printing scan *)

Section ConsoleBlocks.
Variables (p : Provider) (region : string) (required_tags : list string).

Lemma console_flag_appends kind name tags :
  appends_only (Console.flag required_tags kind name tags).
Proof. unfold Console.flag. case (nonempty _); scan_appends. Qed.

Lemma console_flag_returns kind name tags acc :
  (Console.flag required_tags kind name tags acc).1 = Returned tt.
Proof. unfold Console.flag. by case (nonempty _). Qed.

Lemma console_lambda_function_returns function acc :
  (Console.lambda_function p region required_tags function acc).1 = Returned tt.
Proof. apply try_except_returns. done. Qed.

Lemma console_rds_instance_returns instance acc :
  (Console.rds_instance p region required_tags instance acc).1 = Returned tt.
Proof. apply try_except_returns. done. Qed.

Lemma console_block_appends k :
  appends_only (Console.block p region required_tags k).
Proof.
  destruct k; simpl;
    unfold Console.ec2_instances, Console.ebs_volumes, Console.vpcs,
      Console.security_groups, Console.subnets, Console.lambda_functions,
      Console.rds_instances, Console.lambda_function, Console.rds_instance,
      Console.flag_all;
    scan_appends; auto using console_flag_appends.
Qed.

Lemma console_block_raises_nil k :
  raises (Console.block p region required_tags k) →
  findings_of (Console.block p region required_tags k) = [].
Proof.
  destruct k; simpl.
  - apply client_listing_raises_nil. intros r acc.
    apply for_each_returns. intros i acc'. apply console_flag_returns.
  - apply listing_raises_nil. intros x acc. apply console_flag_returns.
  - apply listing_raises_nil. intros x acc. apply console_flag_returns.
  - apply listing_raises_nil. intros x acc. apply console_flag_returns.
  - apply listing_raises_nil. intros x acc. apply console_flag_returns.
  - apply client_listing_raises_nil. apply console_lambda_function_returns.
  - apply client_listing_raises_nil. apply console_rds_instance_returns.
  - done.
Qed.

Lemma console_region_scan :
  Console.get_resources_missing_tags_in_region p region required_tags
  = (region,
     match Session p with
     | Raised => []
     | Returned _ =>
         accumulated (map (Console.block p region required_tags) Console.scan_order)
     end).
Proof.
  unfold Console.get_resources_missing_tags_in_region. f_equal.
  rewrite try_pass_findings. unfold Console.scan_body.
  pose proof console_block_appends as Happ.
  pose proof (Happ EC2Instance) as H1. pose proof (Happ EBSVolume) as H2.
  pose proof (Happ VPC) as H3. pose proof (Happ SecurityGroupKind) as H4.
  pose proof (Happ SubnetKind) as H5. pose proof (Happ LambdaFunction) as H6.
  pose proof (Happ RDSInstance) as H7. simpl in H1, H2, H3, H4, H5, H6, H7.
  rewrite seq_findings by seq_appends.
  destruct (Session p) as [|[]]; simpl; [done|].
  repeat (rewrite seq_findings by seq_appends).
  unfold findings_of.
  repeat match goal with
         | |- context [ (?b []).1 ] => destruct (b []).1 as [|[]]
         end; simpl; rewrite ?app_nil_r; reflexivity.
Qed.

End ConsoleBlocks.

(** ** One failing kind in a region *)

Section FirstFailure.
Context {F : Type}.
Variables (block : Kind → Scan F unit).
Hypothesis block_raises_nil : ∀ k, raises (block k) → findings_of (block k) = [].

(** With the blocks of [pre] returning and the block of [k] raising, the
    list holds the findings of [pre] and nothing else. *)
Lemma accumulated_first_failure (pre post : list Kind) (k : Kind) :
  (∀ k', k' ∈ pre → returns (block k')) → raises (block k) →
  accumulated (map block (pre ++ k :: post))
  = flat_map (λ k', findings_of (block k')) pre.
Proof.
  intros Hpre Hk. rewrite map_app. simpl.
  rewrite accumulated_split; [|by apply Forall_map, Forall_forall|done].
  rewrite block_raises_nil, app_nil_r by done.
  clear. induction pre as [|k' pre IH]; simpl; [done|]. by rewrite IH.
Qed.
End FirstFailure.

(** ** The region scan under failures *)

(** C4. When the first provider interaction of a region raises (the
    session, the region's client or the first listing), both scanners
    return no findings for the region instead of raising. *)
Theorem region_unavailable_gives_no_findings
    (p : Provider) (region account_id : string) (required_tags : list string) :
  Session p = Raised ∨ client p "ec2" (Some region) = Raised
    ∨ describe_instances p region = Raised →
  Excel.get_resources_missing_tags_in_region p region account_id required_tags = []
  ∧ Console.get_resources_missing_tags_in_region p region required_tags = (region, []).
Proof.
  intros H. rewrite excel_region_scan, console_region_scan.
  destruct (Session p) as [|[]]; [done|].
  destruct H as [H|[H|H]]; [done| |];
    simpl; unfold Excel.ec2_instances, Console.ec2_instances,
      mbind, Scan_bind, Scan.bind, Scan.call; rewrite H; simpl; try done.
  all: by destruct (client p "ec2" (Some region)) as [|[]].
Qed.

Lemma region_unavailable_gives_no_findings_witness :
  Excel.get_resources_missing_tags_in_region Examples.region_down
    "ap-east-1" "123" ["Environment"; "Owner"] = []
  ∧ Console.get_resources_missing_tags_in_region Examples.region_down
      "ap-east-1" ["Environment"; "Owner"] = ("ap-east-1", []).
Proof.
  apply (region_unavailable_gives_no_findings Examples.region_down).
  right. right. reflexivity.
Defined.

(** C3, as stated, fails: with the volume listing raising and one untagged
    VPC, the VPC block on its own returns one finding, and the region's
    result of neither scanner has it. *)
Lemma kinds_not_isolated :
  ¬ kinds_isolated
      (Excel.block Examples.volumes_down "us-east-1" "123" ["Environment"; "Owner"])
      Excel.scan_order
      (Excel.get_resources_missing_tags_in_region Examples.volumes_down
         "us-east-1" "123" ["Environment"; "Owner"])
  ∧ ¬ kinds_isolated
      (Console.block Examples.volumes_down "us-east-1" ["Environment"; "Owner"])
      Console.scan_order
      (Console.get_resources_missing_tags_in_region Examples.volumes_down
         "us-east-1" ["Environment"; "Owner"]).2.
Proof.
  split; intros H.
  - specialize (H EBSVolume VPC).
    assert (Excel.finding "123" "us-east-1" "VPC" "arn:aws:ec2:us-east-1:123:vpc/vpc-1"
              ["Environment"; "Owner"]
            ∈ Excel.get_resources_missing_tags_in_region Examples.volumes_down
                "us-east-1" "123" ["Environment"; "Owner"]) as Hin.
    { apply H; [in_list|in_list|done|reflexivity|reflexivity|].
      vm_compute. apply list_elem_of_here. }
    vm_compute in Hin. apply list_elem_of_singleton in Hin. discriminate Hin.
  - specialize (H EBSVolume VPC).
    assert (Console.finding "VPC" "vpc-1" ["Environment"; "Owner"]
            ∈ (Console.get_resources_missing_tags_in_region Examples.volumes_down
                 "us-east-1" ["Environment"; "Owner"]).2) as Hin.
    { apply H; [in_list|in_list|done|reflexivity|reflexivity|].
      vm_compute. apply list_elem_of_here. }
    vm_compute in Hin. apply list_elem_of_singleton in Hin. discriminate Hin.
Qed.

(** C3, amended. A region scan whose session is made stops at the first
    kind whose provider call raises: the kinds scanned before it have their
    findings in the result, that kind and the kinds after it have none. *)
Theorem region_scan_stops_at_first_failure
    (p : Provider) (region account_id : string) (required_tags : list string) :
  Session p = Returned tt →
  stops_at_first_failure
    (Excel.block p region account_id required_tags) Excel.scan_order
    (Excel.get_resources_missing_tags_in_region p region account_id required_tags)
  ∧ stops_at_first_failure
      (Console.block p region required_tags) Console.scan_order
      (Console.get_resources_missing_tags_in_region p region required_tags).2.
Proof.
  intros HS. split; intros pre k post Horder Hpre Hk.
  - rewrite excel_region_scan, HS, Horder.
    apply accumulated_first_failure; auto using excel_block_raises_nil.
  - rewrite console_region_scan, HS, Horder. simpl.
    apply accumulated_first_failure; auto using console_block_raises_nil.
Qed.

Lemma region_scan_stops_at_first_failure_witness :
  Excel.get_resources_missing_tags_in_region Examples.volumes_down
    "us-east-1" "123" ["Environment"; "Owner"]
  = [Excel.finding "123" "us-east-1" "EC2 Instance"
       "arn:aws:ec2:us-east-1:123:instance/i-1" ["Environment"]].
Proof.
  pose proof (region_scan_stops_at_first_failure Examples.volumes_down
                "us-east-1" "123" ["Environment"; "Owner"] eq_refl) as [H _].
  rewrite (H [EC2Instance] EBSVolume
             [VPC; SecurityGroupKind; SubnetKind; LambdaFunction; RDSInstance]).
  - reflexivity.
  - reflexivity.
  - intros k' ->%list_elem_of_singleton. reflexivity.
  - reflexivity.
Defined.

Section ProviderCalls.
Variables (p : Provider) (region account_id : string) (required_tags : list string).

(** A block whose calls return returns: its loop cannot raise. *)
Lemma calls_return_returns (k : Kind) :
  calls_return p region k → returns (Excel.block p region account_id required_tags k).
Proof.
  unfold returns.
  destruct k; cbn [Excel.block calls_return];
    unfold Excel.ec2_instances, Excel.ebs_volumes, Excel.vpcs, Excel.security_groups,
      Excel.subnets, Excel.lambda_functions, Excel.rds_instances,
      mbind, Scan_bind, Scan.bind, Scan.call; try done.
  - intros [-> [xs ->]]. apply for_each_returns. intros r acc.
    apply for_each_returns. intros i acc'. apply excel_flag_returns.
  - intros [xs ->]. apply for_each_returns. intros x acc. apply excel_flag_returns.
  - intros [xs ->]. apply for_each_returns. intros x acc. apply excel_flag_returns.
  - intros [xs ->]. apply for_each_returns. intros x acc. apply excel_flag_returns.
  - intros [xs ->]. apply for_each_returns. intros x acc. apply excel_flag_returns.
  - intros [-> [xs ->]]. apply for_each_returns. apply excel_lambda_function_returns.
  - intros [-> [xs ->]]. apply for_each_returns. apply excel_rds_instance_returns.
Qed.

(** A block one of whose calls raises raises. *)
Lemma call_fails_raises (k : Kind) :
  call_fails p region k → raises (Excel.block p region account_id required_tags k).
Proof.
  unfold raises.
  destruct k; cbn [Excel.block call_fails];
    unfold Excel.ec2_instances, Excel.ebs_volumes, Excel.vpcs, Excel.security_groups,
      Excel.subnets, Excel.lambda_functions, Excel.rds_instances,
      mbind, Scan_bind, Scan.bind, Scan.call; try done.
  - intros [->| ->]; [done|]. by destruct (client p "ec2" (Some region)) as [|[]].
  - by intros ->.
  - by intros ->.
  - by intros ->.
  - by intros ->.
  - intros [->| ->]; [done|]. by destruct (client p "lambda" (Some region)) as [|[]].
  - intros [->| ->]; [done|]. by destruct (client p "rds" (Some region)) as [|[]].
Qed.

End ProviderCalls.

(** C9. When a provider call of a region scan raises after findings have
    been put on the list — the session is made, the calls of the kinds
    scanned so far returned and their resources gave findings, then the
    making of the client or the listing call of the next kind raises — the
    scan does not raise: it returns exactly the findings accumulated up to
    that call, a non-empty partial result. *)
Theorem region_scan_keeps_partial_result
    (p : Provider) (region account_id : string) (required_tags : list string)
    (pre post : list Kind) (k : Kind) :
  Excel.scan_order = pre ++ k :: post →
  Session p = Returned tt →
  (∀ k', k' ∈ pre → calls_return p region k') →
  call_fails p region k →
  flat_map (λ k', findings_of (Excel.block p region account_id required_tags k')) pre
    ≠ [] →
  Scan.try_except (Excel.scan_body p region account_id required_tags) Scan.pass []
  = (Returned tt,
     flat_map (λ k', findings_of (Excel.block p region account_id required_tags k')) pre)
  ∧ Excel.get_resources_missing_tags_in_region p region account_id required_tags
    = flat_map (λ k', findings_of (Excel.block p region account_id required_tags k')) pre
  ∧ Excel.get_resources_missing_tags_in_region p region account_id required_tags ≠ [].
Proof.
  intros Horder HS Hpre Hk Hsome.
  assert (Excel.get_resources_missing_tags_in_region p region account_id required_tags
          = flat_map (λ k', findings_of
                              (Excel.block p region account_id required_tags k')) pre)
    as Hresult.
  { rewrite excel_region_scan, HS, Horder.
    apply accumulated_first_failure.
    - apply excel_block_raises_nil.
    - intros k' Hk'. by apply calls_return_returns, Hpre.
    - by apply call_fails_raises. }
  split; [|split; [done|by rewrite Hresult]].
  rewrite <- Hresult. unfold Excel.get_resources_missing_tags_in_region.
  rewrite (surjective_pairing (Scan.try_except _ _ _)). f_equal.
  apply try_pass_returns.
Qed.

Lemma region_scan_keeps_partial_result_witness :
  Scan.try_except
    (Excel.scan_body Examples.volumes_down "us-east-1" "123" ["Environment"; "Owner"])
    Scan.pass []
  = (Returned tt,
     [Excel.finding "123" "us-east-1" "EC2 Instance"
        "arn:aws:ec2:us-east-1:123:instance/i-1" ["Environment"]])
  ∧ Excel.get_resources_missing_tags_in_region Examples.volumes_down
      "us-east-1" "123" ["Environment"; "Owner"]
    = [Excel.finding "123" "us-east-1" "EC2 Instance"
         "arn:aws:ec2:us-east-1:123:instance/i-1" ["Environment"]]
  ∧ Excel.get_resources_missing_tags_in_region Examples.volumes_down
      "us-east-1" "123" ["Environment"; "Owner"] ≠ [].
Proof.
  apply (region_scan_keeps_partial_result Examples.volumes_down "us-east-1" "123"
           ["Environment"; "Owner"] [EC2Instance]
           [VPC; SecurityGroupKind; SubnetKind; LambdaFunction; RDSInstance] EBSVolume).
  - reflexivity.
  - reflexivity.
  - intros k' ->%list_elem_of_singleton. split; [reflexivity|]. by eexists.
  - reflexivity.
  - discriminate.
Defined.

(** ** Tag look-ups that raise *)

Section KeptFindings.
Context {F : Type}.

Lemma accumulated_elem (pre post : list (Scan F unit)) (b : Scan F unit) (f : F) :
  Forall returns pre → f ∈ findings_of b → f ∈ accumulated (pre ++ b :: post).
Proof.
  intros Hpre Hf. induction Hpre as [|b' pre Hb' _ IH]; simpl.
  - destruct (b []).1; [done|]. apply elem_of_app. by left.
  - unfold returns in Hb'. rewrite Hb'. apply elem_of_app. by right.
Qed.

(** A block that only appends keeps what is on the list. *)
Lemma appends_only_keeps (b : Scan F unit) (acc : list F) (f : F) :
  appends_only b → f ∈ acc → f ∈ (b acc).2.
Proof. intros Hb Hf. rewrite (Hb acc). simpl. apply elem_of_app. by left. Qed.

Lemma appends_only_adds (b : Scan F unit) (acc : list F) (f : F) :
  appends_only b → f ∈ findings_of b → f ∈ (b acc).2.
Proof. intros Hb Hf. rewrite (Hb acc). simpl. apply elem_of_app. by right. Qed.
End KeptFindings.

Section LookupFacts.
Variables (p : Provider) (region account_id : string) (required_tags : list string).

Lemma lookup_body_raises (l : Lookup) (acc : list Excel.Finding) :
  lookup_raises p region l →
  lookup_body p region account_id required_tags l acc
  = (Returned tt, acc ++ [worst_case region account_id required_tags l]).
Proof.
  destruct l; simpl; intros H;
    unfold Excel.lambda_function, Excel.rds_instance, Excel.s3_bucket,
      Scan.try_except, mbind, Scan_bind, Scan.bind, Scan.call;
    rewrite H; reflexivity.
Qed.

Lemma excel_s3_bucket_appends bucket :
  appends_only (Excel.s3_bucket p account_id required_tags bucket).
Proof.
  unfold Excel.s3_bucket, Excel.flag_all. scan_appends. apply excel_flag_appends.
Qed.

Lemma excel_s3_buckets_appends :
  appends_only (Excel.s3_buckets p account_id required_tags).
Proof.
  unfold Excel.s3_buckets. scan_appends. apply excel_flag_appends.
Qed.

(** The findings of a scanned region are in the output of the run. *)
Lemma all_resources_region (completed : list string) (f : Excel.Finding) :
  region ∈ completed →
  f ∈ Excel.get_resources_missing_tags_in_region p region account_id required_tags →
  f ∈ Excel.all_resources p account_id required_tags completed.
Proof.
  intros Hr Hf. unfold Excel.all_resources.
  apply appends_only_keeps; [apply excel_s3_buckets_appends|].
  apply list_elem_of_In, in_flat_map. exists region.
  split; by apply list_elem_of_In.
Qed.

Lemma listed_in_output (completed : list string) (l : Lookup) :
  lookup_raises p region l →
  listed p region account_id required_tags l →
  in_scope region completed l →
  worst_case region account_id required_tags l
  ∈ Excel.all_resources p account_id required_tags completed.
Proof.
  intros Hraise Hlisted Hscope.
  pose proof (lookup_body_raises l [] Hraise) as Hbody.
  destruct l as [function|instance|bucket]; simpl in *.
  - destruct Hlisted as (HS & Hpre & Hc & functions & Hfs & Hin).
    apply all_resources_region; [done|].
    rewrite excel_region_scan, HS.
    apply (accumulated_elem
             (map (Excel.block p region account_id required_tags)
                [EC2Instance; EBSVolume; VPC; SecurityGroupKind; SubnetKind])
             [Excel.block p region account_id required_tags RDSInstance]).
    { by apply Forall_map, Forall_forall. }
    simpl. unfold findings_of, Excel.lambda_functions,
      mbind, Scan_bind, Scan.bind, Scan.call.
    rewrite Hc, Hfs.
    apply (for_each_keeps _ _ function);
      [apply excel_lambda_function_returns|apply excel_lambda_function_appends|done|].
    unfold findings_of. rewrite Hbody. apply list_elem_of_here.
  - destruct Hlisted as (HS & Hpre & Hc & instances & His & Hin).
    apply all_resources_region; [done|].
    rewrite excel_region_scan, HS.
    apply (accumulated_elem
             (map (Excel.block p region account_id required_tags)
                [EC2Instance; EBSVolume; VPC; SecurityGroupKind; SubnetKind;
                 LambdaFunction])
             []).
    { by apply Forall_map, Forall_forall. }
    simpl. unfold findings_of, Excel.rds_instances,
      mbind, Scan_bind, Scan.bind, Scan.call.
    rewrite Hc, His.
    apply (for_each_keeps _ _ instance);
      [apply excel_rds_instance_returns|apply excel_rds_instance_appends|done|].
    unfold findings_of. rewrite Hbody. apply list_elem_of_here.
  - destruct Hlisted as (Hc & buckets & Hbs & Hin).
    unfold Excel.all_resources.
    apply appends_only_adds; [apply excel_s3_buckets_appends|].
    unfold findings_of, Excel.s3_buckets, Scan.try_except,
      mbind, Scan_bind, Scan.bind, Scan.call.
    rewrite Hc, Hbs.
    assert (worst_case region account_id required_tags (BucketTags bucket)
            ∈ (Scan.for_each buckets (Excel.s3_bucket p account_id required_tags) []).2)
      as Hfe.
    { apply (for_each_keeps _ _ bucket);
        [apply excel_s3_bucket_returns|apply excel_s3_bucket_appends|done|].
      unfold findings_of. rewrite Hbody. apply list_elem_of_here. }
    by destruct (Scan.for_each buckets _ []) as [[|[]] out].
Qed.
End LookupFacts.

(** C1. For a listed Lambda function, RDS instance or S3 bucket whose tag
    look-up raises, the scanner does not raise: the loop body returns after
    appending one finding for the resource, the finding's missing tags are
    the whole required list, and the finding is in the output of the run. *)
Theorem lookup_failure_reports_all_required
    (p : Provider) (region account_id : string) (required_tags : list string)
    (completed : list string) (l : Lookup) :
  lookup_raises p region l →
  listed p region account_id required_tags l →
  in_scope region completed l →
  (∀ acc, lookup_body p region account_id required_tags l acc
          = (Returned tt, acc ++ [worst_case region account_id required_tags l]))
  ∧ Excel.Missing_Tags (worst_case region account_id required_tags l)
    = PyStr.join ", " required_tags
  ∧ worst_case region account_id required_tags l
    ∈ Excel.all_resources p account_id required_tags completed.
Proof.
  intros Hraise Hlisted Hscope. split; [|split].
  - intros acc. by apply lookup_body_raises.
  - by destruct l.
  - by apply listed_in_output.
Qed.

Ltac in_cases H :=
  repeat (apply elem_of_cons in H as [->|H]); [..|by apply elem_of_nil in H].

Lemma lookup_failure_reports_all_required_witness :
  (∀ acc, lookup_body Examples.lookups_down "us-east-1" "123" ["Environment"; "Owner"]
            (LambdaTags Examples.a_function) acc
          = (Returned tt,
             acc ++ [worst_case "us-east-1" "123" ["Environment"; "Owner"]
                       (LambdaTags Examples.a_function)]))
  ∧ Excel.Missing_Tags (worst_case "us-east-1" "123" ["Environment"; "Owner"]
                          (LambdaTags Examples.a_function))
    = PyStr.join ", " ["Environment"; "Owner"]
  ∧ worst_case "us-east-1" "123" ["Environment"; "Owner"]
      (LambdaTags Examples.a_function)
    ∈ Excel.all_resources Examples.lookups_down "123" ["Environment"; "Owner"]
        ["us-east-1"].
Proof.
  apply (lookup_failure_reports_all_required Examples.lookups_down).
  - reflexivity.
  - split; [reflexivity|]. split; [|split; [reflexivity|]].
    + intros k Hk. in_cases Hk; reflexivity.
    + exists [Examples.a_function]. split; [reflexivity|apply list_elem_of_here].
  - apply list_elem_of_here.
Defined.

(** ** Every finding names a missing tag *)

Section Preservation.
Context {F : Type} (P : F → Prop).

Lemma preserves_ret {A} (a : A) : preserves P (mret a).
Proof. by intros acc. Qed.

Lemma preserves_pass : preserves P Scan.pass.
Proof. by intros acc. Qed.

Lemma preserves_call {A} (o : outcome A) : preserves P (Scan.call o).
Proof. by intros acc. Qed.

Lemma preserves_append (f : F) : P f → preserves P (Scan.append f).
Proof. intros Hf acc Hacc. simpl. apply Forall_app. by repeat constructor. Qed.

Lemma preserves_bind {A B} (m : Scan F A) (k : A → Scan F B) :
  preserves P m → (∀ a, preserves P (k a)) → preserves P (m ≫= k).
Proof.
  intros Hm Hk acc Hacc. unfold mbind, Scan_bind, Scan.bind.
  specialize (Hm acc Hacc). destruct (m acc) as [[|a] acc']; simpl in *; [done|].
  by apply Hk.
Qed.

Lemma preserves_try_except {A} (body handler : Scan F A) :
  preserves P body → preserves P handler → preserves P (Scan.try_except body handler).
Proof.
  intros Hb Hh acc Hacc. unfold Scan.try_except.
  specialize (Hb acc Hacc). destruct (body acc) as [[|a] acc']; simpl in *; [|done].
  by apply Hh.
Qed.

Lemma preserves_for_each {A} (xs : list A) (body : A → Scan F unit) :
  (∀ x, preserves P (body x)) → preserves P (Scan.for_each xs body).
Proof.
  intros Hbody. induction xs as [|x xs IH]; simpl; [apply preserves_pass|].
  apply (preserves_bind (body x) (λ _, Scan.for_each xs body)); auto.
Qed.
End Preservation.

Ltac scan_preserves :=
  repeat first
    [ apply preserves_pass
    | apply preserves_call
    | apply preserves_ret
    | apply preserves_try_except
    | apply preserves_for_each; intros ?
    | apply preserves_bind; [|intros ?] ].

Section MissingTags.
Variables (p : Provider) (account_id : string) (required_tags : list string).

Lemma excel_flag_has_missing region resource arn tags :
  preserves (has_missing_tags required_tags)
    (Excel.flag region account_id required_tags resource arn tags).
Proof.
  unfold Excel.flag.
  destruct (check_missing_tags (Some tags) required_tags) as [|m ms] eqn:E; simpl.
  - apply preserves_ret.
  - apply preserves_append. exists (m :: ms). split; [done|]. split; [|done].
    rewrite <- E. apply check_missing_tags_sublist.
Qed.

Lemma excel_flag_all_has_missing region resource arn :
  required_tags ≠ [] →
  preserves (has_missing_tags required_tags)
    (Excel.flag_all region account_id required_tags resource arn).
Proof.
  intros Hreq. apply preserves_append. exists required_tags. by repeat split.
Qed.

Lemma excel_scan_body_has_missing region :
  required_tags ≠ [] →
  preserves (has_missing_tags required_tags)
    (Excel.scan_body p region account_id required_tags).
Proof.
  intros Hreq.
  unfold Excel.scan_body, Excel.ec2_instances, Excel.ebs_volumes, Excel.vpcs,
    Excel.security_groups, Excel.subnets, Excel.lambda_functions, Excel.rds_instances,
    Excel.lambda_function, Excel.rds_instance.
  scan_preserves;
    auto using excel_flag_has_missing, excel_flag_all_has_missing.
Qed.

Lemma excel_s3_buckets_has_missing :
  required_tags ≠ [] →
  preserves (has_missing_tags required_tags)
    (Excel.s3_buckets p account_id required_tags).
Proof.
  intros Hreq. unfold Excel.s3_buckets, Excel.s3_bucket.
  scan_preserves;
    auto using excel_flag_has_missing, excel_flag_all_has_missing.
Qed.
End MissingTags.

(** C5, as stated, fails: started with the empty required list, a run over
    a provider whose tag look-ups raise emits findings whose missing tags
    are the empty sequence. *)
Lemma empty_missing_tags_reported :
  ¬ (∀ f, f ∈ Excel.all_resources Examples.lookups_down "123" [] ["us-east-1"] →
          has_missing_tags [] f).
Proof.
  intros H.
  destruct (H (worst_case "us-east-1" "123" [] (LambdaTags Examples.a_function)))
    as (missing & Hne & Hsub & _).
  - vm_compute. apply list_elem_of_here.
  - apply sublist_nil_r in Hsub. contradiction.
Qed.

(** C5, amended. Started with a non-empty required list, every finding of
    a run, whichever path appended it, has a non-empty sequence of missing
    tags. *)
Theorem findings_have_missing_tags
    (p : Provider) (account_id : string) (required_tags : list string)
    (completed : list string) (f : Excel.Finding) :
  required_tags ≠ [] →
  f ∈ Excel.all_resources p account_id required_tags completed →
  has_missing_tags required_tags f.
Proof.
  intros Hreq Hf.
  assert (Forall (has_missing_tags required_tags)
            (Excel.all_resources p account_id required_tags completed)) as Hall.
  { unfold Excel.all_resources. apply excel_s3_buckets_has_missing; [done|].
    apply Forall_forall. intros g Hg.
    apply list_elem_of_In, in_flat_map in Hg as (region & _ & Hg).
    apply list_elem_of_In in Hg. revert g Hg. apply Forall_forall.
    unfold Excel.get_resources_missing_tags_in_region.
    apply preserves_try_except;
      [by apply excel_scan_body_has_missing|apply preserves_pass|constructor]. }
  rewrite Forall_forall in Hall. by apply Hall.
Qed.

Lemma findings_have_missing_tags_witness :
  has_missing_tags ["Environment"; "Owner"]
    (worst_case "us-east-1" "123" ["Environment"; "Owner"]
       (LambdaTags Examples.a_function)).
Proof.
  apply (findings_have_missing_tags Examples.lookups_down "123"
           ["Environment"; "Owner"] ["us-east-1"]).
  - discriminate.
  - vm_compute. apply list_elem_of_here.
Defined.

(** ** The required tags *)

Section Blank.






End Blank.



(** ** The frequency tables *)

Section FirstSeen.
Implicit Types (xs : list string) (k x : string).

Lemma first_seen_elem k xs : k ∈ first_seen xs ↔ k ∈ xs.
Proof.
  induction xs as [|x xs IH]; simpl; [done|].
  rewrite !elem_of_cons, list_elem_of_filter, IH.
  destruct (decide (k = x)); tauto.
Qed.

Lemma first_seen_NoDup xs : NoDup (first_seen xs).
Proof.
  induction xs as [|x xs IH]; simpl; [constructor|].
  constructor; [|by apply NoDup_filter].
  rewrite list_elem_of_filter. intros [Hne _]. by apply Hne.
Qed.

Lemma first_seen_snoc xs x :
  first_seen (xs ++ [x])
  = if decide (x ∈ xs) then first_seen xs else first_seen xs ++ [x].
Proof.
  induction xs as [|y xs IH]; cbn [first_seen app].
  - destruct (decide (x ∈ [])) as [Hin|_]; [|done]. by apply elem_of_nil in Hin.
  - rewrite IH. destruct (decide (x ∈ xs)) as [Hin|Hin].
    + destruct (decide (x ∈ y :: xs)) as [_|Hout]; [done|].
      exfalso. apply Hout. by apply list_elem_of_further.
    + rewrite filter_app. destruct (decide (x = y)) as [->|Hne].
      * destruct (decide (y ∈ y :: xs)) as [_|Hout];
          [|exfalso; apply Hout, list_elem_of_here].
        rewrite (filter_cons_False _ y []) by (intros H; by apply H).
        by rewrite app_nil_r.
      * destruct (decide (x ∈ y :: xs)) as [Hin'|_].
        { apply elem_of_cons in Hin' as [?|?]; done. }
        by rewrite (filter_cons_True _ x []).
Qed.

Lemma occurrences_snoc k xs x :
  occurrences k (xs ++ [x])
  = (occurrences k xs + (if decide (x = k) then 1 else 0))%nat.
Proof.
  unfold occurrences. rewrite filter_app, length_app. f_equal.
  destruct (decide (x = k)).
  - by rewrite filter_cons_True.
  - by rewrite filter_cons_False.
Qed.

Lemma occurrences_absent k xs : k ∉ xs → occurrences k xs = 0%nat.
Proof.
  intros Hk. unfold occurrences. induction xs as [|x xs IH]; [done|].
  apply not_elem_of_cons in Hk as [Hne Hk].
  rewrite filter_cons_False by (intros ->; by apply Hne). by apply IH.
Qed.

Lemma occurrences_perm k xs ys : xs ≡ₚ ys → occurrences k xs = occurrences k ys.
Proof. intros H. unfold occurrences. by rewrite H. Qed.

(** Two keys in this order among the first-seen ones: the first is seen
    before the second. *)
Lemma first_seen_order k1 k2 xs :
  [k1; k2] `sublist_of` first_seen xs → first_seen_before k1 k2 xs.
Proof.
  induction xs as [|x xs IH]; simpl; intros Hsub.
  - by apply sublist_nil_r in Hsub.
  - apply sublist_cons_r in Hsub as [Hsub|(l' & Heq & Hsub)].
    + assert (k1 ≠ x ∧ k2 ≠ x) as [H1 H2].
      { split.
        - assert (k1 ∈ filter (λ y, y ≠ x) (first_seen xs)) as Hin.
          { eapply elem_of_sublist; [|exact Hsub]. apply list_elem_of_here. }
          apply list_elem_of_filter in Hin. tauto.
        - assert (k2 ∈ filter (λ y, y ≠ x) (first_seen xs)) as Hin.
          { eapply elem_of_sublist; [|exact Hsub].
            apply list_elem_of_further, list_elem_of_here. }
          apply list_elem_of_filter in Hin. tauto. }
      destruct IH as (pre & post & -> & Hk1 & Hk2).
      { etrans; [exact Hsub|apply sublist_filter]. }
      exists (x :: pre), post. rewrite !not_elem_of_cons. done.
    + injection Heq as -> _.
      exists [], xs. split; [done|]. split; apply not_elem_of_nil.
Qed.
End FirstSeen.

Section CounterFacts.

Lemma incr_map (fs : list string) (cnt : string → nat) (x : string) :
  NoDup fs →
  Analysis.incr x (map (λ k, (k, cnt k)) fs)
  = if decide (x ∈ fs)
    then map (λ k, (k, if decide (k = x) then S (cnt k) else cnt k)) fs
    else map (λ k, (k, cnt k)) fs ++ [(x, 1%nat)].
Proof.
  induction 1 as [|y fs Hy Hfs IH]; cbn [map Analysis.incr].
  - destruct (decide (x ∈ [])) as [Hin|_]; [|done]. by apply elem_of_nil in Hin.
  - destruct (decide (x = y)) as [->|Hne].
    + destruct (decide (y ∈ y :: fs)) as [_|Hout];
        [|exfalso; apply Hout, list_elem_of_here].
      cbn [map]. destruct (decide (y = y)); [|done]. f_equal.
      apply map_ext_in. intros k Hk%list_elem_of_In.
      destruct (decide (k = y)) as [->|]; done.
    + rewrite IH. destruct (decide (x ∈ fs)) as [Hin|Hin].
      * destruct (decide (x ∈ y :: fs)) as [_|Hout];
          [|exfalso; by apply Hout, list_elem_of_further].
        cbn [map]. destruct (decide (y = x)) as [->|]; done.
      * destruct (decide (x ∈ y :: fs)) as [Hin'|_]; [|done].
        apply elem_of_cons in Hin' as [?|?]; done.
Qed.

(** The items of a [Counter]: the distinct keys in the order in which
    they are first seen, each with the number of its occurrences. *)
Lemma Counter_items (xs : list string) :
  Analysis.Counter xs = map (λ k, (k, occurrences k xs)) (first_seen xs).
Proof.
  induction xs as [|x xs IH] using rev_ind; [done|].
  unfold Analysis.Counter in *. rewrite fold_left_app. cbn [fold_left]. rewrite IH.
  rewrite incr_map by apply first_seen_NoDup. rewrite first_seen_snoc.
  destruct (decide (x ∈ xs)) as [Hin|Hin].
  - destruct (decide (x ∈ first_seen xs)) as [_|Hout];
      [|exfalso; by apply Hout, first_seen_elem].
    apply map_ext. intros k. rewrite occurrences_snoc.
    destruct (decide (k = x)) as [->|Hne].
    + destruct (decide (x = x)); [|done]. f_equal. lia.
    + destruct (decide (x = k)) as [->|]; [done|]. f_equal. lia.
  - destruct (decide (x ∈ first_seen xs)) as [Hin'|_];
      [exfalso; apply Hin; by apply first_seen_elem|].
    rewrite map_app. cbn [map]. f_equal.
    + apply map_ext_in. intros k Hk%list_elem_of_In.
      rewrite first_seen_elem in Hk. rewrite occurrences_snoc.
      destruct (decide (x = k)) as [->|]; [contradiction|]. f_equal. lia.
    + rewrite occurrences_snoc, occurrences_absent by done.
      by destruct (decide (x = x)).
Qed.

End CounterFacts.

Section MostCommon.
Implicit Types (x : string * nat) (c : Analysis.counter).

Lemma insert_desc_perm x c : Analysis.insert_desc x c ≡ₚ x :: c.
Proof.
  induction c as [|y c IH]; simpl; [done|].
  destruct (Nat.leb y.2 x.2); [done|]. rewrite IH. apply perm_swap.
Qed.

Lemma most_common_perm c : Analysis.most_common c ≡ₚ c.
Proof.
  induction c as [|x c IH]; simpl; [done|].
  rewrite insert_desc_perm. by rewrite IH.
Qed.

Lemma insert_desc_sorted x c :
  StronglySorted count_desc c → StronglySorted count_desc (Analysis.insert_desc x c).
Proof.
  induction 1 as [|y c Hc IH Hy]; simpl.
  - repeat constructor.
  - destruct (Nat.leb_spec y.2 x.2) as [Hle|Hgt].
    + constructor; [by constructor|]. constructor; [done|].
      eapply Forall_impl; [exact Hy|]. unfold count_desc. intros z Hz. lia.
    + constructor; [done|]. rewrite insert_desc_perm.
      constructor; [unfold count_desc; lia|done].
Qed.

Lemma most_common_sorted c : StronglySorted count_desc (Analysis.most_common c).
Proof.
  induction c as [|x c IH]; simpl; [constructor|]. by apply insert_desc_sorted.
Qed.

(** The sort is stable: the items of one count keep their order. *)
Lemma insert_desc_stable (n : nat) x c :
  filter (λ y, y.2 = n) (Analysis.insert_desc x c) = filter (λ y, y.2 = n) (x :: c).
Proof.
  induction c as [|y c IH]; simpl; [done|].
  destruct (Nat.leb_spec y.2 x.2) as [Hle|Hgt]; [done|].
  destruct (decide (y.2 = n)) as [Hy|Hy].
  - rewrite (filter_cons_True _ y) by done. rewrite IH.
    rewrite (filter_cons_False _ x) by lia.
    rewrite (filter_cons_False _ x) by lia. by rewrite filter_cons_True.
  - rewrite (filter_cons_False _ y) by done. rewrite IH.
    destruct (decide (x.2 = n)) as [Hx|Hx].
    + rewrite !(filter_cons_True _ x) by done. by rewrite filter_cons_False.
    + rewrite !(filter_cons_False _ x) by done. by rewrite filter_cons_False.
Qed.

Lemma most_common_stable (n : nat) c :
  filter (λ y, y.2 = n) (Analysis.most_common c) = filter (λ y, y.2 = n) c.
Proof.
  induction c as [|x c IH]; simpl; [done|].
  rewrite insert_desc_stable.
  destruct (decide (x.2 = n)).
  - rewrite !filter_cons_True by done. by rewrite IH.
  - rewrite !filter_cons_False by done. by rewrite IH.
Qed.

Lemma sublist_filter_mono {A} (P : A → Prop) `{!∀ a, Decision (P a)} (l1 l2 : list A) :
  l1 `sublist_of` l2 → filter P l1 `sublist_of` filter P l2.
Proof.
  induction 1 as [|a l1 l2 _ IH|a l1 l2 _ IH]; [done| |].
  - destruct (decide (P a)).
    + rewrite !filter_cons_True by done. by constructor.
    + by rewrite !filter_cons_False.
  - destruct (decide (P a)).
    + rewrite filter_cons_True by done. by constructor.
    + by rewrite filter_cons_False.
Qed.

(** Two items of one count, in this order after the sort, were in this
    order before it. *)
Lemma most_common_ties (a b : string * nat) c :
  a.2 = b.2 → [a; b] `sublist_of` Analysis.most_common c → [a; b] `sublist_of` c.
Proof.
  intros Hab Hsub.
  apply (sublist_filter_mono (λ y, y.2 = a.2)) in Hsub.
  rewrite most_common_stable in Hsub.
  rewrite filter_cons_True, filter_cons_True in Hsub by done.
  etrans; [exact Hsub|apply sublist_filter].
Qed.

End MostCommon.

Section ByType.
Variable resources : list Analysis.Row.

Lemma map_fst_pairs {A B} (f : A → B) (l : list A) :
  (map (λ a, (a, f a)) l).*1 = l.
Proof. induction l as [|a l IH]; [done|]. cbn. f_equal. exact IH. Qed.

Lemma by_type_perm :
  Analysis.resources_by_type resources
  ≡ₚ map (λ k, (k, occurrences k (map Excel.Resource resources)))
       (first_seen (map Excel.Resource resources)).
Proof.
  unfold Analysis.resources_by_type.
  rewrite most_common_perm. by rewrite Counter_items.
Qed.

Lemma by_type_keys : NoDup (Analysis.resources_by_type resources).*1.
Proof. rewrite by_type_perm, map_fst_pairs. apply first_seen_NoDup. Qed.

Lemma by_type_counts (k : string) (n : nat) :
  (k, n) ∈ Analysis.resources_by_type resources
  ↔ k ∈ map Excel.Resource resources
    ∧ n = occurrences k (map Excel.Resource resources).
Proof.
  rewrite by_type_perm, list_elem_of_In, in_map_iff. split.
  - intros (k' & [= -> ->] & Hin%list_elem_of_In).
    rewrite first_seen_elem in Hin. done.
  - intros [Hin ->]. exists k. split; [done|].
    apply list_elem_of_In. by rewrite first_seen_elem.
Qed.

Lemma by_type_ties (k1 k2 : string) (n : nat) :
  [(k1, n); (k2, n)] `sublist_of` Analysis.resources_by_type resources →
  first_seen_before k1 k2 (map Excel.Resource resources).
Proof.
  intros Hsub. apply most_common_ties in Hsub; [|done].
  rewrite Counter_items in Hsub.
  apply first_seen_order.
  apply (fmap_sublist fst) in Hsub. by rewrite map_fst_pairs in Hsub.
Qed.

Lemma by_type_three_two :
  map Excel.Resource resources
    ≡ₚ ["EC2 Instance"; "EC2 Instance"; "EC2 Instance"; "VPC"; "VPC"] →
  Analysis.resources_by_type resources = [("EC2 Instance", 3%nat); ("VPC", 2%nat)].
Proof.
  intros Hperm.
  assert (∀ k n, (k, n) ∈ Analysis.resources_by_type resources
                 ↔ (k, n) ∈ [("EC2 Instance", 3%nat); ("VPC", 2%nat)]) as Hel.
  { intros k n. rewrite by_type_counts, (occurrences_perm k _ _ Hperm), Hperm.
    rewrite !elem_of_cons, !elem_of_nil. split.
    - intros [Hk ->]. destruct Hk as [->|[->|[->|[->|[->|[]]]]]]; vm_compute; tauto.
    - intros [[= -> ->]|[[= -> ->]|[]]]; vm_compute; tauto. }
  pose proof by_type_keys as Hkeys.
  pose proof (most_common_sorted (Analysis.Counter (map Excel.Resource resources)))
    as Hsorted.
  fold (Analysis.resources_by_type resources) in Hsorted.
  assert (Analysis.resources_by_type resources
          ≡ₚ [("EC2 Instance", 3%nat); ("VPC", 2%nat)]) as Htable.
  { apply NoDup_Permutation.
    - eapply NoDup_fmap_1, Hkeys.
    - repeat constructor; rewrite ?elem_of_cons, ?elem_of_nil; intros H;
        repeat destruct H as [H|H]; done.
    - intros [k n]. apply Hel. }
  pose proof (Permutation_length Htable) as Hlen.
  destruct (Analysis.resources_by_type resources) as [|a [|b [|? ?]]];
    try discriminate Hlen.
  assert (a ∈ [("EC2 Instance", 3%nat); ("VPC", 2%nat)]) as Ha.
  { rewrite <- Htable. apply list_elem_of_here. }
  assert (b ∈ [("EC2 Instance", 3%nat); ("VPC", 2%nat)]) as Hb.
  { rewrite <- Htable. apply list_elem_of_further, list_elem_of_here. }
  rewrite !elem_of_cons, !elem_of_nil in Ha, Hb.
  inversion Hsorted as [|? ? _ Hhd]; subst.
  apply Forall_cons in Hhd as [Hab _]. unfold count_desc in Hab.
  simpl in Hkeys. apply NoDup_cons in Hkeys as [Hne _].
  rewrite list_elem_of_singleton in Hne.
  destruct Ha as [->|[->|[]]], Hb as [->|[->|[]]]; simpl in *; try lia; done.
Qed.
End ByType.

(** C8. The table of the findings by resource kind lists every kind of
    the dataset once with its number of findings, greatest count first, and
    kinds of equal count in the order in which they first appear in the
    dataset; a dataset with three findings of kind EC2 Instance and two of
    kind VPC gives EC2 Instance: 3 before VPC: 2. *)
Theorem resources_by_type_is_sorted_frequency_table (resources : list Analysis.Row) :
  NoDup (Analysis.resources_by_type resources).*1
  ∧ (∀ k n, (k, n) ∈ Analysis.resources_by_type resources
            ↔ k ∈ map Excel.Resource resources
              ∧ n = occurrences k (map Excel.Resource resources))
  ∧ StronglySorted count_desc (Analysis.resources_by_type resources)
  ∧ (∀ k1 k2 n,
       [(k1, n); (k2, n)] `sublist_of` Analysis.resources_by_type resources →
       first_seen_before k1 k2 (map Excel.Resource resources))
  ∧ (map Excel.Resource resources
       ≡ₚ ["EC2 Instance"; "EC2 Instance"; "EC2 Instance"; "VPC"; "VPC"] →
     Analysis.resources_by_type resources
     = [("EC2 Instance", 3%nat); ("VPC", 2%nat)]).
Proof.
  split; [apply by_type_keys|].
  split; [apply by_type_counts|].
  split; [apply most_common_sorted|].
  split; [apply by_type_ties|apply by_type_three_two].
Qed.

Lemma resources_by_type_is_sorted_frequency_table_witness :
  Analysis.resources_by_type AnalysisExamples.dataset
  = [("EC2 Instance", 3%nat); ("VPC", 2%nat)].
Proof.
  apply (resources_by_type_is_sorted_frequency_table AnalysisExamples.dataset).
  change (map Excel.Resource AnalysisExamples.dataset)
    with ("VPC" :: ["EC2 Instance"; "EC2 Instance"; "VPC"; "EC2 Instance"]).
  etrans;
    [|apply (Permutation_middle
               ["EC2 Instance"; "EC2 Instance"; "EC2 Instance"] ["VPC"] "VPC")].
  do 3 apply perm_skip. apply perm_swap.
Defined.


(** ** Joining and splitting the missing tags *)

Section SplitJoin.

Lemma string_app_cons (x : ascii) (a b : string) :
  (String x a ++ b)%string = String x (a ++ b).
Proof. reflexivity. Qed.

Lemma string_app_nil_l (a : string) : ("" ++ a)%string = a.
Proof. reflexivity. Qed.

Lemma string_app_assoc (a b c : string) : ((a ++ b) ++ c = a ++ (b ++ c))%string.
Proof.
  induction a as [|x a IH]; [done|]. by rewrite !string_app_cons, IH.
Qed.

Lemma string_app_nil_r (a : string) : (a ++ "")%string = a.
Proof.
  induction a as [|x a IH]; [done|]. by rewrite string_app_cons, IH.
Qed.

(** The separator is at the head of a text. *)
Lemma prefix_comma_space (c : ascii) (s : string) :
  String.prefix ", " (String c s)
  = Ascii.eqb c "," && match s with String " " _ => true | _ => false end.
Proof.
  cbn [String.prefix].
  destruct (ascii_dec "," c) as [<-|Hc].
  - destruct s as [|c' s']; [done|].
    destruct (ascii_dec " " c') as [<-|Hc']; [by destruct s'|].
    destruct (Ascii.eqb_spec c' " ") as [->|_]; [done|].
    cbn. by destruct c' as [[] [] [] [] [] [] [] []].
  - destruct (Ascii.eqb_spec c ",") as [->|_]; done.
Qed.

(** A tag name without a comma and a space, followed by the separator:
    the name is the first piece. *)
Lemma split_name_sep (name rest : string) :
  has_comma_space name = false →
  PyStr.split_from ", " 0 (name ++ ", " ++ rest)%string
  = name :: PyStr.split_from ", " 0 rest.
Proof.
  induction name as [|c name IH]; intros H.
  - rewrite string_app_nil_l.
    change (", " ++ rest)%string with (String "," (String " " rest)).
    cbn [PyStr.split_from]. by rewrite prefix_comma_space.
  - cbn [has_comma_space] in H.
    apply orb_false_elim in H as [Hc Hname].
    specialize (IH Hname).
    rewrite string_app_cons. cbn [PyStr.split_from].
    rewrite prefix_comma_space.
    assert (Ascii.eqb c ","
            && match (name ++ ", " ++ rest)%string with
               | String " " _ => true
               | _ => false
               end = false) as ->.
    { destruct (Ascii.eqb c ","); [|done]. simpl in *.
      destruct name as [|c' name']; [done|]. by rewrite string_app_cons. }
    by rewrite IH.
Qed.

Lemma split_name (name : string) :
  has_comma_space name = false → PyStr.split_from ", " 0 name = [name].
Proof.
  induction name as [|c name IH]; intros H; [done|].
  cbn [has_comma_space] in H.
  apply orb_false_elim in H as [Hc Hname].
  specialize (IH Hname).
  cbn [PyStr.split_from]. rewrite prefix_comma_space, Hc. by rewrite IH.
Qed.

(** Splitting the joined names gives the names back. *)
Lemma split_join (names : list string) :
  names ≠ [] →
  forallb (λ tag, negb (has_comma_space tag)) names = true →
  PyStr.split ", " (PyStr.join ", " names) = names.
Proof.
  intros Hne Hall. unfold PyStr.split, PyStr.join.
  induction names as [|name names IH]; [done|].
  cbn [forallb] in Hall. apply andb_prop in Hall as [Hname Hnames].
  apply negb_true_iff in Hname.
  destruct names as [|name' names'].
  - by apply split_name.
  - change (String.concat ", " (name :: name' :: names'))
      with (name ++ ", " ++ String.concat ", " (name' :: names'))%string.
    rewrite split_name_sep by done.
    f_equal. apply IH; done.
Qed.

End SplitJoin.

(** ** The reader on what the writer wrote *)

Section CsvRoundTrip.

Local Abbreviation P s b fs := (Csv.Build_parser s b fs).

Lemma special_false (c : ascii) :
  Csv.special c = false →
  Ascii.eqb c Csv.DELIMITER = false ∧ Ascii.eqb c Csv.QUOTECHAR = false
  ∧ Ascii.eqb c TextFile.CR = false ∧ Ascii.eqb c TextFile.LF = false.
Proof.
  unfold Csv.special. intros H.
  apply orb_false_elim in H as [H H4]. apply orb_false_elim in H as [H H3].
  apply orb_false_elim in H as [H1 H2]. done.
Qed.

Lemma string_length_app (a b : string) :
  String.length (a ++ b) = (String.length a + String.length b)%nat.
Proof.
  induction a as [|x a IH]; [done|]. rewrite string_app_cons. cbn [String.length].
  by rewrite IH.
Qed.

(** A part of a cell within the limit is within the limit. *)
Lemma within_limit_app_l (a b : string) :
  within_limit (a ++ b) = true → within_limit a = true.
Proof.
  unfold within_limit. rewrite !N.leb_le, string_length_app. lia.
Qed.

(** A character is added to a field that stays within the limit. *)
Lemma add_char_within (s0 s : Csv.state) (b : string) (fs : list string) (c : ascii) :
  within_limit (b ++ String c "") = true →
  Csv.add_char (P s0 b fs) c s = Returned (P s (b ++ String c "") fs).
Proof.
  unfold within_limit, Csv.add_char. cbn [Csv.field Csv.fields].
  rewrite N.leb_le, string_length_app. cbn [String.length]. intros H.
  destruct (N.leb_spec Csv.field_size_limit (N.of_nat (String.length b))); [lia|done].
Qed.

Lemma snoc_app (b : string) (c : ascii) (f : string) :
  ((b ++ String c "") ++ f)%string = (b ++ String c f)%string.
Proof. by rewrite string_app_assoc. Qed.

(** An ordinary character at the start of a field or inside one. *)
Lemma run_ordinary (s0 : Csv.state) (c : ascii) (b : string) (fs : list string)
    (R : string) :
  Csv.special c = false →
  s0 = Csv.START_RECORD ∨ s0 = Csv.START_FIELD ∨ s0 = Csv.IN_FIELD →
  within_limit (b ++ String c "") = true →
  run (P s0 b fs) (String c R) = run (P Csv.IN_FIELD (b ++ String c "") fs) R.
Proof.
  intros (Hd & Hq & Hcr & Hlf)%special_false Hs0 Hb.
  cbn [run]. unfold Csv.process_char, Csv.start_field, Csv.is_newline.
  destruct Hs0 as [->|[->| ->]]; cbn [Csv.st]; rewrite ?Hlf, ?Hcr, ?Hq, ?Hd;
    cbn [orb]; by rewrite add_char_within.
Qed.

Lemma run_plain (f b : string) (fs : list string) (R : string) :
  Csv.needs_quotes f = false →
  within_limit (b ++ f) = true →
  run (P Csv.IN_FIELD b fs) (f ++ R) = run (P Csv.IN_FIELD (b ++ f) fs) R.
Proof.
  revert b. induction f as [|c f IH]; intros b H Hb.
  - by rewrite string_app_nil_r.
  - cbn [Csv.needs_quotes] in H. apply orb_false_elim in H as [Hc Hf].
    rewrite <- snoc_app in Hb.
    rewrite string_app_cons, run_ordinary
      by (auto || by apply within_limit_app_l in Hb).
    rewrite IH by done. by rewrite snoc_app.
Qed.

(** The inside of a quoted field. *)
Lemma run_quoted_body (f b : string) (fs : list string) (R : string) :
  within_limit (b ++ f) = true →
  run (P Csv.IN_QUOTED_FIELD b fs) (Csv.doubled f ++ R)
  = run (P Csv.IN_QUOTED_FIELD (b ++ f) fs) R.
Proof.
  revert b. induction f as [|c f IH]; intros b Hb.
  - by rewrite string_app_nil_r.
  - cbn [Csv.doubled]. rewrite <- snoc_app in Hb |- *.
    pose proof (within_limit_app_l _ _ Hb) as Hc.
    destruct (Ascii.eqb c Csv.QUOTECHAR) eqn:Hq.
    + apply Ascii.eqb_eq in Hq as ->.
      rewrite !string_app_cons. cbn [run].
      unfold Csv.process_char. cbn [Csv.st Csv.goto].
      change (Ascii.eqb Csv.QUOTECHAR Csv.QUOTECHAR) with true.
      change (Ascii.eqb Csv.QUOTECHAR TextFile.LF) with false.
      cbn iota. cbn [run]. unfold Csv.process_char. cbn [Csv.st Csv.goto].
      change (Ascii.eqb Csv.QUOTECHAR Csv.QUOTECHAR) with true.
      change (Ascii.eqb Csv.QUOTECHAR TextFile.LF) with false.
      cbn iota. unfold Csv.goto. cbn [Csv.field Csv.fields].
      rewrite add_char_within by done. by apply IH.
    + rewrite string_app_cons. cbn [run].
      unfold Csv.process_char. cbn [Csv.st]. rewrite Hq.
      rewrite add_char_within by done.
      destruct (Ascii.eqb c TextFile.LF).
      * cbn [Csv.st]. rewrite decide_False by done. by apply IH.
      * by apply IH.
Qed.

Lemma run_field (s0 : Csv.state) (f : string) (fs : list string) (R : string) :
  s0 = Csv.START_RECORD ∨ s0 = Csv.START_FIELD →
  within_limit f = true →
  run (P s0 "" fs) (Csv.write_field f ++ R) = run (P (after f s0) f fs) R.
Proof.
  intros Hs0 Hlim. unfold Csv.write_field, after.
  destruct (Csv.needs_quotes f) eqn:Hf.
  - rewrite string_app_cons, string_app_assoc, string_app_cons, string_app_nil_l.
    cbn [run]. unfold Csv.process_char, Csv.start_field.
    destruct Hs0 as [->| ->]; cbn [Csv.st];
      change (Csv.is_newline Csv.QUOTECHAR) with false;
      change (Ascii.eqb Csv.QUOTECHAR Csv.QUOTECHAR) with true;
      change (Ascii.eqb Csv.QUOTECHAR TextFile.LF) with false;
      cbn iota; unfold Csv.goto; cbn [Csv.field Csv.fields];
      rewrite run_quoted_body by done; rewrite string_app_nil_l;
      cbn [run]; unfold Csv.process_char; cbn [Csv.st Csv.goto];
      change (Ascii.eqb Csv.QUOTECHAR Csv.QUOTECHAR) with true;
      change (Ascii.eqb Csv.QUOTECHAR TextFile.LF) with false;
      cbn iota; reflexivity.
  - destruct f as [|c f]; [done|].
    cbn [Csv.needs_quotes] in Hf. apply orb_false_elim in Hf as [Hc Hf].
    assert (within_limit ("" ++ String c "") = true) as Hc1.
    { rewrite string_app_nil_l. by apply (within_limit_app_l (String c "") f). }
    rewrite string_app_cons, run_ordinary by tauto.
    rewrite string_app_nil_l. by rewrite run_plain.
Qed.

Lemma after_closes (f : string) (s0 : Csv.state) :
  s0 = Csv.START_FIELD → closes (after f s0).
Proof. intros ->. unfold after, closes. destruct (Csv.needs_quotes f), f; tauto. Qed.

(** A delimiter after a field. *)
Lemma run_delimiter (s : Csv.state) (b : string) (fs : list string) (R : string) :
  s = Csv.START_RECORD ∨ closes s →
  run (P s b fs) (String Csv.DELIMITER R) = run (P Csv.START_FIELD "" (fs ++ [b])) R.
Proof.
  intros [->|[->|[->| ->]]]; reflexivity.
Qed.

(** A line end after a field. *)
Lemma run_terminator (s : Csv.state) (b : string) (fs : list string) (R : string) :
  closes s →
  run (P s b fs) (String TextFile.LF R)
  = match run Csv.reset R with
    | Returned rows => Returned ((fs ++ [b]) :: rows)
    | Raised => Raised
    end.
Proof.
  intros [->|[->| ->]]; reflexivity.
Qed.


(** The fields of a row, then the line end. *)
Lemma run_fields (row : list string) (s0 : Csv.state) (fs : list string) (R : string) :
  row ≠ [] →
  s0 = Csv.START_FIELD ∨ (s0 = Csv.START_RECORD ∧ 2 ≤ length row)%nat →
  forallb within_limit row = true →
  run (P s0 "" fs)
    (PyStr.join (String Csv.DELIMITER "") (map Csv.write_field row)
     ++ String TextFile.LF R)
  = match run Csv.reset R with
    | Returned rows => Returned ((fs ++ row) :: rows)
    | Raised => Raised
    end.
Proof.
  revert s0 fs. induction row as [|f row IH]; intros s0 fs Hne Hs0 Hlim; [done|].
  cbn [forallb] in Hlim. apply andb_prop in Hlim as [Hf Hlim].
  destruct row as [|f2 row].
  - destruct Hs0 as [->|[_ Hlen]]; [|simpl in Hlen; lia].
    unfold PyStr.join. cbn [map String.concat].
    rewrite run_field by tauto.
    apply run_terminator. by apply after_closes.
  - unfold PyStr.join in *. cbn [map] in *.
    change (String.concat (String Csv.DELIMITER "")
              (Csv.write_field f :: Csv.write_field f2 :: map Csv.write_field row))
      with (Csv.write_field f
            ++ String Csv.DELIMITER ""
            ++ String.concat (String Csv.DELIMITER "")
                 (Csv.write_field f2 :: map Csv.write_field row))%string.
    rewrite !string_app_assoc, string_app_cons, string_app_nil_l.
    rewrite run_field by tauto.
    rewrite run_delimiter.
    + rewrite IH by (done || tauto). by rewrite <- app_assoc.
    + destruct Hs0 as [->|[-> _]].
      * right. by apply after_closes.
      * unfold after, closes.
        destruct (Csv.needs_quotes f), f; tauto.
Qed.

Lemma concat_empty_cons (x : string) (xs : list string) :
  String.concat "" (x :: xs) = (x ++ String.concat "" xs)%string.
Proof.
  destruct xs as [|y ys]; cbn [String.concat]; [by rewrite string_app_nil_r|done].
Qed.

(** The rows of a file in which every line ends with LF. *)
Lemma run_rows (rows : list (list string)) :
  Forall (λ row, (2 ≤ length row)%nat ∧ forallb within_limit row = true) rows →
  run Csv.reset
    (String.concat "" (map (λ row, line_of row ++ String TextFile.LF "")%string rows))
  = Returned rows.
Proof.
  induction 1 as [|row rows [Hrow Hlim] _ IH]; [reflexivity|].
  assert (String.concat ""
            (map (λ row, line_of row ++ String TextFile.LF "")%string (row :: rows))
          = (line_of row
             ++ String TextFile.LF
                  (String.concat ""
                     (map (λ row, line_of row ++ String TextFile.LF "")%string rows)))%string)
    as ->.
  { cbn [map]. by rewrite concat_empty_cons, string_app_assoc. }
  assert (line_of row
          = PyStr.join (String Csv.DELIMITER "") (map Csv.write_field row)) as ->.
  { destruct row as [|f [|f2 row]]; simpl in Hrow; [lia|lia|by destruct f]. }
  rewrite (run_fields row Csv.START_RECORD []).
  - by rewrite IH.
  - intros ->. simpl in Hrow. lia.
  - right. done.
  - done.
Qed.

(** *** From the lines to the characters *)

Lemma lines_nonempty (c : ascii) (s : string) : TextFile.lines (String c s) ≠ [].
Proof.
  cbn [TextFile.lines]. destruct (Ascii.eqb c TextFile.LF); [done|].
  by destruct (TextFile.lines s).
Qed.

Lemma reader_run (s : string) (p : Csv.parser) :
  ends_lf s = true → Csv.reader_from p (TextFile.lines s) = run p s.
Proof.
  revert p. induction s as [|c s IH]; intros p Hs; [done|].
  cbn [TextFile.lines run].
  destruct (Ascii.eqb c TextFile.LF) eqn:Hc.
  - cbn [Csv.reader_from Csv.process_line].
    destruct (Csv.process_char p (Some c)) as [|p1]; [done|].
    destruct (Csv.process_char p1 None) as [|p2]; [done|].
    assert (ends_lf s = true) as Hs' by (by destruct s).
    destruct (decide (Csv.st p2 = Csv.START_RECORD)); by rewrite IH.
  - destruct s as [|c' s'].
    { cbn [ends_lf] in Hs. congruence. }
    assert (ends_lf (String c' s') = true) as Hs' by done.
    pose proof (lines_nonempty c' s') as Hne.
    specialize (IH).
    destruct (TextFile.lines (String c' s')) as [|l ls] eqn:E; [done|].
    cbn [Csv.reader_from Csv.process_line].
    destruct (Csv.process_char p (Some c)) as [|p1]; [done|].
    rewrite <- (IH p1 Hs'). reflexivity.
Qed.


(** *** The line ends of the file *)

Lemma no_cr_app (a b : string) : no_cr (a ++ b) = no_cr a && no_cr b.
Proof.
  induction a as [|c a IH]; [done|].
  rewrite string_app_cons. cbn [no_cr]. by rewrite IH, andb_assoc.
Qed.

Lemma no_cr_doubled (f : string) : no_cr (Csv.doubled f) = no_cr f.
Proof.
  induction f as [|c f IH]; [done|]. cbn [Csv.doubled no_cr].
  destruct (Ascii.eqb c Csv.QUOTECHAR) eqn:Hq.
  - apply Ascii.eqb_eq in Hq as ->. cbn [no_cr]. by rewrite IH.
  - cbn [no_cr]. by rewrite IH.
Qed.

Lemma no_cr_write_field (f : string) : no_cr f = true → no_cr (Csv.write_field f) = true.
Proof.
  intros Hf. unfold Csv.write_field. destruct (Csv.needs_quotes f); [|done].
  cbn [no_cr]. by rewrite no_cr_app, no_cr_doubled, Hf.
Qed.

Lemma no_cr_line_of (row : list string) :
  forallb no_cr row = true → no_cr (line_of row) = true.
Proof.
  intros Hrow.
  assert (no_cr (PyStr.join (String Csv.DELIMITER "") (map Csv.write_field row)) = true)
    as Hjoin.
  { unfold PyStr.join. induction row as [|f row IH]; [done|].
    cbn [forallb] in Hrow. apply andb_prop in Hrow as [Hf Hrow].
    specialize (IH Hrow). cbn [map]. destruct row as [|f2 row].
    - by apply no_cr_write_field.
    - cbn [map String.concat] in *.
      by rewrite !no_cr_app, no_cr_write_field, IH. }
  destruct row as [|f row]; [done|]. destruct f, row; first [exact Hjoin|reflexivity].
Qed.

Lemma universal_newlines_line (x rest : string) :
  no_cr x = true →
  TextFile.universal_newlines (x ++ Csv.LINETERMINATOR ++ rest)
  = (x ++ String TextFile.LF (TextFile.universal_newlines rest))%string.
Proof.
  induction x as [|c x IH]; intros Hx; [done|].
  cbn [no_cr] in Hx. apply andb_prop in Hx as [Hc Hx].
  apply negb_true_iff in Hc.
  rewrite !string_app_cons. cbn [TextFile.universal_newlines].
  rewrite Hc. by rewrite IH.
Qed.

Lemma writerow_line (row : list string) :
  Csv.writerow row = (line_of row ++ Csv.LINETERMINATOR)%string.
Proof. destruct row as [|[|c f] [|f2 row]]; reflexivity. Qed.

Lemma universal_newlines_writerows (rows : list (list string)) :
  Forall (λ row, forallb no_cr row = true) rows →
  TextFile.universal_newlines (Csv.writerows rows)
  = String.concat "" (map (λ row, line_of row ++ String TextFile.LF "")%string rows).
Proof.
  unfold Csv.writerows.
  induction 1 as [|row rows Hrow _ IH]; [done|].
  cbn [map]. rewrite !concat_empty_cons, writerow_line, string_app_assoc.
  rewrite universal_newlines_line by (by apply no_cr_line_of).
  by rewrite IH, string_app_assoc.
Qed.

Lemma ends_lf_line (x rest : string) :
  ends_lf rest = true → ends_lf (x ++ String TextFile.LF rest) = true.
Proof.
  intros Hrest. induction x as [|c x IH].
  - rewrite string_app_nil_l. by destruct rest.
  - rewrite string_app_cons. cbn [ends_lf].
    destruct (x ++ String TextFile.LF rest)%string eqn:E; [|done].
    by destruct x.
Qed.

Lemma ends_lf_rows (rows : list (list string)) :
  ends_lf
    (String.concat "" (map (λ row, line_of row ++ String TextFile.LF "")%string rows))
  = true.
Proof.
  induction rows as [|row rows IH]; [done|].
  cbn [map]. rewrite concat_empty_cons, string_app_assoc. by apply ends_lf_line.
Qed.

Lemma forallb_storable (row : list string) :
  forallb storable row = true →
  forallb no_cr row = true ∧ forallb within_limit row = true.
Proof.
  rewrite !forallb_forall. intros H.
  split; intros cell Hcell; apply H in Hcell; unfold storable in Hcell;
    by apply andb_prop in Hcell as [? ?].
Qed.

(** The reader gives back the rows the writer wrote, when every row has
    two fields or more and no field has a carriage return or is over the
    limit. *)
Lemma reader_writerows (rows : list (list string)) :
  Forall (λ row, 2 ≤ length row)%nat rows →
  Forall (λ row, forallb storable row = true) rows →
  Csv.reader (TextFile.iter (Csv.writerows rows)) = Returned rows.
Proof.
  intros Hlen Hst. unfold Csv.reader, TextFile.iter.
  rewrite universal_newlines_writerows
    by (eapply Forall_impl; [exact Hst|]; by intros row [? ?]%forallb_storable).
  rewrite reader_run by apply ends_lf_rows.
  apply run_rows. rewrite Forall_forall in *. intros row Hrow.
  split; [by apply Hlen|]. by apply (forallb_storable row), Hst.
Qed.

End CsvRoundTrip.

(** ** The limit on the size of a field *)

Section FieldLimit.

Lemma add_char_bounded (p p' : Csv.parser) (c : ascii) (s : Csv.state) :
  bounded p → Csv.add_char p c s = Returned p' → bounded p'.
Proof.
  intros [Hf Hfs]. unfold Csv.add_char.
  destruct (N.leb_spec Csv.field_size_limit (N.of_nat (String.length (Csv.field p))))
    as [|Hlt]; [done|].
  intros [= <-]. split; [|done]. cbn [Csv.field]. unfold within_limit.
  rewrite string_length_app. cbn [String.length]. apply N.leb_le. lia.
Qed.

Lemma save_field_bounded (p : Csv.parser) (s : Csv.state) :
  bounded p → bounded (Csv.save_field p s).
Proof.
  intros [Hf Hfs]. split; [done|]. cbn [Csv.fields Csv.save_field].
  apply Forall_app. split; [done|]. by constructor.
Qed.

Lemma goto_bounded (p : Csv.parser) (s : Csv.state) : bounded p → bounded (Csv.goto p s).
Proof. by intros [Hf Hfs]. Qed.

Lemma start_field_bounded (p p' : Csv.parser) (c : option ascii) :
  bounded p → Csv.start_field p c = Returned p' → bounded p'.
Proof.
  intros Hp. unfold Csv.start_field.
  repeat case_match; try (intros [= <-]);
    eauto using add_char_bounded, save_field_bounded, goto_bounded.
Qed.

Lemma process_char_bounded (p p' : Csv.parser) (c : option ascii) :
  bounded p → Csv.process_char p c = Returned p' → bounded p'.
Proof.
  intros Hp. unfold Csv.process_char.
  repeat case_match; try (intros [= <-]); try done;
    eauto using add_char_bounded, save_field_bounded, goto_bounded, start_field_bounded.
Qed.

Lemma process_line_bounded (line : string) (p p' : Csv.parser) :
  bounded p → Csv.process_line p line = Returned p' → bounded p'.
Proof.
  revert p. induction line as [|c line IH]; intros p Hp; cbn [Csv.process_line].
  - by apply process_char_bounded.
  - destruct (Csv.process_char p (Some c)) as [|p1] eqn:E; [done|].
    apply IH. by eapply process_char_bounded.
Qed.

Lemma reset_bounded : bounded Csv.reset.
Proof. split; [reflexivity|constructor]. Qed.

(** The reader returns no cell over the limit. *)
Lemma reader_from_bounded (lines : list string) (p : Csv.parser)
    (rows : list (list string)) :
  bounded p → Csv.reader_from p lines = Returned rows →
  Forall (Forall (λ cell, within_limit cell = true)) rows.
Proof.
  revert p rows. induction lines as [|line lines IH]; intros p rows Hp;
    cbn [Csv.reader_from].
  - destruct Hp as [Hf Hfs]. case_match; intros [= <-]; [|constructor].
    constructor; [|constructor]. apply Forall_app. split; [done|]. by constructor.
  - destruct (Csv.process_line p line) as [|p'] eqn:E; [done|].
    pose proof (process_line_bounded _ _ _ Hp E) as Hp'.
    destruct (decide (Csv.st p' = Csv.START_RECORD)).
    + destruct (Csv.reader_from Csv.reset lines) as [|rows'] eqn:E'; [done|].
      intros [= <-]. constructor; [apply Hp'|].
      by apply (IH Csv.reset); [apply reset_bounded|].
    + by apply IH.
Qed.

Lemma to_dict_cells (fieldnames row : list string) :
  dict_cells (Csv.to_dict fieldnames row) `sublist_of` row.
Proof.
  assert ((zip fieldnames row).*2 = take (length fieldnames) row) as Hzip.
  { revert row. induction fieldnames as [|n ns IH]; intros [|x row]; try done.
    cbn. by rewrite <- IH. }
  unfold Csv.to_dict. repeat case_match; cbn [dict_cells]; rewrite Hzip.
  - by rewrite take_drop.
  - apply sublist_take.
  - apply sublist_take.
Qed.

Lemma read_bounded (content : string) (rows : list Csv.dict_row) :
  Analysis.read content = Returned rows →
  Forall (λ d, Forall (λ cell, within_limit cell = true) (dict_cells d)) rows.
Proof.
  unfold Analysis.read, Csv.DictReader, Csv.reader.
  destruct (Csv.reader_from Csv.reset (TextFile.iter content)) as [|all] eqn:E; [done|].
  apply reader_from_bounded in E; [|apply reset_bounded].
  destruct all as [|fieldnames cells]; intros [= <-]; [constructor|].
  apply Forall_cons in E as [_ E].
  apply Forall_map, Forall_forall. intros row [_ Hrow]%list_elem_of_filter.
  rewrite Forall_forall in E. specialize (E row Hrow).
  rewrite Forall_forall in E |- *. intros cell Hcell. apply E.
  by eapply elem_of_sublist, to_dict_cells.
Qed.

Lemma name_of_length_length (n : nat) :
  String.length (DatasetExamples.name_of_length n) = n.
Proof.
  induction n as [|n IH]; [done|].
  cbn [DatasetExamples.name_of_length String.length]. by rewrite IH.
Qed.

Lemma long_name_over_limit : within_limit DatasetExamples.long_name = false.
Proof.
  unfold within_limit, DatasetExamples.long_name.
  rewrite name_of_length_length, N2Nat.id. reflexivity.
Qed.

End FieldLimit.

Section DatasetRoundTrip.

(** The file of a non-empty collection read back. *)
Lemma read_export (rows : list Excel.Finding) :
  Forall (λ f, forallb storable (Dataset.cells f) = true) rows →
  match Dataset.export rows with
  | Some content => Analysis.read content = Returned (map dict_of rows)
  | None => rows = []
  end.
Proof.
  intros Hcr. unfold Dataset.export.
  destruct rows as [|f rows]; [done|]. cbn [nonempty].
  unfold Analysis.read, Csv.DictReader.
  assert ((Csv.writerow Dataset.fieldnames
           ++ Csv.writerows (map Dataset.cells (f :: rows)))%string
          = Csv.writerows (Dataset.fieldnames :: map Dataset.cells (f :: rows))) as ->.
  { unfold Csv.writerows. symmetry.
    exact (concat_empty_cons (Csv.writerow Dataset.fieldnames) _). }
  rewrite reader_writerows.
  - f_equal.
    assert (filter (λ row : list string, row ≠ []) (map Dataset.cells (f :: rows))
            = map Dataset.cells (f :: rows)) as ->.
    { generalize (f :: rows). intros l. induction l as [|g l IH]; [done|].
      cbn [map]. rewrite filter_cons_True by done. by rewrite IH. }
    rewrite map_map. apply map_ext. intros g. reflexivity.
  - constructor; [simpl; lia|].
    apply Forall_forall. intros row Hrow.
    apply list_elem_of_In, in_map_iff in Hrow as (g & <- & _). simpl. lia.
  - constructor; [reflexivity|].
    apply Forall_forall. intros row Hrow.
    apply list_elem_of_In, in_map_iff in Hrow as (g & <- & Hg).
    rewrite Forall_forall in Hcr. apply Hcr. by apply list_elem_of_In.
Qed.

End DatasetRoundTrip.

(** C7, as stated, fails: the split does not give back a tag name that has
    a comma and a space in it, nor the empty sequence of a finding reported
    with no required tag; a cell with a carriage return is read back with a
    line feed; and a cell over the limit of the reader is not read back. *)
Lemma round_trip_fails :
  ¬ round_trip [DatasetExamples.comma_in_name]
  ∧ ¬ round_trip [DatasetExamples.nothing_required]
  ∧ ¬ round_trip [DatasetExamples.carriage_return]
  ∧ ¬ round_trip [DatasetExamples.over_limit].
Proof.
  split; [|split; [|split]]; intros [Hread Hsplit].
  - apply Forall_cons in Hsplit as [Hsplit _]. vm_compute in Hsplit. discriminate Hsplit.
  - apply Forall_cons in Hsplit as [Hsplit _]. vm_compute in Hsplit. discriminate Hsplit.
  - vm_compute in Hread. discriminate Hread.
  - unfold Dataset.export in Hread. cbn [map nonempty] in Hread.
    apply read_bounded, Forall_cons in Hread as [Hrow _].
    unfold dict_of, Dataset.cells, Dataset.fieldnames in Hrow.
    cbn [dict_cells zip zip_with fmap list_fmap snd] in Hrow.
    do 4 apply Forall_cons in Hrow as [_ Hrow]. apply Forall_cons in Hrow as [Hcell _].
    change (within_limit DatasetExamples.long_name = true) in Hcell.
    by rewrite long_name_over_limit in Hcell.
Qed.

(** C7, amended.  Writing the findings to the dataset and reading it back
    gives the same rows, when no cell has a carriage return or more
    characters than the reader accepts in a field; and splitting the
    ['Missing_Tags'] cell of a finding on [", "] gives back its sequence of
    tag names, when the sequence is not empty and no name has a comma
    followed by a space in it.  So the round trip holds for the collections
    of findings that meet both conditions. *)
Theorem dataset_round_trip (reports : list Report) :
  (Forall (λ r, forallb storable (Dataset.cells (row_of r)) = true) reports →
   match Dataset.export (map row_of reports) with
   | Some content => Analysis.read content = Returned (map dict_of (map row_of reports))
   | None => reports = []
   end)
  ∧ Forall (λ r, separable (missing_tags r) = true →
                 PyStr.split ", " (Excel.Missing_Tags (row_of r)) = missing_tags r)
      reports
  ∧ (Forall (λ r, portable r = true) reports → round_trip reports).
Proof.
  assert (Forall (λ r, forallb storable (Dataset.cells (row_of r)) = true) reports →
          match Dataset.export (map row_of reports) with
          | Some content =>
              Analysis.read content = Returned (map dict_of (map row_of reports))
          | None => reports = []
          end) as Hrows.
  { intros Hall. pose proof (read_export (map row_of reports)) as Hread.
    assert (Forall (λ f, forallb storable (Dataset.cells f) = true)
              (map row_of reports)) as Hall' by (by apply Forall_map).
    destruct (Dataset.export (map row_of reports)) as [content|]; [by apply Hread|].
    destruct reports as [|r reports]; [done|]. by discriminate Hread. }
  assert (Forall (λ r, separable (missing_tags r) = true →
                       PyStr.split ", " (Excel.Missing_Tags (row_of r)) = missing_tags r)
            reports) as Hsplit.
  { apply Forall_forall. intros r _ Hr. unfold separable in Hr.
    apply andb_prop in Hr as [Hne Hnames].
    apply split_join; [|done]. by destruct (missing_tags r). }
  split; [exact Hrows|]. split; [exact Hsplit|].
  intros Hall. split.
  - apply Hrows. eapply Forall_impl; [exact Hall|]. intros r Hr.
    unfold portable in Hr. by apply andb_prop in Hr as [? _].
  - rewrite Forall_forall in *. intros r Hr. apply Hsplit; [done|].
    specialize (Hall r Hr). unfold portable in Hall.
    by apply andb_prop in Hall as [_ ?].
Qed.

Lemma dataset_round_trip_witness :
  round_trip [DatasetExamples.two_tags; DatasetExamples.two_tags].
Proof.
  apply (dataset_round_trip [DatasetExamples.two_tags; DatasetExamples.two_tags]).
  repeat constructor.
Defined.

(** * Further properties *)

(** ** [check_missing_tags] *)

Section MissingTagsFurther.

Lemma filter_nil_Forall {A} (P : A → Prop) `{!∀ a, Decision (P a)} (l : list A) :
  filter P l = [] ↔ Forall (λ a, ¬ P a) l.
Proof.
  induction l as [|a l IH]; [by split; [constructor|]|].
  destruct (decide (P a)).
  - rewrite filter_cons_True by done. split; [done|].
    intros Hall. by apply Forall_cons in Hall as [? _].
  - rewrite filter_cons_False by done. rewrite IH, Forall_cons. tauto.
Qed.

Lemma filter_weaken_sublist {A} (P Q : A → Prop)
    `{!∀ a, Decision (P a)} `{!∀ a, Decision (Q a)} (l : list A) :
  (∀ a, P a → Q a) → filter P l `sublist_of` filter Q l.
Proof.
  intros HPQ. induction l as [|a l IH]; [done|].
  destruct (decide (P a)) as [HP|HP].
  - rewrite (filter_cons_True P), (filter_cons_True Q) by auto. by constructor.
  - rewrite (filter_cons_False P) by done.
    destruct (decide (Q a)).
    + rewrite (filter_cons_True Q) by done. by constructor.
    + by rewrite (filter_cons_False Q).
Qed.

Lemma tag_key_mk_tag (k v : string) : tag_key (mk_tag k v) = k.
Proof. unfold tag_key, mk_tag. by rewrite lookup_insert_eq. Qed.

End MissingTagsFurther.

(** X1. A resource is compliant exactly when every required name is the
    ['Key'] of one of its tag records: [check_missing_tags] returns the
    empty list if and only if every required name is held under ['Key'] by
    a record (a record without ['Key'] counts for the empty name, as the
    function reads it with [tag.get('Key', '')]). *)
Theorem check_missing_tags_nil_iff (resource_tags : py_tags) (required : list string) :
  check_missing_tags resource_tags required = []
  ↔ ∀ name, name ∈ required →
      ∃ tag : Tag, tag ∈ default [] resource_tags
        ∧ (tag !! "Key" = Some name ∨ (tag !! "Key" = None ∧ name = "")).
Proof.
  rewrite check_missing_tags_filter, filter_nil_Forall, Forall_forall.
  split; intros H name Hin.
  - specialize (H name Hin). apply elem_of_keys_of.
    by destruct (decide (name ∈ keys_of resource_tags)).
  - intros Hout. apply Hout, elem_of_keys_of, H, Hin.
Qed.

(** X2. Tags only help: when the keys of one tag list are among the keys
    of another, what is missing with the second is a subsequence of what is
    missing with the first.  The values and the order of the tags play no
    part. *)
Theorem check_missing_tags_antitone (tags1 tags2 : py_tags) (required : list string) :
  keys_of tags1 ⊆ keys_of tags2 →
  check_missing_tags tags2 required `sublist_of` check_missing_tags tags1 required.
Proof.
  intros Hsub. rewrite !check_missing_tags_filter.
  apply filter_weaken_sublist. intros tag Hout Hin. apply Hout. by apply Hsub.
Qed.

Lemma check_missing_tags_antitone_witness :
  check_missing_tags (Some [mk_tag "Owner" "a"; mk_tag "Project" "p"])
    ["Environment"; "Owner"; "Project"]
  `sublist_of`
  check_missing_tags (Some [mk_tag "Project" "q"]) ["Environment"; "Owner"; "Project"].
Proof.
  apply check_missing_tags_antitone.
  unfold keys_of, existing_tags. cbn [default map id from_option].
  rewrite !tag_key_mk_tag. intros k Hk.
  apply elem_of_list_to_set, list_elem_of_singleton in Hk as ->.
  apply elem_of_list_to_set. in_list.
Defined.

(** ** [load_required_tags] *)

Section Strip.

Lemma lstrip_length (s : string) : (String.length (PyStr.lstrip s) ≤ String.length s)%nat.
Proof.
  induction s as [|c s IH]; simpl; [done|].
  destruct (PyStr.isspace c); simpl; lia.
Qed.

Lemma rstrip_length (s : string) : (String.length (PyStr.rstrip s) ≤ String.length s)%nat.
Proof.
  induction s as [|c s IH]; simpl; [done|].
  destruct (PyStr.rstrip s); [destruct (PyStr.isspace c)|]; simpl in *; lia.
Qed.

(** A string that [lstrip] leaves as it is does not start with a space. *)
Lemma lstrip_fixed_head (c : ascii) (s : string) :
  PyStr.lstrip (String c s) = String c s → PyStr.isspace c = false.
Proof.
  simpl. destruct (PyStr.isspace c); [|done].
  intros H. pose proof (lstrip_length s) as Hlen. rewrite H in Hlen. simpl in Hlen. lia.
Qed.

Lemma strip_fixed (s : string) :
  PyStr.strip s = s → PyStr.lstrip s = s ∧ PyStr.rstrip s = s.
Proof.
  unfold PyStr.strip. intros H.
  assert (PyStr.lstrip s = s) as Hl.
  { pose proof (rstrip_length (PyStr.lstrip s)) as H1.
    pose proof (lstrip_length s) as H2. rewrite H in H1.
    assert (String.length (PyStr.lstrip s) = String.length s) as Hlen by lia.
    clear -Hlen. destruct s as [|c s]; [done|]. simpl in *.
    destruct (PyStr.isspace c); [|done].
    pose proof (lstrip_length s). lia. }
  split; [done|]. by rewrite Hl in H.
Qed.

Lemma rstrip_snoc_space (s : string) (c : ascii) :
  PyStr.isspace c = true → PyStr.rstrip (s ++ String c "") = PyStr.rstrip s.
Proof.
  intros Hc. induction s as [|d s IH].
  - simpl. by rewrite Hc.
  - rewrite string_app_cons. simpl. by rewrite IH.
Qed.

Lemma lstrip_app (s rest : string) :
  s ≠ "" → PyStr.lstrip s = s → PyStr.lstrip (s ++ rest) = (s ++ rest)%string.
Proof.
  destruct s as [|c s]; [done|]. intros _ H%lstrip_fixed_head.
  rewrite string_app_cons. simpl. by rewrite H.
Qed.

(** The result of [rstrip] is left as it is by [rstrip]; so is the result
    of [strip] by [strip]. *)
Lemma rstrip_idem (s : string) : PyStr.rstrip (PyStr.rstrip s) = PyStr.rstrip s.
Proof.
  induction s as [|c s IH]; [done|]. simpl.
  destruct (PyStr.rstrip s) as [|d r] eqn:E.
  - destruct (PyStr.isspace c) eqn:Hc; [done|]. simpl. by rewrite Hc.
  - simpl in *. by rewrite IH.
Qed.

Lemma lstrip_idem (s : string) : PyStr.lstrip (PyStr.lstrip s) = PyStr.lstrip s.
Proof.
  induction s as [|c s IH]; [done|]. simpl.
  destruct (PyStr.isspace c) eqn:Hc; [done|]. simpl. by rewrite Hc.
Qed.

Lemma lstrip_rstrip (s : string) :
  PyStr.lstrip s = s → PyStr.lstrip (PyStr.rstrip s) = PyStr.rstrip s.
Proof.
  destruct s as [|c s]; [done|]. intros Hc%lstrip_fixed_head. simpl.
  destruct (PyStr.rstrip s); rewrite ?Hc; simpl; by rewrite Hc.
Qed.

Lemma strip_idem (s : string) : PyStr.strip (PyStr.strip s) = PyStr.strip s.
Proof.
  unfold PyStr.strip.
  rewrite lstrip_rstrip by apply lstrip_idem. apply rstrip_idem.
Qed.

(** Stripping a name followed by a line feed gives the name. *)
Lemma strip_line (name : string) :
  name ≠ "" → PyStr.strip name = name →
  PyStr.strip (name ++ String TextFile.LF "") = name.
Proof.
  intros Hne [Hl Hr]%strip_fixed. unfold PyStr.strip.
  rewrite lstrip_app by done. by rewrite rstrip_snoc_space.
Qed.

Lemma no_cr_lstrip (s : string) : no_cr s = true → no_cr (PyStr.lstrip s) = true.
Proof.
  induction s as [|c s IH]; [done|]. simpl.
  intros [Hc Hs]%andb_prop. destruct (PyStr.isspace c); [auto|].
  simpl. by rewrite Hc, Hs.
Qed.

Lemma no_cr_rstrip (s : string) : no_cr s = true → no_cr (PyStr.rstrip s) = true.
Proof.
  induction s as [|c s IH]; [done|]. simpl.
  intros [Hc Hs]%andb_prop. specialize (IH Hs).
  destruct (PyStr.rstrip s); [destruct (PyStr.isspace c)|]; simpl in *;
    rewrite ?Hc, ?IH; done.
Qed.

Lemma lf_only_last_tail (c : ascii) (s : string) :
  lf_only_last (String c s) = true → lf_only_last s = true.
Proof. destruct s as [|d s]; [done|]. by intros [_ ?]%andb_prop. Qed.

Lemma lf_only_last_lstrip (s : string) :
  lf_only_last s = true → lf_only_last (PyStr.lstrip s) = true.
Proof.
  induction s as [|c s IH]; [done|]. intros H.
  cbn [PyStr.lstrip]. destruct (PyStr.isspace c); [|done].
  by apply IH, (lf_only_last_tail c).
Qed.

Lemma no_lf_rstrip (s : string) : lf_only_last s = true → no_lf (PyStr.rstrip s) = true.
Proof.
  induction s as [|c s IH]; [done|]. intros H.
  pose proof (lf_only_last_tail _ _ H) as Hs. specialize (IH Hs).
  cbn [PyStr.rstrip].
  destruct s as [|d s].
  - simpl. destruct (PyStr.isspace c) eqn:Hc; [done|]. simpl.
    destruct (Ascii.eqb_spec c TextFile.LF) as [->|]; [done|done].
  - cbn [lf_only_last] in H. apply andb_prop in H as [Hc _].
    destruct (PyStr.rstrip (String d s)); [destruct (PyStr.isspace c)|];
      simpl in *; rewrite ?Hc, ?IH; done.
Qed.

End Strip.

Section Lines.

Lemma no_cr_universal_newlines (s : string) : no_cr (TextFile.universal_newlines s) = true.
Proof.
  assert (∀ (n : nat) s, (String.length s ≤ n)%nat →
                         no_cr (TextFile.universal_newlines s) = true) as H.
  { clear s. induction n as [|n IH]; intros [|c s] Hlen; simpl in *; try done; try lia.
    destruct (Ascii.eqb c TextFile.CR) eqn:Hc.
    - destruct s as [|c' s']; [done|]. simpl in Hlen.
      destruct (Ascii.eqb c' TextFile.LF); simpl.
      + apply IH. lia.
      + apply (IH (String c' s')). simpl. lia.
    - simpl. rewrite Hc. simpl. apply IH. lia. }
  by apply (H (String.length s)).
Qed.

Lemma lines_no_cr (s : string) :
  no_cr s = true → Forall (λ l, no_cr l = true) (TextFile.lines s).
Proof.
  induction s as [|c s IH]; simpl; [constructor|].
  intros [Hc Hs]%andb_prop. specialize (IH Hs).
  destruct (Ascii.eqb c TextFile.LF).
  - constructor; [|done]. simpl. by rewrite Hc.
  - destruct (TextFile.lines s) as [|l ls].
    + repeat constructor. simpl. by rewrite Hc.
    + inversion IH; subst. constructor; [|done]. simpl. by rewrite Hc.
Qed.

Lemma lines_lf_only_last (s : string) :
  Forall (λ l, lf_only_last l = true) (TextFile.lines s).
Proof.
  induction s as [|c s IH]; simpl; [constructor|].
  destruct (Ascii.eqb c TextFile.LF) eqn:Hc.
  - by constructor.
  - destruct (TextFile.lines s) as [|l ls]; [by repeat constructor|].
    inversion IH; subst. constructor; [|done].
    destruct l as [|d l]; [done|]. cbn [lf_only_last]. by rewrite Hc.
Qed.

(** The first line of a text that starts with a name and a line feed. *)
Lemma lines_name (name rest : string) :
  no_lf name = true →
  TextFile.lines (name ++ String TextFile.LF rest)
  = (name ++ String TextFile.LF "")%string :: TextFile.lines rest.
Proof.
  induction name as [|c name IH]; intros H.
  - rewrite !string_app_nil_l. reflexivity.
  - cbn [no_lf] in H. apply andb_prop in H as [Hc Hname].
    apply negb_true_iff in Hc.
    rewrite !string_app_cons. cbn [TextFile.lines]. rewrite Hc.
    by rewrite IH.
Qed.

Lemma universal_newlines_lf (x rest : string) :
  no_cr x = true →
  TextFile.universal_newlines (x ++ String TextFile.LF rest)
  = (x ++ String TextFile.LF (TextFile.universal_newlines rest))%string.
Proof.
  induction x as [|c x IH]; intros Hx; [reflexivity|].
  cbn [no_cr] in Hx. apply andb_prop in Hx as [Hc Hx].
  apply negb_true_iff in Hc.
  rewrite !string_app_cons. cbn [TextFile.universal_newlines].
  rewrite Hc. by rewrite IH.
Qed.

End Lines.

Section Config.

Lemma clean_name_spec (name : string) :
  clean_name name = true →
  name ≠ "" ∧ PyStr.strip name = name ∧ no_cr name = true ∧ no_lf name = true.
Proof.
  unfold clean_name. intros [[[H1 H2]%andb_prop H3]%andb_prop H4]%andb_prop.
  apply String.eqb_eq in H2. repeat split; try done. by intros ->.
Qed.

(** The lines of a configuration text whose line ends are already line
    feeds. *)
Lemma load_lines (names : list string) :
  forallb clean_name names = true →
  map PyStr.strip
    (filter (λ line, PyStr.truthy (PyStr.strip line) = true)
       (TextFile.lines (config_text (String TextFile.LF "") names)))
  = names.
Proof.
  unfold config_text. induction names as [|name names IH]; [done|].
  cbn [forallb]. intros [Hname Hnames]%andb_prop.
  apply clean_name_spec in Hname as (Hne & Hstrip & Hcr & Hlf).
  cbn [map]. rewrite concat_empty_cons, string_app_assoc, string_app_cons,
    string_app_nil_l.
  rewrite lines_name by done.
  rewrite filter_cons_True.
  - cbn [map]. rewrite strip_line by done. f_equal. by apply IH.
  - rewrite strip_line by done. by destruct name.
Qed.

Lemma config_text_newlines (names : list string) :
  forallb clean_name names = true →
  TextFile.universal_newlines (config_text Csv.LINETERMINATOR names)
  = config_text (String TextFile.LF "") names
  ∧ TextFile.universal_newlines (config_text (String TextFile.LF "") names)
    = config_text (String TextFile.LF "") names.
Proof.
  unfold config_text. induction names as [|name names IH]; [done|].
  cbn [forallb]. intros [Hname Hnames]%andb_prop.
  apply clean_name_spec in Hname as (Hne & Hstrip & Hcr & Hlf).
  destruct (IH Hnames) as [IH1 IH2].
  cbn [map]. rewrite !concat_empty_cons, !string_app_assoc. split.
  - rewrite universal_newlines_line by done. by rewrite IH1.
  - rewrite string_app_cons, string_app_nil_l.
    rewrite universal_newlines_lf by done. by rewrite IH2.
Qed.

End Config.

(** X3. The configuration file is read back as it was written: a file
    with one clean name per line (not empty, no white space at its ends, no
    line break in it), the lines ended by LF or by CR LF, loads as the list
    of these names in their order. *)
Theorem load_required_tags_reads_names (names : list string) :
  forallb clean_name names = true →
  load_required_tags (TextFile.Opened (config_text (String TextFile.LF "") names))
  = Returned names
  ∧ load_required_tags (TextFile.Opened (config_text Csv.LINETERMINATOR names))
    = Returned names.
Proof.
  intros Hnames. unfold load_required_tags, TextFile.iter.
  destruct (config_text_newlines names Hnames) as [-> ->].
  by rewrite load_lines.
Qed.

Lemma load_required_tags_reads_names_witness :
  load_required_tags
    (TextFile.Opened (config_text (String TextFile.LF "") ConfigExamples.names))
  = Returned ConfigExamples.names
  ∧ load_required_tags
      (TextFile.Opened (config_text Csv.LINETERMINATOR ConfigExamples.names))
    = Returned ConfigExamples.names.
Proof. apply load_required_tags_reads_names. reflexivity. Defined.

(** X4. Whatever the file holds, the names [load_required_tags] returns
    are clean: none is empty, none has white space at its ends, none has a
    carriage return or a line feed in it. *)
Theorem load_required_tags_names_clean (content : string) (tags : list string) :
  load_required_tags (TextFile.Opened content) = Returned tags →
  forallb clean_name tags = true.
Proof.
  intros [= <-]. apply forallb_forall. intros tag Hin.
  apply in_map_iff in Hin as (line & <- & Hline).
  apply list_elem_of_In, list_elem_of_filter in Hline as [Htrue Hline].
  unfold TextFile.iter in Hline.
  pose proof (lines_no_cr _ (no_cr_universal_newlines content)) as Hcr.
  pose proof (lines_lf_only_last (TextFile.universal_newlines content)) as Hlf.
  rewrite Forall_forall in Hcr, Hlf.
  specialize (Hcr line Hline). specialize (Hlf line Hline).
  unfold clean_name. rewrite Htrue, strip_idem, String.eqb_refl.
  unfold PyStr.strip.
  rewrite no_cr_rstrip by (by apply no_cr_lstrip).
  by rewrite no_lf_rstrip by (by apply lf_only_last_lstrip).
Qed.

Lemma load_required_tags_names_clean_witness :
  forallb clean_name ["Owner"; "Cost Center"] = true.
Proof.
  apply (load_required_tags_names_clean ConfigExamples.untidy).
  reflexivity.
Defined.

(** ** The findings of a run, resource by resource *)

Section PureScan.
Context {F : Type}.

Lemma for_each_flat_map {A} (xs : list A) (body : A → Scan F unit) (g : A → list F) :
  (∀ x, appends_only (body x)) →
  (∀ x, body x [] = (Returned tt, g x)) →
  Scan.for_each xs body [] = (Returned tt, flat_map g xs).
Proof.
  intros Happ Hbody. induction xs as [|x xs IH]; [done|].
  cbn [Scan.for_each flat_map]. unfold Scan.bind. rewrite Hbody.
  rewrite (appends_only_for_each xs body Happ (g x)). by rewrite IH.
Qed.

Lemma accumulated_sublist (bs : list (Scan F unit)) :
  accumulated bs `sublist_of` flat_map findings_of bs.
Proof.
  induction bs as [|b bs IH]; [done|]. cbn [accumulated flat_map].
  destruct (b []).1.
  - by apply sublist_inserts_r.
  - by apply sublist_app.
Qed.

Lemma flat_map_flat_map {A B C} (f : A → list B) (g : B → list C) (xs : list A) :
  flat_map (λ x, flat_map g (f x)) xs = flat_map g (flat_map f xs).
Proof.
  induction xs as [|x xs IH]; [done|]. cbn [flat_map].
  by rewrite flat_map_app, IH.
Qed.

Lemma flat_map_map_compose {A B C} (f : A → B) (g : B → list C) (xs : list A) :
  flat_map g (map f xs) = flat_map (λ x, g (f x)) xs.
Proof. induction xs as [|x xs IH]; [done|]. cbn [flat_map map]. by rewrite IH. Qed.

End PureScan.

Section ReportedFacts.
Variables (p : Provider) (account_id : string) (required_tags : list string).

Lemma flag_flagged (region resource arn : string) (tags : list Tag) :
  Excel.flag region account_id required_tags resource arn tags []
  = (Returned tt, Reported.flagged region account_id required_tags resource arn tags).
Proof.
  unfold Excel.flag, Reported.flagged.
  by destruct (nonempty (check_missing_tags (Some tags) required_tags)).
Qed.

Lemma lambda_function_reported (region : string) (function : Function) :
  Excel.lambda_function p region account_id required_tags function []
  = (Returned tt, Reported.of_function p region account_id required_tags function).
Proof.
  unfold Excel.lambda_function, Reported.of_function, Scan.try_except,
    mbind, Scan_bind, Scan.bind, Scan.call.
  destruct (list_tags p region (FunctionArn function)) as [|d]; [done|].
  by rewrite flag_flagged.
Qed.

Lemma rds_instance_reported (region : string) (instance : DBInstance) :
  Excel.rds_instance p region account_id required_tags instance []
  = (Returned tt, Reported.of_database p region account_id required_tags instance).
Proof.
  unfold Excel.rds_instance, Reported.of_database, Scan.try_except,
    mbind, Scan_bind, Scan.bind, Scan.call.
  destruct (list_tags_for_resource p region (DBInstanceArn instance)) as [|d]; [done|].
  by rewrite flag_flagged.
Qed.

Lemma s3_bucket_reported (bucket : Bucket) :
  Excel.s3_bucket p account_id required_tags bucket []
  = (Returned tt, Reported.of_bucket p account_id required_tags bucket).
Proof.
  unfold Excel.s3_bucket, Reported.of_bucket, Scan.try_except,
    mbind, Scan_bind, Scan.bind, Scan.call.
  destruct (get_bucket_tagging p (Name bucket)) as [|d]; [done|].
  destruct (copy_tag_set (default [] d)) as [|tags]; [done|].
  by rewrite flag_flagged.
Qed.

(** A block leaves on the list what its kind reports. *)
Lemma block_of_kind (region : string) (k : Kind) :
  findings_of (Excel.block p region account_id required_tags k)
  = Reported.of_kind p region account_id required_tags k.
Proof.
  unfold findings_of.
  destruct k; cbn [Excel.block Reported.of_kind];
    unfold Excel.ec2_instances, Excel.ebs_volumes, Excel.vpcs, Excel.security_groups,
      Excel.subnets, Excel.lambda_functions, Excel.rds_instances,
      Reported.of_client, Reported.of_listing, mbind, Scan_bind, Scan.bind, Scan.call;
    try done.
  - destruct (client p "ec2" (Some region)) as [|[]]; [done|].
    destruct (describe_instances p region) as [|rs]; [done|].
    rewrite (for_each_flat_map rs _
               (λ r, flat_map (Reported.of_instance region account_id required_tags)
                       (Instances r))); [done| |].
    + intros r. apply appends_only_for_each. intros i. apply excel_flag_appends.
    + intros r. apply for_each_flat_map.
      * intros i. apply excel_flag_appends.
      * intros i. apply flag_flagged.
  - destruct (describe_volumes p region) as [|xs]; [done|].
    rewrite (for_each_flat_map xs _ (Reported.of_volume region account_id required_tags));
      [done|intros x; apply excel_flag_appends|intros x; apply flag_flagged].
  - destruct (describe_vpcs p region) as [|xs]; [done|].
    rewrite (for_each_flat_map xs _ (Reported.of_vpc region account_id required_tags));
      [done|intros x; apply excel_flag_appends|intros x; apply flag_flagged].
  - destruct (describe_security_groups p region) as [|xs]; [done|].
    rewrite (for_each_flat_map xs _
               (Reported.of_security_group region account_id required_tags));
      [done|intros x; apply excel_flag_appends|intros x; apply flag_flagged].
  - destruct (describe_subnets p region) as [|xs]; [done|].
    rewrite (for_each_flat_map xs _ (Reported.of_subnet region account_id required_tags));
      [done|intros x; apply excel_flag_appends|intros x; apply flag_flagged].
  - destruct (client p "lambda" (Some region)) as [|[]]; [done|].
    destruct (list_functions p region) as [|xs]; [done|].
    rewrite (for_each_flat_map xs _
               (Reported.of_function p region account_id required_tags));
      [done|apply excel_lambda_function_appends|apply lambda_function_reported].
  - destruct (client p "rds" (Some region)) as [|[]]; [done|].
    destruct (describe_db_instances p region) as [|xs]; [done|].
    rewrite (for_each_flat_map xs _
               (Reported.of_database p region account_id required_tags));
      [done|apply excel_rds_instance_appends|apply rds_instance_reported].
Qed.

Lemma healthy_returns (region : string) (k : Kind) :
  healthy p region = true →
  returns (Excel.block p region account_id required_tags k).
Proof.
  unfold healthy. intros H.
  repeat (apply andb_prop in H as [H ?]).
  unfold returns.
  destruct k; cbn [Excel.block];
    unfold Excel.ec2_instances, Excel.ebs_volumes, Excel.vpcs, Excel.security_groups,
      Excel.subnets, Excel.lambda_functions, Excel.rds_instances,
      mbind, Scan_bind, Scan.bind, Scan.call; try done.
  - destruct (client p "ec2" (Some region)) as [|[]]; [done|].
    destruct (describe_instances p region); [done|].
    apply for_each_returns. intros r acc. apply for_each_returns.
    intros i acc'. apply excel_flag_returns.
  - destruct (describe_volumes p region); [done|].
    apply for_each_returns. intros x acc. apply excel_flag_returns.
  - destruct (describe_vpcs p region); [done|].
    apply for_each_returns. intros x acc. apply excel_flag_returns.
  - destruct (describe_security_groups p region); [done|].
    apply for_each_returns. intros x acc. apply excel_flag_returns.
  - destruct (describe_subnets p region); [done|].
    apply for_each_returns. intros x acc. apply excel_flag_returns.
  - destruct (client p "lambda" (Some region)) as [|[]]; [done|].
    destruct (list_functions p region); [done|].
    apply for_each_returns. apply excel_lambda_function_returns.
  - destruct (client p "rds" (Some region)) as [|[]]; [done|].
    destruct (describe_db_instances p region); [done|].
    apply for_each_returns. apply excel_rds_instance_returns.
Qed.

Lemma healthy_region_scan (region : string) :
  healthy p region = true →
  Excel.get_resources_missing_tags_in_region p region account_id required_tags
  = flat_map (Reported.of_kind p region account_id required_tags) Excel.scan_order.
Proof.
  intros H. rewrite excel_region_scan.
  assert (Session p = Returned tt) as ->.
  { unfold healthy in H. repeat (apply andb_prop in H as [H _]).
    by destruct (Session p) as [|[]]. }
  rewrite accumulated_all.
  - rewrite flat_map_map_compose. apply flat_map_ext. intros k. apply block_of_kind.
  - apply Forall_map, Forall_forall. intros k _. by apply healthy_returns.
Qed.

(** The bucket pass leaves on the list what the buckets report. *)
Lemma s3_buckets_reported :
  findings_of (Excel.s3_buckets p account_id required_tags)
  = Reported.of_buckets p account_id required_tags.
Proof.
  unfold findings_of, Excel.s3_buckets, Reported.of_buckets, Scan.try_except,
    mbind, Scan_bind, Scan.bind, Scan.call.
  destruct (client p "s3" None) as [|[]]; [done|].
  destruct (list_buckets p) as [|bs]; [done|].
  rewrite (for_each_flat_map bs _ (Reported.of_bucket p account_id required_tags));
    [done|apply excel_s3_bucket_appends|apply s3_bucket_reported].
Qed.

(** The output of a run: the results of the regions in the order of their
    completion, then what the buckets report. *)
Lemma all_resources_split (completed : list string) :
  Excel.all_resources p account_id required_tags completed
  = flat_map (λ region,
      Excel.get_resources_missing_tags_in_region p region account_id required_tags)
      completed
    ++ Reported.of_buckets p account_id required_tags.
Proof.
  unfold Excel.all_resources.
  rewrite (excel_s3_buckets_appends p account_id required_tags _). cbn [snd].
  f_equal. apply s3_buckets_reported.
Qed.

End ReportedFacts.

Section Inventory.
Variables (p : Provider) (account_id : string) (required_tags : list string).

Local Abbreviation reported := (reported account_id required_tags).

Lemma healthy_run_output (completed : list string) :
  Forall (λ region, healthy p region = true) completed →
  Excel.all_resources p account_id required_tags completed
  = Reported.of_run p account_id required_tags completed.
Proof.
  intros Hall. rewrite all_resources_split. unfold Reported.of_run. f_equal.
  induction Hall as [|region completed Hr _ IH]; [done|].
  cbn [flat_map]. by rewrite IH, healthy_region_scan.
Qed.

Lemma flagged_reported (region : string) (k : Kind) (arn : string) (tags : list Tag)
    (f : Excel.Finding) :
  f ∈ Reported.flagged region account_id required_tags (kind_name k) arn tags
  ↔ reported region k arn (Some tags) f.
Proof.
  unfold Reported.flagged, reported, verdict.
  destruct (check_missing_tags (Some tags) required_tags) as [|m ms]; cbn [nonempty].
  - split; [by intros ?%elem_of_nil|]. by intros (missing & ? & _).
  - rewrite list_elem_of_singleton. split.
    + intros ->. by eexists.
    + by intros (missing & [= <-] & ->).
Qed.

Lemma of_function_reported (region : string) (function : Function) (f : Excel.Finding) :
  f ∈ Reported.of_function p region account_id required_tags function
  ↔ reported region LambdaFunction (FunctionArn function)
      (function_tags p region function) f.
Proof.
  unfold Reported.of_function, function_tags.
  destruct (list_tags p region (FunctionArn function)) as [|d].
  - rewrite list_elem_of_singleton. unfold reported, verdict. cbn [worst_case]. split.
    + intros ->. by eexists.
    + by intros (missing & [= <-] & ->).
  - apply (flagged_reported region LambdaFunction).
Qed.

Lemma of_database_reported (region : string) (instance : DBInstance) (f : Excel.Finding) :
  f ∈ Reported.of_database p region account_id required_tags instance
  ↔ reported region RDSInstance (DBInstanceArn instance)
      (database_tags p region instance) f.
Proof.
  unfold Reported.of_database, database_tags.
  destruct (list_tags_for_resource p region (DBInstanceArn instance)) as [|d].
  - rewrite list_elem_of_singleton. unfold reported, verdict. cbn [worst_case]. split.
    + intros ->. by eexists.
    + by intros (missing & [= <-] & ->).
  - apply (flagged_reported region RDSInstance).
Qed.

Lemma of_bucket_reported (bucket : Bucket) (f : Excel.Finding) :
  f ∈ Reported.of_bucket p account_id required_tags bucket
  ↔ reported "Global" S3Bucket ("arn:aws:s3:::" ++ Name bucket) (bucket_tags p bucket) f.
Proof.
  unfold Reported.of_bucket, bucket_tags.
  destruct (get_bucket_tagging p (Name bucket)) as [|d];
    [|destruct (copy_tag_set (default [] d)) as [|tags]].
  - rewrite list_elem_of_singleton. unfold reported, verdict. cbn [worst_case]. split.
    + intros ->. by eexists.
    + by intros (missing & [= <-] & ->).
  - rewrite list_elem_of_singleton. unfold reported, verdict. cbn [worst_case]. split.
    + intros ->. by eexists.
    + by intros (missing & [= <-] & ->).
  - apply (flagged_reported "Global" S3Bucket).
Qed.

Lemma elem_of_flat_map {A B} (g : A → list B) (xs : list A) (y : B) :
  y ∈ flat_map g xs ↔ ∃ x, x ∈ xs ∧ y ∈ g x.
Proof.
  rewrite list_elem_of_In, in_flat_map. split; intros (x & Hx & Hy); exists x.
  - by rewrite !list_elem_of_In.
  - by rewrite <- !list_elem_of_In.
Qed.

(** What a kind reports is the finding of a resource of the inventory. *)
Lemma of_kind_inventory (region : string) (k : Kind) (f : Excel.Finding) :
  f ∈ Reported.of_kind p region account_id required_tags k →
  ∃ arn tags, inventory p account_id region k arn tags ∧ reported region k arn tags f.
Proof.
  destruct k; cbn [Reported.of_kind]; unfold Reported.of_client, Reported.of_listing.
  - destruct (client p "ec2" (Some region)); [by intros ?%elem_of_nil|].
    destruct (describe_instances p region) as [|rs] eqn:E; [by intros ?%elem_of_nil|].
    intros (r & Hr & (i & Hi & Hf)%elem_of_flat_map)%elem_of_flat_map.
    apply (flagged_reported region EC2Instance) in Hf.
    eexists _, _. split; [|exact Hf]. by eapply inventory_instance.
  - destruct (describe_volumes p region) as [|xs] eqn:E; [by intros ?%elem_of_nil|].
    intros (x & Hx & Hf)%elem_of_flat_map.
    apply (flagged_reported region EBSVolume) in Hf.
    eexists _, _. split; [|exact Hf]. by eapply inventory_volume.
  - destruct (describe_vpcs p region) as [|xs] eqn:E; [by intros ?%elem_of_nil|].
    intros (x & Hx & Hf)%elem_of_flat_map.
    apply (flagged_reported region VPC) in Hf.
    eexists _, _. split; [|exact Hf]. by eapply inventory_vpc.
  - destruct (describe_security_groups p region) as [|xs] eqn:E;
      [by intros ?%elem_of_nil|].
    intros (x & Hx & Hf)%elem_of_flat_map.
    apply (flagged_reported region SecurityGroupKind) in Hf.
    eexists _, _. split; [|exact Hf]. by eapply inventory_security_group.
  - destruct (describe_subnets p region) as [|xs] eqn:E; [by intros ?%elem_of_nil|].
    intros (x & Hx & Hf)%elem_of_flat_map.
    apply (flagged_reported region SubnetKind) in Hf.
    eexists _, _. split; [|exact Hf]. by eapply inventory_subnet.
  - destruct (client p "lambda" (Some region)); [by intros ?%elem_of_nil|].
    destruct (list_functions p region) as [|xs] eqn:E; [by intros ?%elem_of_nil|].
    intros (x & Hx & Hf)%elem_of_flat_map. apply of_function_reported in Hf.
    eexists _, _. split; [|exact Hf]. by eapply inventory_function.
  - destruct (client p "rds" (Some region)); [by intros ?%elem_of_nil|].
    destruct (describe_db_instances p region) as [|xs] eqn:E; [by intros ?%elem_of_nil|].
    intros (x & Hx & Hf)%elem_of_flat_map. apply of_database_reported in Hf.
    eexists _, _. split; [|exact Hf]. by eapply inventory_database.
  - by intros ?%elem_of_nil.
Qed.

Lemma of_buckets_inventory (f : Excel.Finding) :
  f ∈ Reported.of_buckets p account_id required_tags
  ↔ ∃ arn tags, inventory p account_id "Global" S3Bucket arn tags
                ∧ reported "Global" S3Bucket arn tags f.
Proof.
  unfold Reported.of_buckets. split.
  - destruct (client p "s3" None) as [|[]] eqn:Ec; [by intros ?%elem_of_nil|].
    destruct (list_buckets p) as [|bs] eqn:E; [by intros ?%elem_of_nil|].
    intros (b & Hb & Hf)%elem_of_flat_map. apply of_bucket_reported in Hf.
    eexists _, _. split; [|exact Hf]. by eapply inventory_bucket.
  - intros (arn & tags & Hinv & Hf). inversion Hinv as [| | | | | | |bs b Hc Hbs Hb]; subst.
    rewrite Hc, Hbs. apply elem_of_flat_map. exists b. split; [done|].
    by apply of_bucket_reported.
Qed.

(** In a region whose calls return, a kind reports the finding of each
    resource of the inventory. *)
Lemma inventory_of_kind (region : string) (k : Kind) (arn : string)
    (tags : option (list Tag)) (f : Excel.Finding) :
  healthy p region = true → k ≠ S3Bucket →
  inventory p account_id region k arn tags → reported region k arn tags f →
  f ∈ Reported.of_kind p region account_id required_tags k.
Proof.
  unfold healthy. intros H Hk Hinv Hf.
  repeat (apply andb_prop in H as [H ?]).
  inversion Hinv as [r0 rs r i E Hr Hi|r0 xs x E Hx|r0 xs x E Hx|r0 xs x E Hx
                    |r0 xs x E Hx|r0 xs x E Hx|r0 xs x E Hx|]; subst; [..|done];
    cbn [Reported.of_kind]; unfold Reported.of_client, Reported.of_listing.
  - destruct (client p "ec2" (Some region)); [done|]. rewrite E.
    apply elem_of_flat_map. exists r. split; [done|].
    apply elem_of_flat_map. exists i. split; [done|].
    by apply (flagged_reported region EC2Instance).
  - rewrite E. apply elem_of_flat_map. exists x. split; [done|].
    by apply (flagged_reported region EBSVolume).
  - rewrite E. apply elem_of_flat_map. exists x. split; [done|].
    by apply (flagged_reported region VPC).
  - rewrite E. apply elem_of_flat_map. exists x. split; [done|].
    by apply (flagged_reported region SecurityGroupKind).
  - rewrite E. apply elem_of_flat_map. exists x. split; [done|].
    by apply (flagged_reported region SubnetKind).
  - destruct (client p "lambda" (Some region)); [done|]. rewrite E.
    apply elem_of_flat_map. exists x. split; [done|]. by apply of_function_reported.
  - destruct (client p "rds" (Some region)); [done|]. rewrite E.
    apply elem_of_flat_map. exists x. split; [done|]. by apply of_database_reported.
Qed.

Lemma scan_order_kinds (k : Kind) : k ≠ S3Bucket → k ∈ Excel.scan_order.
Proof. intros Hk. destruct k; first [done | unfold Excel.scan_order; in_list]. Qed.

(** Every finding of a run is the finding of a resource of the inventory,
    of a scanned region or a bucket. *)
Lemma run_findings_inventory (completed : list string) (f : Excel.Finding) :
  f ∈ Excel.all_resources p account_id required_tags completed →
  ∃ region k arn tags,
    (k = S3Bucket ∨ region ∈ completed)
    ∧ inventory p account_id region k arn tags ∧ reported region k arn tags f.
Proof.
  rewrite all_resources_split, elem_of_app.
  intros [(region & Hregion & Hf)%elem_of_flat_map|Hf].
  - rewrite excel_region_scan in Hf.
    destruct (Session p); [by apply elem_of_nil in Hf|].
    apply (λ H, elem_of_sublist _ _ _ H (accumulated_sublist _)) in Hf.
    rewrite flat_map_map_compose in Hf.
    apply elem_of_flat_map in Hf as (k & _ & Hf).
    rewrite block_of_kind in Hf.
    apply of_kind_inventory in Hf as (arn & tags & Hinv & Hrep).
    exists region, k, arn, tags. auto.
  - apply of_buckets_inventory in Hf as (arn & tags & Hinv & Hrep).
    exists "Global", S3Bucket, arn, tags. auto.
Qed.

Lemma copy_tag_set_raised (tags : list Tag) :
  copy_tag_set tags = Raised → Exists malformed tags.
Proof.
  induction tags as [|tag tags IH]; [done|]. cbn [copy_tag_set].
  destruct (tag !! "Key") eqn:Hk; [|intros _; left; by left].
  destruct (tag !! "Value") eqn:Hv; [|intros _; left; by right].
  destruct (copy_tag_set tags); [|done]. intros _. right. by apply IH.
Qed.

End Inventory.

(** X5. When every call of every scanned region returns (the tag look-ups
    may raise), the findings of a run are exactly the findings of the
    resources the provider lists, in the scanned regions and among the
    buckets, of which a finding is made: a resource whose tags were read is
    reported with the names [check_missing_tags] gives for them when there is
    one, and not reported when there is none; a resource whose tags could
    not be read (the look-up raised, or the copy of a bucket's tag set did)
    is reported with every required name. *)
Theorem healthy_run_reports_each_resource
    (p : Provider) (account_id : string) (required_tags : list string)
    (completed : list string) (f : Excel.Finding) :
  Forall (λ region, healthy p region = true) completed →
  f ∈ Excel.all_resources p account_id required_tags completed
  ↔ ∃ region kind arn tags missing,
      (kind = S3Bucket ∨ region ∈ completed)
      ∧ inventory p account_id region kind arn tags
      ∧ verdict required_tags tags = Some missing
      ∧ f = Excel.finding account_id region (kind_name kind) arn missing.
Proof.
  intros Hall. split.
  - intros (region & k & arn & tags & Hscope & Hinv & missing & Hv & ->)
             %run_findings_inventory.
    by exists region, k, arn, tags, missing.
  - intros (region & k & arn & tags & missing & Hscope & Hinv & Hv & ->).
    assert (reported account_id required_tags region k arn tags
              (Excel.finding account_id region (kind_name k) arn missing)) as Hrep
      by (by exists missing).
    rewrite healthy_run_output by done. unfold Reported.of_run.
    apply elem_of_app.
    destruct (decide (k = S3Bucket)) as [->|Hk].
    + right. inversion Hinv; subst.
      apply of_buckets_inventory. by eexists _, _.
    + left. destruct Hscope as [?|Hregion]; [done|].
      apply elem_of_flat_map. exists region. split; [done|].
      apply elem_of_flat_map. exists k. split; [by apply scan_order_kinds|].
      rewrite Forall_forall in Hall.
      apply (inventory_of_kind p account_id required_tags region k arn tags);
        [by apply Hall|done..].
Qed.

Lemma healthy_run_reports_each_resource_witness :
  worst_case "us-east-1" "123" ["Environment"; "Owner"] (LambdaTags Examples.a_function)
  ∈ Excel.all_resources RunExamples.fleet "123" ["Environment"; "Owner"]
      ["eu-west-1"; "us-east-1"]
  ↔ ∃ region kind arn tags missing,
      (kind = S3Bucket ∨ region ∈ ["eu-west-1"; "us-east-1"])
      ∧ inventory RunExamples.fleet "123" region kind arn tags
      ∧ verdict ["Environment"; "Owner"] tags = Some missing
      ∧ worst_case "us-east-1" "123" ["Environment"; "Owner"]
          (LambdaTags Examples.a_function)
        = Excel.finding "123" region (kind_name kind) arn missing.
Proof.
  apply healthy_run_reports_each_resource. repeat constructor.
Defined.

(** X6. The findings of a run do not depend on the order in which the
    region scans complete: two orders of completion give the same findings
    up to their order in the output. *)
Theorem completion_order_permutes_output
    (p : Provider) (account_id : string) (required_tags : list string)
    (completed completed' : list string) :
  completed ≡ₚ completed' →
  Excel.all_resources p account_id required_tags completed
  ≡ₚ Excel.all_resources p account_id required_tags completed'.
Proof.
  intros Hperm. rewrite !all_resources_split.
  apply Permutation_app_tail. by apply Permutation_flat_map.
Qed.

Lemma completion_order_permutes_output_witness :
  Excel.all_resources RunExamples.fleet "123" ["Owner"] ["eu-west-1"; "us-east-1"]
  ≡ₚ Excel.all_resources RunExamples.fleet "123" ["Owner"] ["us-east-1"; "eu-west-1"].
Proof.
  apply completion_order_permutes_output. apply perm_swap.
Defined.

(** X7. When the bucket pass cannot be made (the client or the listing of
    the buckets raises), the run raises nothing and its output is the
    findings of the regions, with no finding for any bucket. *)
Theorem buckets_unavailable_keeps_regions
    (p : Provider) (account_id : string) (required_tags : list string)
    (completed : list string) :
  client p "s3" None = Raised ∨ list_buckets p = Raised →
  Excel.s3_buckets p account_id required_tags
    (flat_map (λ region,
       Excel.get_resources_missing_tags_in_region p region account_id required_tags)
       completed)
  = (Returned tt,
     flat_map (λ region,
       Excel.get_resources_missing_tags_in_region p region account_id required_tags)
       completed)
  ∧ Excel.all_resources p account_id required_tags completed
    = flat_map (λ region,
        Excel.get_resources_missing_tags_in_region p region account_id required_tags)
        completed.
Proof.
  intros H.
  assert (∀ acc, Excel.s3_buckets p account_id required_tags acc = (Returned tt, acc))
    as Hpass.
  { intros acc. unfold Excel.s3_buckets, Scan.try_except,
      mbind, Scan_bind, Scan.bind, Scan.call.
    destruct H as [-> | H]; [done|].
    destruct (client p "s3" None) as [|[]]; [done|]. by rewrite H. }
  split; [apply Hpass|]. unfold Excel.all_resources. by rewrite Hpass.
Qed.

Lemma buckets_unavailable_keeps_regions_witness :
  Excel.s3_buckets RunExamples.no_buckets "123" ["Owner"; "Environment"]
    (flat_map (λ region,
       Excel.get_resources_missing_tags_in_region RunExamples.no_buckets region "123"
         ["Owner"; "Environment"]) ["us-east-1"])
  = (Returned tt,
     flat_map (λ region,
       Excel.get_resources_missing_tags_in_region RunExamples.no_buckets region "123"
         ["Owner"; "Environment"]) ["us-east-1"])
  ∧ Excel.all_resources RunExamples.no_buckets "123" ["Owner"; "Environment"]
      ["us-east-1"]
    = flat_map (λ region,
        Excel.get_resources_missing_tags_in_region RunExamples.no_buckets region "123"
          ["Owner"; "Environment"]) ["us-east-1"].
Proof.
  apply buckets_unavailable_keeps_regions. right. reflexivity.
Defined.

(** ** Labels of the findings *)

Section Labels.
Variables (p : Provider) (account_id : string) (required_tags : list string).

Lemma flag_preserves (P : Excel.Finding → Prop) (region resource arn : string)
    (tags : list Tag) :
  (∀ missing, P (Excel.finding account_id region resource arn missing)) →
  preserves P (Excel.flag region account_id required_tags resource arn tags).
Proof.
  intros HP. unfold Excel.flag. destruct (nonempty _).
  - by apply preserves_append.
  - apply preserves_ret.
Qed.

Lemma flag_all_preserves (P : Excel.Finding → Prop) (region resource arn : string) :
  P (Excel.finding account_id region resource arn required_tags) →
  preserves P (Excel.flag_all region account_id required_tags resource arn).
Proof. intros HP. by apply preserves_append. Qed.

(** Every finding of a region scan carries the account, the region and one
    of the seven region-scoped kinds. *)
Lemma region_scan_labels (region : string) :
  Forall (λ f, Excel.Account f = account_id ∧ Excel.Region f = region
               ∧ Excel.Resource f ∈ map kind_name Excel.scan_order)
    (Excel.get_resources_missing_tags_in_region p region account_id required_tags).
Proof.
  unfold Excel.get_resources_missing_tags_in_region.
  apply preserves_try_except; [|apply preserves_pass|constructor].
  unfold Excel.scan_body, Excel.ec2_instances, Excel.ebs_volumes, Excel.vpcs,
    Excel.security_groups, Excel.subnets, Excel.lambda_functions, Excel.rds_instances,
    Excel.lambda_function, Excel.rds_instance.
  scan_preserves;
    first [ apply flag_preserves; intros missing | apply flag_all_preserves ];
    (split; [reflexivity|split; [reflexivity|cbn; in_list]]).
Qed.

Lemma s3_buckets_labels (P : Excel.Finding → Prop) :
  (∀ arn missing, P (Excel.finding account_id "Global" "S3 Bucket" arn missing)) →
  preserves P (Excel.s3_buckets p account_id required_tags).
Proof.
  intros HP. unfold Excel.s3_buckets, Excel.s3_bucket.
  scan_preserves;
    first [ apply flag_preserves; intros missing | apply flag_all_preserves ];
    apply HP.
Qed.

End Labels.

(** X8. Every finding of a run carries the account of the run; it carries
    either one of the scanned regions with one of the seven region-scoped
    kinds, or the region [Global] with the kind [S3 Bucket]. *)
Theorem run_findings_labelled
    (p : Provider) (account_id : string) (required_tags : list string)
    (completed : list string) (f : Excel.Finding) :
  f ∈ Excel.all_resources p account_id required_tags completed →
  well_labelled account_id completed f.
Proof.
  revert f. apply Forall_forall. unfold Excel.all_resources.
  apply s3_buckets_labels.
  - intros arn missing. split; [reflexivity|]. right. done.
  - apply Forall_forall. intros g Hg.
    apply list_elem_of_In, in_flat_map in Hg as (region & Hr & Hg).
    pose proof (region_scan_labels p account_id required_tags region) as Hl.
    rewrite Forall_forall in Hl.
    apply list_elem_of_In, Hl in Hg as (Ha & Hreg & Hk).
    split; [done|]. left. rewrite Hreg. split; [by apply list_elem_of_In|done].
Qed.

Lemma run_findings_labelled_witness :
  well_labelled "123" ["us-east-1"]
    (worst_case "us-east-1" "123" ["Environment"; "Owner"]
       (LambdaTags Examples.a_function)).
Proof.
  apply (run_findings_labelled Examples.lookups_down "123" ["Environment"; "Owner"]).
  vm_compute. apply list_elem_of_here.
Defined.

(** ** No tag required *)

(** X9. Started with no required tag (a configuration file with blank
    lines only), a run reports the resources whose tags could not be read
    and nothing else: every finding is the finding, with an empty
    ['Missing_Tags'] cell, of a listed Lambda function, RDS instance or
    bucket whose tag look-up raised, or of a listed bucket with a tag
    record without ['Key'] or ['Value']. *)
Theorem nothing_required_reports_unreachable
    (p : Provider) (account_id : string) (completed : list string) (f : Excel.Finding) :
  f ∈ Excel.all_resources p account_id [] completed →
  Excel.Missing_Tags f = ""
  ∧ ∃ region l,
      in_scope region completed l ∧ in_listing p region l ∧ unreadable p region l
      ∧ f = worst_case region account_id [] l.
Proof.
  intros (region & k & arn & tags & Hscope & Hinv & missing & Hv & ->)
           %run_findings_inventory.
  assert (tags = None ∧ missing = []) as [-> ->].
  { destruct tags as [tags|]; cbn [verdict] in Hv; [|by injection Hv as <-].
    by rewrite check_missing_tags_filter in Hv. }
  split; [reflexivity|].
  inversion Hinv as [| | | | |r0 xs x E Hx Hr Hk Harn Heq|r0 xs x E Hx Hr Hk Harn Heq
                    |bs b Hc Hbs Hb Hr Hk Harn Heq]; subst.
  - exists region, (LambdaTags x). destruct Hscope as [?|Hregion]; [done|].
    split; [done|]. split; [by exists xs|]. split; [|done].
    left. cbn [lookup_raises]. unfold function_tags in Heq.
    by destruct (list_tags p region (FunctionArn x)).
  - exists region, (RDSTags x). destruct Hscope as [?|Hregion]; [done|].
    split; [done|]. split; [by exists xs|]. split; [|done].
    left. cbn [lookup_raises]. unfold database_tags in Heq.
    by destruct (list_tags_for_resource p region (DBInstanceArn x)).
  - exists "Global", (BucketTags b).
    split; [done|]. split; [by exists bs|]. split; [|done].
    unfold bucket_tags in Heq. unfold unreadable. cbn [lookup_raises].
    destruct (get_bucket_tagging p (Name b)) as [|d]; [by left|]. right.
    exists d. split; [done|]. apply copy_tag_set_raised.
    by destruct (copy_tag_set (default [] d)).
Qed.

Lemma nothing_required_reports_unreachable_witness :
  Excel.Missing_Tags (worst_case "us-east-1" "123" [] (RDSTags Examples.a_database)) = ""
  ∧ ∃ region l,
      in_scope region ["us-east-1"] l ∧ in_listing Examples.lookups_down region l
      ∧ unreadable Examples.lookups_down region l
      ∧ worst_case "us-east-1" "123" [] (RDSTags Examples.a_database)
        = worst_case region "123" [] l.
Proof.
  apply (nothing_required_reports_unreachable Examples.lookups_down "123" ["us-east-1"]).
  vm_compute. apply list_elem_of_further, list_elem_of_here.
Defined.

(** ** One finding per resource *)

Section Distinct.

Lemma NoDup_keys_flat_map {A B K L} (key : B → K) (label : K → L) (lab : A → L)
    (g : A → list B) (xs : list A) :
  (∀ x y, x ∈ xs → y ∈ g x → label (key y) = lab x) →
  (∀ x, x ∈ xs → NoDup (map key (g x))) →
  NoDup (map lab xs) →
  NoDup (map key (flat_map g xs)).
Proof.
  induction xs as [|x xs IH]; intros Hlab Hg Hxs; [constructor|].
  cbn [flat_map map] in *. rewrite map_app.
  apply NoDup_cons in Hxs as [Hx Hxs].
  apply NoDup_app. split; [apply Hg, list_elem_of_here|]. split.
  - intros k Hk1 Hk2.
    apply list_elem_of_In, in_map_iff in Hk1 as (y1 & <- & Hy1).
    apply list_elem_of_In, in_map_iff in Hk2 as (y2 & Hkey & Hy2).
    apply in_flat_map in Hy2 as (x2 & Hx2 & Hy2).
    apply Hx. apply list_elem_of_In, in_map_iff. exists x2. split; [|done].
    assert (label (key y1) = lab x) as H1.
    { apply Hlab; [apply list_elem_of_here|by apply list_elem_of_In]. }
    assert (label (key y2) = lab x2) as H2.
    { apply Hlab; [by apply list_elem_of_further, list_elem_of_In
                  |by apply list_elem_of_In]. }
    congruence.
  - apply IH; [|intros; apply Hg|done].
    + intros x' y Hx' Hy. apply Hlab; [by apply list_elem_of_further|done].
    + by apply list_elem_of_further.
Qed.

Variables (p : Provider) (account_id : string) (required_tags : list string).

Lemma ec2_arn_inj (region path : string) :
  Inj (=) (=) (Reported.ec2_arn region account_id path).
Proof.
  intros id1 id2 H. unfold Reported.ec2_arn in H.
  by repeat apply (inj (String.app _)) in H.
Qed.

Lemma flagged_keys (region resource arn : string) (tags : list Tag) :
  NoDup (map triple (Reported.flagged region account_id required_tags resource arn tags))
  ∧ ∀ f, f ∈ Reported.flagged region account_id required_tags resource arn tags →
         triple f = (region, resource, arn).
Proof.
  unfold Reported.flagged. destruct (nonempty _).
  - split; [repeat constructor; apply not_elem_of_nil|].
    by intros f ->%list_elem_of_singleton.
  - split; [constructor|]. by intros f Hf%elem_of_nil.
Qed.

(** A listing of resources with distinct identifiers, each reporting
    under the reference [arn] makes of its identifier, gives findings with
    distinct triples. *)
Lemma listing_distinct {A} (region resource : string) (id : A → string)
    (arn : string → string) (report : A → list Excel.Finding) (xs : list A) :
  Inj (=) (=) arn →
  (∀ x, NoDup (map triple (report x))
        ∧ ∀ f, f ∈ report x → triple f = (region, resource, arn (id x))) →
  NoDup (map id xs) →
  NoDup (map triple (flat_map report xs)).
Proof.
  intros Harn Hreport Hids.
  apply (NoDup_keys_flat_map triple snd (λ x, arn (id x))).
  - intros x f _ Hf. destruct (Hreport x) as [_ H]. by rewrite (H f Hf).
  - intros x _. apply Hreport.
  - rewrite <- (map_map id arn). by apply (NoDup_fmap_2 arn).
Qed.

Lemma of_function_keys (region : string) (function : Function) :
  NoDup (map triple (Reported.of_function p region account_id required_tags function))
  ∧ ∀ f, f ∈ Reported.of_function p region account_id required_tags function →
         triple f = (region, "Lambda Function", FunctionArn function).
Proof.
  unfold Reported.of_function.
  destruct (list_tags p region (FunctionArn function)); [|apply flagged_keys].
  split; [repeat constructor; apply not_elem_of_nil|].
  by intros f ->%list_elem_of_singleton.
Qed.

Lemma of_database_keys (region : string) (instance : DBInstance) :
  NoDup (map triple (Reported.of_database p region account_id required_tags instance))
  ∧ ∀ f, f ∈ Reported.of_database p region account_id required_tags instance →
         triple f = (region, "RDS Instance", DBInstanceArn instance).
Proof.
  unfold Reported.of_database.
  destruct (list_tags_for_resource p region (DBInstanceArn instance));
    [|apply flagged_keys].
  split; [repeat constructor; apply not_elem_of_nil|].
  by intros f ->%list_elem_of_singleton.
Qed.

Lemma of_bucket_keys (bucket : Bucket) :
  NoDup (map triple (Reported.of_bucket p account_id required_tags bucket))
  ∧ ∀ f, f ∈ Reported.of_bucket p account_id required_tags bucket →
         triple f = ("Global", "S3 Bucket", "arn:aws:s3:::" ++ Name bucket)%string.
Proof.
  unfold Reported.of_bucket.
  destruct (get_bucket_tagging p (Name bucket)) as [|d].
  - split; [repeat constructor; apply not_elem_of_nil|].
    by intros f ->%list_elem_of_singleton.
  - destruct (copy_tag_set (default [] d)); [|apply flagged_keys].
    split; [repeat constructor; apply not_elem_of_nil|].
    by intros f ->%list_elem_of_singleton.
Qed.

Lemma of_kind_distinct (region : string) (k : Kind) :
  NoDup (Reported.ids p region k) →
  NoDup (map triple (Reported.of_kind p region account_id required_tags k)).
Proof.
  intros Hids.
  destruct k; cbn [Reported.of_kind Reported.ids] in *;
    unfold Reported.of_client, Reported.of_listing; try constructor.
  - destruct (client p "ec2" (Some region)); [constructor|].
    destruct (describe_instances p region) as [|rs]; [constructor|].
    rewrite flat_map_flat_map.
    apply (listing_distinct region "EC2 Instance" InstanceId
             (Reported.ec2_arn region account_id ":instance/"));
      [apply ec2_arn_inj|intros x; apply flagged_keys|done].
  - destruct (describe_volumes p region) as [|xs]; [constructor|].
    apply (listing_distinct region "EBS Volume" VolumeId
             (Reported.ec2_arn region account_id ":volume/"));
      [apply ec2_arn_inj|intros x; apply flagged_keys|done].
  - destruct (describe_vpcs p region) as [|xs]; [constructor|].
    apply (listing_distinct region "VPC" VpcId
             (Reported.ec2_arn region account_id ":vpc/"));
      [apply ec2_arn_inj|intros x; apply flagged_keys|done].
  - destruct (describe_security_groups p region) as [|xs]; [constructor|].
    apply (listing_distinct region "Security Group" GroupId
             (Reported.ec2_arn region account_id ":security-group/"));
      [apply ec2_arn_inj|intros x; apply flagged_keys|done].
  - destruct (describe_subnets p region) as [|xs]; [constructor|].
    apply (listing_distinct region "Subnet" SubnetId
             (Reported.ec2_arn region account_id ":subnet/"));
      [apply ec2_arn_inj|intros x; apply flagged_keys|done].
  - destruct (client p "lambda" (Some region)); [constructor|].
    destruct (list_functions p region) as [|xs]; [constructor|].
    apply (listing_distinct region "Lambda Function" FunctionArn id);
      [by intros ?? ?|apply of_function_keys|done].
  - destruct (client p "rds" (Some region)); [constructor|].
    destruct (describe_db_instances p region) as [|xs]; [constructor|].
    apply (listing_distinct region "RDS Instance" DBInstanceArn id);
      [by intros ?? ?|apply of_database_keys|done].
Qed.

Lemma kind_names_distinct : NoDup (map kind_name Excel.scan_order).
Proof.
  cbn. repeat (constructor; [rewrite ?elem_of_cons, elem_of_nil; intros H;
    repeat destruct H as [H|H]; discriminate H || done|]). constructor.
Qed.

Lemma region_scan_distinct (region : string) :
  (∀ k, NoDup (Reported.ids p region k)) →
  NoDup (map triple
           (Excel.get_resources_missing_tags_in_region p region account_id
              required_tags)).
Proof.
  intros Hids. rewrite excel_region_scan.
  destruct (Session p); [constructor|].
  apply (sublist_NoDup _
           (map triple
              (flat_map findings_of
                 (map (Excel.block p region account_id required_tags)
                    Excel.scan_order))));
    [|apply (fmap_sublist triple), accumulated_sublist].
  rewrite flat_map_map_compose.
  apply (NoDup_keys_flat_map triple (λ t, t.1.2) kind_name).
  - intros k f _ Hf. rewrite block_of_kind in Hf.
    destruct k; cbn [Reported.of_kind] in Hf;
      unfold Reported.of_client, Reported.of_listing in Hf;
      repeat match type of Hf with
             | context [match ?o with Raised => _ | Returned _ => _ end] =>
                 destruct o; [by apply elem_of_nil in Hf|]
             end;
      try (by apply elem_of_nil in Hf);
      apply list_elem_of_In, in_flat_map in Hf as (x & _ & Hf);
      try (apply in_flat_map in Hf as (x' & _ & Hf));
      apply list_elem_of_In in Hf.
    + by rewrite (proj2 (flagged_keys _ _ _ _) f Hf).
    + by rewrite (proj2 (flagged_keys _ _ _ _) f Hf).
    + by rewrite (proj2 (flagged_keys _ _ _ _) f Hf).
    + by rewrite (proj2 (flagged_keys _ _ _ _) f Hf).
    + by rewrite (proj2 (flagged_keys _ _ _ _) f Hf).
    + by rewrite (proj2 (of_function_keys _ _) f Hf).
    + by rewrite (proj2 (of_database_keys _ _) f Hf).
  - intros k _. rewrite block_of_kind. by apply of_kind_distinct.
  - apply kind_names_distinct.
Qed.

End Distinct.

(** X10. Each resource has one finding at most: when the scanned regions
    are distinct and none is called [Global], and the listed resources of
    each kind (and the buckets) have distinct identifiers, no two findings
    of a run have the same region, kind and reference. *)
Theorem run_findings_distinct
    (p : Provider) (account_id : string) (required_tags : list string)
    (completed : list string) :
  NoDup completed → "Global" ∉ completed →
  (∀ region k, region ∈ completed → NoDup (Reported.ids p region k)) →
  NoDup (Reported.bucket_names p) →
  NoDup (map triple (Excel.all_resources p account_id required_tags completed)).
Proof.
  intros Hcompleted Hglobal Hids Hbuckets.
  rewrite all_resources_split, map_app. apply NoDup_app. split; [|split].
  - apply (NoDup_keys_flat_map triple (λ t, t.1.1) id).
    + intros region f _ Hf.
      pose proof (region_scan_labels p account_id required_tags region) as Hl.
      rewrite Forall_forall in Hl. destruct (Hl f Hf) as (_ & Hr & _). exact Hr.
    + intros region Hregion. apply region_scan_distinct. intros k. by apply Hids.
    + by rewrite map_id.
  - intros t Ht1 Ht2.
    apply list_elem_of_In, in_map_iff in Ht1 as (f1 & <- & Hf1).
    apply list_elem_of_In, in_map_iff in Ht2 as (f2 & Heq & Hf2).
    apply in_flat_map in Hf1 as (region & Hregion & Hf1).
    pose proof (region_scan_labels p account_id required_tags region) as Hl.
    rewrite Forall_forall in Hl.
    apply list_elem_of_In, Hl in Hf1 as (_ & Hr1 & _).
    unfold Reported.of_buckets in Hf2.
    destruct (client p "s3" None); [done|]. destruct (list_buckets p); [done|].
    apply in_flat_map in Hf2 as (b & _ & Hf2).
    apply list_elem_of_In in Hf2.
    pose proof (proj2 (of_bucket_keys p account_id required_tags b) f2 Hf2) as Hb.
    rewrite Hb in Heq. unfold triple in Heq. injection Heq as Hr2 _ _.
    apply Hglobal. rewrite Hr2, Hr1. by apply list_elem_of_In.
  - unfold Reported.of_buckets, Reported.bucket_names in *.
    destruct (client p "s3" None); [constructor|].
    destruct (list_buckets p) as [|bs]; [constructor|].
    apply (listing_distinct "Global" "S3 Bucket" Name (String.app "arn:aws:s3:::"));
      [apply _|apply of_bucket_keys|done].
Qed.

Ltac distinct_strings :=
  repeat (constructor;
          [rewrite ?elem_of_cons, ?elem_of_nil;
           let H := fresh in intros H; repeat destruct H as [H|H]; discriminate H || done
          |]);
  constructor.

Lemma run_findings_distinct_witness :
  NoDup (map triple
           (Excel.all_resources RunExamples.fleet "123" ["Environment"; "Owner"]
              ["eu-west-1"; "us-east-1"])).
Proof.
  apply run_findings_distinct.
  - distinct_strings.
  - rewrite !elem_of_cons, elem_of_nil. intros H.
    repeat destruct H as [H|H]; discriminate H || done.
  - intros region k _. destruct k; cbn; distinct_strings.
  - cbn. distinct_strings.
Defined.

(** ** The tags of buckets and of functions *)

Section TagShapes.

Lemma copy_tag_set_malformed (tags : list Tag) :
  Exists malformed tags → copy_tag_set tags = Raised.
Proof.
  induction 1 as [tag tags [H|H]|tag tags _ IH]; cbn [copy_tag_set].
  - by rewrite H.
  - rewrite H. by destruct (tag !! "Key").
  - rewrite IH. by destruct (tag !! "Key"), (tag !! "Value").
Qed.

Lemma copy_tag_set_keys (tags : list Tag) :
  Forall (λ tag, ¬ malformed tag) tags →
  ∃ copied, copy_tag_set tags = Returned copied
            ∧ map tag_key copied = map tag_key tags
            ∧ length copied = length tags.
Proof.
  induction 1 as [|tag tags Htag _ (copied & IH & Hkeys & Hlen)].
  - by exists [].
  - cbn [copy_tag_set]. rewrite IH.
    destruct (tag !! "Key") as [k|] eqn:Hk; [|exfalso; apply Htag; by left].
    destruct (tag !! "Value") as [v|] eqn:Hv; [|exfalso; apply Htag; by right].
    exists (mk_tag k v :: copied). split; [done|]. cbn [map length].
    rewrite Hkeys, Hlen, tag_key_mk_tag. unfold tag_key. by rewrite Hk.
Qed.

Lemma check_missing_tags_same_keys (tags1 tags2 : list Tag) (required : list string) :
  map tag_key tags1 = map tag_key tags2 →
  check_missing_tags (Some tags1) required = check_missing_tags (Some tags2) required.
Proof.
  intros H. rewrite !check_missing_tags_filter. unfold keys_of, existing_tags.
  cbn [default from_option id]. by rewrite H.
Qed.

Lemma tags_of_items_keys (d : gmap string string) :
  keys_of (Some (tags_of_items d)) = dom d.
Proof.
  unfold keys_of, existing_tags, tags_of_items. cbn [default from_option id].
  apply set_eq. intros k.
  rewrite elem_of_list_to_set, map_map, list_elem_of_In, in_map_iff, elem_of_dom.
  split.
  - intros ([k' v] & Hk & Hin). cbn in Hk. rewrite tag_key_mk_tag in Hk. subst.
    apply list_elem_of_In, elem_of_map_to_list in Hin. by exists v.
  - intros [v Hv]. exists (k, v). split; [cbn; apply tag_key_mk_tag|].
    by apply list_elem_of_In, elem_of_map_to_list.
Qed.

End TagShapes.

(** X11. A tag record of a bucket without its ['Key'] or its ['Value']
    makes the copy of the tag set raise inside the [try]: the bucket is
    reported with every required tag, whatever tags it has. *)
Theorem bucket_with_malformed_tag_reports_all
    (p : Provider) (account_id : string) (required_tags : list string)
    (bucket : Bucket) (tags_response : option (list Tag)) (acc : list Excel.Finding) :
  get_bucket_tagging p (Name bucket) = Returned tags_response →
  Exists malformed (default [] tags_response) →
  Excel.s3_bucket p account_id required_tags bucket acc
  = (Returned tt,
     acc ++ [worst_case "Global" account_id required_tags (BucketTags bucket)]).
Proof.
  intros Hget Hbad.
  unfold Excel.s3_bucket, Scan.try_except, mbind, Scan_bind, Scan.bind, Scan.call.
  rewrite Hget. by rewrite copy_tag_set_malformed.
Qed.

Lemma bucket_with_malformed_tag_reports_all_witness :
  Excel.s3_bucket RunExamples.fleet "123" ["Owner"] Examples.a_bucket []
  = (Returned tt, [worst_case "Global" "123" ["Owner"] (BucketTags Examples.a_bucket)]).
Proof.
  apply (bucket_with_malformed_tag_reports_all RunExamples.fleet "123" ["Owner"]
           Examples.a_bucket (Some [ {[ "Key" := "Owner" ]} ]) []).
  - reflexivity.
  - constructor. right. reflexivity.
Defined.

(** X12. When every tag record of a bucket has its ['Key'] and its
    ['Value'], the bucket is judged on the keys of these records alone: it
    is reported exactly when [check_missing_tags] on the records as the
    provider gave them is not empty, with that list. *)
Theorem bucket_judged_on_keys
    (p : Provider) (account_id : string) (required_tags : list string)
    (bucket : Bucket) (tags_response : option (list Tag)) (acc : list Excel.Finding) :
  get_bucket_tagging p (Name bucket) = Returned tags_response →
  Forall (λ tag, ¬ malformed tag) (default [] tags_response) →
  Excel.s3_bucket p account_id required_tags bucket acc
  = Excel.flag "Global" account_id required_tags "S3 Bucket"
      ("arn:aws:s3:::" ++ Name bucket) (default [] tags_response) acc.
Proof.
  intros Hget Hgood.
  destruct (copy_tag_set_keys _ Hgood) as (copied & Hcopy & Hkeys & Hlen).
  unfold Excel.s3_bucket, Scan.try_except, mbind, Scan_bind, Scan.bind, Scan.call.
  rewrite Hget, Hcopy.
  unfold Excel.flag. rewrite (check_missing_tags_same_keys copied _ _ Hkeys).
  by destruct (nonempty (check_missing_tags (Some (default [] tags_response))
                           required_tags)).
Qed.

Lemma bucket_judged_on_keys_witness :
  Excel.s3_bucket RunExamples.fleet "123" ["Environment"; "Owner"]
    RunExamples.logs_bucket []
  = Excel.flag "Global" "123" ["Environment"; "Owner"] "S3 Bucket"
      ("arn:aws:s3:::" ++ Name RunExamples.logs_bucket)
      (default [] (Some [mk_tag "Owner" "ops"])) [].
Proof.
  apply (bucket_judged_on_keys RunExamples.fleet "123" ["Environment"; "Owner"]
           RunExamples.logs_bucket (Some [mk_tag "Owner" "ops"]) []).
  - reflexivity.
  - repeat constructor. intros [H|H]; vm_compute in H; discriminate H.
Defined.

(** X13. A Lambda function is judged on the keys of its tag dict: what is
    missing is the required names that are not keys of the dict, in the
    order of the required list; the values play no part. *)
Theorem lambda_judged_on_dict_keys (d : gmap string string) (required : list string) :
  check_missing_tags (Some (tags_of_items d)) required
  = filter (λ tag, tag ∉ dom d) required.
Proof.
  rewrite check_missing_tags_filter, tags_of_items_keys. reflexivity.
Qed.

(** ** The two scanners side by side *)

Section Agree.
Context {F G : Type}.

Lemma agree_ret {A} (a : A) : agree (F:=F) (G:=G) (mret a) (mret a).
Proof. by intros acc1 acc2 H. Qed.

Lemma agree_pass : agree (F:=F) (G:=G) Scan.pass Scan.pass.
Proof. by intros acc1 acc2 H. Qed.

Lemma agree_call {A} (o : outcome A) : agree (F:=F) (G:=G) (Scan.call o) (Scan.call o).
Proof. by intros acc1 acc2 H. Qed.

Lemma agree_append (f : F) (g : G) : agree (Scan.append f) (Scan.append g).
Proof. intros acc1 acc2 H. cbn. rewrite !length_app, H. done. Qed.

Lemma agree_bind {A B} (m1 : Scan F A) (m2 : Scan G A)
    (k1 : A → Scan F B) (k2 : A → Scan G B) :
  agree m1 m2 → (∀ a, agree (k1 a) (k2 a)) → agree (m1 ≫= k1) (m2 ≫= k2).
Proof.
  intros Hm Hk acc1 acc2 H. unfold mbind, Scan_bind, Scan.bind.
  destruct (Hm acc1 acc2 H) as [Ho Hl].
  destruct (m1 acc1) as [[|a] l1], (m2 acc2) as [[|a'] l2];
    cbn in *; try done.
  injection Ho as <-. by apply Hk.
Qed.

Lemma agree_try_except {A} (b1 h1 : Scan F A) (b2 h2 : Scan G A) :
  agree b1 b2 → agree h1 h2 → agree (Scan.try_except b1 h1) (Scan.try_except b2 h2).
Proof.
  intros Hb Hh acc1 acc2 H. unfold Scan.try_except.
  destruct (Hb acc1 acc2 H) as [Ho Hl].
  destruct (b1 acc1) as [[|a] l1], (b2 acc2) as [[|a'] l2];
    cbn in *; try done.
  by apply Hh.
Qed.

Lemma agree_for_each {A} (xs : list A) (b1 : A → Scan F unit) (b2 : A → Scan G unit) :
  (∀ x, agree (b1 x) (b2 x)) → agree (Scan.for_each xs b1) (Scan.for_each xs b2).
Proof.
  intros Hb. induction xs as [|x xs IH]; cbn [Scan.for_each]; [apply agree_pass|].
  apply (agree_bind (b1 x) (b2 x) (λ _, Scan.for_each xs b1) (λ _, Scan.for_each xs b2));
    auto.
Qed.

End Agree.

Ltac scan_agree :=
  repeat first
    [ apply agree_pass
    | apply agree_call
    | apply agree_append
    | apply agree_try_except
    | apply agree_for_each; intros ?
    | apply agree_bind; [|intros ?] ].

Section SideBySide.
Variables (p : Provider) (region account_id : string) (required_tags : list string).

Lemma flag_agree (resource arn kind name : string) (tags : list Tag) :
  agree (Excel.flag region account_id required_tags resource arn tags)
    (Console.flag required_tags kind name tags).
Proof.
  unfold Excel.flag, Console.flag.
  destruct (nonempty (check_missing_tags (Some tags) required_tags)).
  - apply agree_append.
  - apply agree_ret.
Qed.

Lemma block_agree (k : Kind) :
  agree (Excel.block p region account_id required_tags k)
    (Console.block p region required_tags k).
Proof.
  destruct k; cbn [Excel.block Console.block];
    unfold Excel.ec2_instances, Excel.ebs_volumes, Excel.vpcs, Excel.security_groups,
      Excel.subnets, Excel.lambda_functions, Excel.rds_instances,
      Excel.lambda_function, Excel.rds_instance, Excel.flag_all,
      Console.ec2_instances, Console.ebs_volumes, Console.vpcs,
      Console.security_groups, Console.subnets, Console.lambda_functions,
      Console.rds_instances, Console.lambda_function, Console.rds_instance,
      Console.flag_all;
    scan_agree; apply flag_agree.
Qed.

Lemma block_same (k : Kind) :
  (Excel.block p region account_id required_tags k []).1
  = (Console.block p region required_tags k []).1
  ∧ length (findings_of (Excel.block p region account_id required_tags k))
    = length (findings_of (Console.block p region required_tags k)).
Proof. by apply block_agree. Qed.

End SideBySide.

(** X14. The two scanners judge the resources in the same way.  Kind by
    kind, the block of the one raises exactly when the block of the other
    does, and both flag the same number of resources.  They differ in the
    order of the kinds: when every call of the region returns, both scans
    return the same number of findings. *)
Theorem scanners_flag_the_same_resources
    (p : Provider) (region account_id : string) (required_tags : list string) :
  (∀ k, (Excel.block p region account_id required_tags k []).1
        = (Console.block p region required_tags k []).1
        ∧ length (findings_of (Excel.block p region account_id required_tags k))
          = length (findings_of (Console.block p region required_tags k)))
  ∧ (healthy p region = true →
     length (Excel.get_resources_missing_tags_in_region p region account_id
               required_tags)
     = length (Console.get_resources_missing_tags_in_region p region required_tags).2).
Proof.
  split; [intros k; apply block_same|]. intros H.
  rewrite excel_region_scan, console_region_scan. cbn [snd].
  assert (Session p = Returned tt) as ->.
  { unfold healthy in H. repeat (apply andb_prop in H as [H _]).
    by destruct (Session p) as [|[]]. }
  rewrite !accumulated_all.
  - cbn [map flat_map Excel.scan_order Console.scan_order].
    rewrite !length_app. cbn [length].
    pose proof (λ k, proj2 (block_same p region account_id required_tags k)) as Hk.
    rewrite (Hk EC2Instance), (Hk EBSVolume), (Hk VPC), (Hk SecurityGroupKind),
      (Hk SubnetKind), (Hk LambdaFunction), (Hk RDSInstance).
    lia.
  - apply Forall_map, Forall_forall. intros k _. unfold returns.
    rewrite <- (proj1 (block_same p region account_id required_tags k)).
    by apply healthy_returns.
  - apply Forall_map, Forall_forall. intros k _. by apply healthy_returns.
Qed.

Lemma scanners_flag_the_same_resources_witness :
  length (Excel.get_resources_missing_tags_in_region RunExamples.fleet "us-east-1" "123"
            ["Environment"; "Owner"])
  = length (Console.get_resources_missing_tags_in_region RunExamples.fleet "us-east-1"
              ["Environment"; "Owner"]).2.
Proof.
  apply (scanners_flag_the_same_resources RunExamples.fleet "us-east-1" "123"
           ["Environment"; "Owner"]).
  reflexivity.
Defined.

(** ** The tables of the report *)

Section Tabulate.
Variable xs : list string.

Lemma total_cons (item : string * nat) (table : list (string * nat)) :
  total (item :: table) = (item.2 + total table)%nat.
Proof. reflexivity. Qed.

Lemma total_perm (t1 t2 : list (string * nat)) : t1 ≡ₚ t2 → total t1 = total t2.
Proof.
  induction 1 as [|x t1 t2 _ IH|x y t|t1 t2 t3 _ IH1 _ IH2];
    rewrite ?total_cons; [done|by rewrite IH|lia|congruence].
Qed.

Lemma total_incr (k : string) (c : Analysis.counter) :
  total (Analysis.incr k c) = S (total c).
Proof.
  induction c as [|[k' n] c IH]; [done|]. cbn [Analysis.incr].
  destruct (decide (k = k')); rewrite !total_cons; cbn [snd]; [done|].
  rewrite IH. lia.
Qed.

Lemma total_Counter : total (Analysis.Counter xs) = length xs.
Proof.
  unfold Analysis.Counter.
  assert (∀ c, total (fold_left (λ c k, Analysis.incr k c) xs c)
               = (length xs + total c)%nat) as H.
  { induction xs as [|x l IH]; intros c; [done|]. cbn [fold_left length].
    rewrite IH, total_incr. lia. }
  rewrite H. cbn. lia.
Qed.

Lemma tabulated : frequency_table xs (Analysis.most_common (Analysis.Counter xs)).
Proof.
  assert (Analysis.most_common (Analysis.Counter xs)
          ≡ₚ map (λ k, (k, occurrences k xs)) (first_seen xs)) as Hperm.
  { rewrite most_common_perm. by rewrite Counter_items. }
  split; [|split; [|split; [|split]]].
  - rewrite Hperm, map_fst_pairs. apply first_seen_NoDup.
  - intros k n. rewrite Hperm, list_elem_of_In, in_map_iff. split.
    + intros (k' & [= -> ->] & Hin%list_elem_of_In).
      rewrite first_seen_elem in Hin. done.
    + intros [Hin ->]. exists k. split; [done|].
      apply list_elem_of_In. by rewrite first_seen_elem.
  - apply most_common_sorted.
  - intros k1 k2 n Hsub. apply most_common_ties in Hsub; [|done].
    rewrite Counter_items in Hsub. apply first_seen_order.
    apply (fmap_sublist fst) in Hsub. by rewrite map_fst_pairs in Hsub.
  - rewrite (total_perm _ _ (most_common_perm _)). apply total_Counter.
Qed.

End Tabulate.

(** X15. The table of the findings by region lists every region of the
    dataset once with its number of findings, greatest count first, regions
    of equal count in the order in which they first appear; its counts, and
    those of the table by kind, add up to the number of rows the report
    prints as the total. *)
Theorem resources_by_region_is_frequency_table (resources : list Analysis.Row) :
  frequency_table (map Excel.Region resources) (Analysis.resources_by_region resources)
  ∧ total (Analysis.resources_by_region resources) = length resources
  ∧ total (Analysis.resources_by_type resources) = length resources.
Proof.
  split; [apply tabulated|]. split.
  - pose proof (tabulated (map Excel.Region resources)) as (_ & _ & _ & _ & H).
    unfold Analysis.resources_by_region. by rewrite H, length_map.
  - pose proof (tabulated (map Excel.Resource resources)) as (_ & _ & _ & _ & H).
    unfold Analysis.resources_by_type. by rewrite H, length_map.
Qed.

(** ** The missing tags read back by the report *)

Section ReadBack.

Lemma prefix_comma (c : ascii) (s : string) :
  String.prefix "," (String c s) = Ascii.eqb c ",".
Proof.
  cbn [String.prefix].
  destruct (ascii_dec "," c) as [<-|Hc]; [by destruct s|].
  by destruct (Ascii.eqb_spec c ",") as [->|].
Qed.

Lemma split_comma_piece (piece rest : string) :
  has_comma piece = false →
  PyStr.split_from "," 0 (piece ++ String "," rest)
  = piece :: PyStr.split_from "," 0 rest.
Proof.
  induction piece as [|c piece IH]; intros H.
  - rewrite string_app_nil_l. cbn [PyStr.split_from]. by rewrite prefix_comma.
  - cbn [has_comma] in H. apply orb_false_elim in H as [Hc Hpiece].
    rewrite string_app_cons. cbn [PyStr.split_from].
    rewrite prefix_comma, Hc. by rewrite IH.
Qed.

Lemma split_comma_last (piece : string) :
  has_comma piece = false → PyStr.split_from "," 0 piece = [piece].
Proof.
  induction piece as [|c piece IH]; intros H; [done|].
  cbn [has_comma] in H. apply orb_false_elim in H as [Hc Hpiece].
  cbn [PyStr.split_from]. rewrite prefix_comma, Hc. by rewrite IH.
Qed.

Lemma has_comma_app (a b : string) : has_comma (a ++ b) = has_comma a || has_comma b.
Proof.
  induction a as [|c a IH]; [done|].
  rewrite string_app_cons. cbn [has_comma]. by rewrite IH, orb_assoc.
Qed.

(** The names joined with a comma and a space, after nothing or after one
    space, are read back by splitting on the comma and stripping. *)
Lemma split_strip_join (pad : string) (names : list string) :
  pad = "" ∨ pad = " " →
  names ≠ [] →
  forallb (λ tag, negb (has_comma tag) && String.eqb (PyStr.strip tag) tag) names = true →
  map PyStr.strip (PyStr.split "," (pad ++ PyStr.join ", " names)) = names.
Proof.
  unfold PyStr.split, PyStr.join.
  revert pad. induction names as [|name names IH]; intros pad Hpad Hne Hall; [done|].
  cbn [forallb] in Hall. apply andb_prop in Hall as [Hname Hnames].
  apply andb_prop in Hname as [Hcomma Hstrip].
  apply negb_true_iff in Hcomma. apply String.eqb_eq in Hstrip.
  assert (PyStr.strip (pad ++ name) = name) as Hpadded.
  { destruct Hpad as [-> | ->]; [by rewrite string_app_nil_l|exact Hstrip]. }
  assert (has_comma (pad ++ name) = false) as Hpadcomma.
  { rewrite has_comma_app, Hcomma. by destruct Hpad as [-> | ->]. }
  destruct names as [|name' names'].
  - cbn [String.concat]. rewrite split_comma_last by done. cbn [map]. by rewrite Hpadded.
  - change (String.concat ", " (name :: name' :: names'))
      with (name ++ String "," (" " ++ String.concat ", " (name' :: names')))%string.
    rewrite <- string_app_assoc.
    rewrite split_comma_piece by done. cbn [map]. rewrite Hpadded. f_equal.
    apply IH; [by right|done|done].
Qed.

Lemma readable_row (r : Report) :
  readable r = true → Analysis.missing_tags_of (row_of r) = missing_tags r.
Proof.
  unfold readable. intros [Hne Hall]%andb_prop.
  unfold Analysis.missing_tags_of.
  change (Excel.Missing_Tags (row_of r)) with ("" ++ PyStr.join ", " (missing_tags r))%string.
  apply split_strip_join; [by left| |done]. by destruct (missing_tags r).
Qed.

End ReadBack.

(** X16. The report reads the missing tags of a finding back as the
    scanner had them: for a finding with a non-empty sequence of tag names,
    none with a comma in it or white space at its ends, splitting the
    ['Missing_Tags'] cell on the comma and stripping the pieces gives the
    sequence, in its order. *)
Theorem missing_tags_read_back (r : Report) :
  readable r = true → Analysis.missing_tags_of (row_of r) = missing_tags r.
Proof. apply readable_row. Qed.

Lemma missing_tags_read_back_witness :
  Analysis.missing_tags_of (row_of DatasetExamples.two_tags)
  = ["Environment"; "Owner"].
Proof. apply (missing_tags_read_back DatasetExamples.two_tags). reflexivity. Defined.

(** X17. The table of the most commonly missing tags counts, for each tag
    name, the findings that miss it: over readable findings it is the
    frequency table of all the missing tag names of all the findings, a
    finding with k missing tags adding to k counts. *)
Theorem missing_tag_counts_is_frequency_table (reports : list Report) :
  Forall (λ r, readable r = true) reports →
  frequency_table (flat_map missing_tags reports)
    (Analysis.missing_tag_counts (map row_of reports)).
Proof.
  intros Hall. unfold Analysis.missing_tag_counts.
  assert (flat_map Analysis.missing_tags_of (map row_of reports)
          = flat_map missing_tags reports) as ->; [|apply tabulated].
  induction Hall as [|r reports Hr _ IH]; [done|].
  cbn [map flat_map]. by rewrite IH, readable_row.
Qed.

Lemma missing_tag_counts_is_frequency_table_witness :
  frequency_table
    (flat_map missing_tags [DatasetExamples.two_tags; DatasetExamples.two_tags])
    (Analysis.missing_tag_counts
       (map row_of [DatasetExamples.two_tags; DatasetExamples.two_tags])).
Proof.
  apply missing_tag_counts_is_frequency_table. repeat constructor.
Defined.

(** ** The sample of the report *)

(** X18. The sample shows the first five rows of kind [EC2 Instance] in
    the order of the dataset and says how many it leaves out: the rows shown
    and the number left out add up to the count of [EC2 Instance] in the
    table by kind, and no number is printed when there are five such rows
    or fewer. *)
Theorem sample_accounts_for_every_instance (resources : list Analysis.Row) :
  Sample.shown resources `prefix_of` Sample.ec2_instances resources
  ∧ (length (Sample.shown resources) ≤ 5)%nat
  ∧ (length (Sample.shown resources) + default 0 (Sample.more resources))%nat
    = occurrences "EC2 Instance" (map Excel.Resource resources)
  ∧ (Sample.more resources = None
     ↔ (occurrences "EC2 Instance" (map Excel.Resource resources) ≤ 5)%nat)
  ∧ (Sample.ec2_instances resources ≠ [] →
     ("EC2 Instance", (length (Sample.shown resources)
                       + default 0 (Sample.more resources))%nat)
     ∈ Analysis.resources_by_type resources).
Proof.
  assert (length (Sample.ec2_instances resources)
          = occurrences "EC2 Instance" (map Excel.Resource resources)) as Hlen.
  { unfold Sample.ec2_instances, occurrences.
    induction resources as [|row rows IH]; [done|]. cbn [map].
    destruct (decide (Excel.Resource row = "EC2 Instance")) as [Hrow|Hrow].
    - rewrite !filter_cons_True by done. cbn [length]. by rewrite IH.
    - by rewrite !filter_cons_False. }
  assert ((length (Sample.shown resources) + default 0 (Sample.more resources))%nat
          = occurrences "EC2 Instance" (map Excel.Resource resources)) as Hsum.
  { rewrite <- Hlen. unfold Sample.shown, Sample.more. rewrite length_take.
    destruct (decide (5 < length (Sample.ec2_instances resources))%nat);
      cbn [default from_option id]; lia. }
  split; [apply prefix_take|]. split.
  { unfold Sample.shown. rewrite length_take. lia. }
  split; [exact Hsum|]. split.
  { rewrite <- Hlen. unfold Sample.more.
    destruct (decide (5 < length (Sample.ec2_instances resources))%nat);
      split; (done || lia). }
  intros Hne. rewrite Hsum.
  apply (tabulated (map Excel.Resource resources)). split; [|done].
  destruct (Sample.ec2_instances resources) as [|row rows] eqn:E; [done|].
  assert (row ∈ Sample.ec2_instances resources) as Hrow.
  { rewrite E. apply list_elem_of_here. }
  apply list_elem_of_filter in Hrow as [Hkind Hrow].
  rewrite <- Hkind. apply list_elem_of_In, in_map. by apply list_elem_of_In.
Qed.

Lemma sample_accounts_for_every_instance_witness :
  ("EC2 Instance", (length (Sample.shown ReportExamples.seven)
                    + default 0 (Sample.more ReportExamples.seven))%nat)
  ∈ Analysis.resources_by_type ReportExamples.seven.
Proof.
  apply (sample_accounts_for_every_instance ReportExamples.seven). discriminate.
Defined.

(** ** The limit of the reader *)

(** X19. The report reads no cell of more than 131072 characters, the
    limit of [csv] on the size of a field: every cell of every row that the
    read of a dataset returns is within the limit.  So the dataset written
    for findings of which one has a longer cell (a long list of missing
    tags) is not read back as written. *)
Theorem oversize_cell_is_not_read_back :
  (∀ content rows, Analysis.read content = Returned rows →
     Forall (λ d, Forall (λ cell, within_limit cell = true) (dict_cells d)) rows)
  ∧ (∀ findings,
       Exists (λ f, Exists (λ cell, within_limit cell = false) (Dataset.cells f))
         findings →
       match Dataset.export findings with
       | Some content => Analysis.read content ≠ Returned (map dict_of findings)
       | None => False
       end).
Proof.
  split; [apply read_bounded|].
  intros findings Hlong.
  destruct (Dataset.export findings) as [content|] eqn:E.
  - intros Hread. apply read_bounded in Hread.
    apply Exists_exists in Hlong as (f & Hf & (cell & Hcell & Hlong)%Exists_exists).
    rewrite Forall_forall in Hread.
    assert (dict_of f ∈ map dict_of findings) as Hd.
    { apply list_elem_of_In, in_map. by apply list_elem_of_In. }
    specialize (Hread _ Hd). rewrite Forall_forall in Hread.
    assert (within_limit cell = true) as Htrue; [|congruence].
    apply Hread. unfold dict_of, Dataset.cells, Dataset.fieldnames in *.
    cbn [dict_cells zip zip_with fmap list_fmap snd] in *. exact Hcell.
  - destruct findings; [by apply Exists_nil in Hlong|discriminate E].
Qed.

Lemma oversize_cell_is_not_read_back_witness :
  match Dataset.export [row_of DatasetExamples.over_limit] with
  | Some content =>
      Analysis.read content
      ≠ Returned (map dict_of [row_of DatasetExamples.over_limit])
  | None => False
  end.
Proof.
  apply (proj2 oversize_cell_is_not_read_back).
  apply Exists_cons_hd, Exists_exists. exists DatasetExamples.long_name. split.
  - unfold Dataset.cells. do 4 apply list_elem_of_further. apply list_elem_of_here.
  - apply long_name_over_limit.
Defined.
